(** * Cython/Utils.py: memoization, versioned-file resolution, package
    directories and captured output streams.

    Python strings are modelled as lists of characters ([str]); a
    filesystem snapshot is a set of functions: [listdir d] (the entries of
    directory [d], in the order [os.scandir] yields them) and predicates for
    [os.path.isdir], [os.path.lexists] and [os.path.exists] / [path_exists]. *)

From Stdlib Require Import List Ascii String ZArith Bool Lia Permutation.
Import ListNotations.
Open Scope list_scope.

Abbreviation str := (list ascii) (only parsing).

(** A Python string literal. *)
Definition lit (s : string) : str := list_ascii_of_string s.

Fixpoint str_eqb (a b : str) : bool :=
  match a, b with
  | [], [] => true
  | c :: a', d :: b' => Ascii.eqb c d && str_eqb a' b'
  | _, _ => false
  end.

(** [p] is a prefix of [s] ([s.startswith(p)]). *)
Fixpoint startswith (p s : str) : bool :=
  match p, s with
  | [], _ => true
  | c :: p', d :: s' => Ascii.eqb c d && startswith p' s'
  | _ :: _, [] => false
  end.

Definition endswith (suf s : str) : bool := startswith (rev suf) (rev s).

Definition is_slash (c : ascii) : bool := Ascii.eqb c "/"%char.

(** ** posixpath *)

(** [os.path.join(a, b)] *)
Definition os_path_join (a b : str) : str :=
  if startswith ["/"%char] b then b
  else match a with
       | [] => b
       | _ => if endswith ["/"%char] a then a ++ b else a ++ ["/"%char] ++ b
       end.

Fixpoint take_while (p : ascii -> bool) (l : str) : str :=
  match l with
  | [] => []
  | c :: l' => if p c then c :: take_while p l' else []
  end.

Fixpoint drop_while (p : ascii -> bool) (l : str) : str :=
  match l with
  | [] => []
  | c :: l' => if p c then drop_while p l' else l
  end.

(** [os.path.split(p)]: [i = p.rfind('/') + 1; head, tail = p[:i], p[i:]],
    then trailing slashes are stripped from [head] unless it is all slashes.
    Written over the reversed string. *)
Definition os_path_split (p : str) : str * str :=
  let r := rev p in
  let tail := rev (take_while (fun c => negb (is_slash c)) r) in
  let head_r := drop_while (fun c => negb (is_slash c)) r in
  let head := rev head_r in
  let head := if forallb is_slash head then head
              else rev (drop_while is_slash head_r) in
  (head, tail).

Definition os_path_dirname (p : str) : str := fst (os_path_split p).
Definition os_path_basename (p : str) : str := snd (os_path_split p).

Definition is_nil {A} (l : list A) : bool :=
  match l with [] => true | _ => false end.

(** The outcome of a Python call: a value or a raised exception. *)
Inductive result (A E : Type) : Type :=
| Ok (a : A)
| Exc (e : E).
Arguments Ok {A E} a.
Arguments Exc {A E} e.

(** ** find_versioned_file *)

Definition is_hidden (s : str) : bool := startswith ["."%char] s.

Definition is_digit (c : ascii) : bool :=
  (48 <=? nat_of_ascii c)%nat && (nat_of_ascii c <=? 57)%nat.

Definition digit_value (c : ascii) : Z := Z.of_nat (nat_of_ascii c - 48).

(** Split [l] at the first character satisfying [p]. *)
Fixpoint break_at (p : ascii -> bool) (l : str) : option (str * str) :=
  match l with
  | [] => None
  | c :: l' =>
      if p c then Some ([], l')
      else match break_at p l' with
           | Some (a, b) => Some (c :: a, b)
           | None => None
           end
  end.

(** Value of a digit string given least significant digit first. *)
Fixpoint value_rev (ds : str) : Z :=
  match ds with
  | [] => 0
  | c :: r => digit_value c + 10 * value_rev r
  end.

Definition ext_char (c : ascii) : bool :=
  negb (Ascii.eqb c "."%char || Ascii.eqb c "/"%char || Ascii.eqb c "\"%char).

(** [_parse_file_version = re.compile(r".*[.]cython-([0-9]+)[.][^./\\]+$").findall],
    with [int(versions[0])] applied when the list is non-empty.  The match
    is anchored at the end: the text after the last dot is a non-empty run
    of characters other than [./\], the digits of the group are the maximal
    run of digits before that dot, and they follow [.cython-].  We read the
    path from its end. *)
Definition _parse_file_version (path : str) : option Z :=
  match break_at (fun c => Ascii.eqb c "."%char) (rev path) with
  | Some (ext_r, rest) =>
      if negb (is_nil ext_r) && forallb ext_char ext_r then
        let ds := take_while is_digit rest in
        let rest2 := drop_while is_digit rest in
        if negb (is_nil ds) && startswith (rev (lit ".cython-")) rest2
        then Some (value_rev ds) else None
      else None
  | None => None
  end.

(** *** [fnmatch.translate] (CPython 3.11) and the regex it compiles to *)

(** A character of the set text that [translate] hands to [re]; [Esc c] is
    written [\c] (a class escape, read by [re] as the literal [c]). *)
Inductive set_atom := Raw (c : ascii) | Esc (c : ascii).

Definition atom_char (a : set_atom) : ascii := match a with Raw c | Esc c => c end.

Definition is_raw (c : ascii) (a : set_atom) : bool :=
  match a with Raw d => Ascii.eqb d c | Esc _ => false end.

(** An item of a parsed character set: a literal or a range [lo-hi]. *)
Inductive set_item := SLit (c : ascii) | SRange (lo hi : ascii).

(** The pieces of a translated pattern: [STAR], [.], [(?!)], an escaped
    literal, and a set [[...]] ([negate]: [[^...]]). *)
Inductive ftok :=
| FStar
| FAny
| FNever
| FLit (c : ascii)
| FSet (negate : bool) (items : list set_item).

(** The scan after a [[]: [j] passes an optional [!], then an optional []],
    then runs to the next []].  [None] when there is none ([j >= n]: the [[]
    is a literal); otherwise [stuff = pat[i:j]] and the rest [pat[j+1:]]. *)
Definition class_content (rest : str) : option (str * str) :=
  let '(p1, r1) := match rest with
                   | c :: r => if Ascii.eqb c "!"%char then ([c], r) else ([], rest)
                   | [] => ([], [])
                   end in
  let '(p2, r2) := match r1 with
                   | c :: r => if Ascii.eqb c "]"%char then (p1 ++ [c], r) else (p1, r1)
                   | [] => (p1, [])
                   end in
  match break_at (fun c => Ascii.eqb c "]"%char) r2 with
  | Some (a, after) => Some (p2 ++ a, after)
  | None => None
  end.

(** The chunking loop for a [stuff] containing [-]: [k = pat.find('-', k, j)]
    closes the chunk [pat[i:k]], the next chunk starts after the hyphen and
    the search resumes two characters into it ([i = k+1; k = k+3]).  [skip]
    counts the characters still passed over before searching, [cur] is the
    current chunk reversed; the final [pat[i:j]] is the last element. *)
Fixpoint split_chunks (skip : nat) (cur : str) (s : str) : list str :=
  match s with
  | [] => [rev cur]
  | c :: s' =>
      match skip with
      | S k => split_chunks k (c :: cur) s'
      | O => if Ascii.eqb c "-"%char then rev cur :: split_chunks 2 [] s'
             else split_chunks 0 (c :: cur) s'
      end
  end.

(** [if chunk: chunks.append(chunk) else: chunks[-1] += '-'] *)
Fixpoint fix_last (chunks : list str) : list str :=
  match chunks with
  | [c; []] => [c ++ lit "-"]
  | c :: cs => c :: fix_last cs
  | [] => []
  end.

Definition chunk_first (d : str) : nat :=
  match d with c :: _ => nat_of_ascii c | [] => 0 end.

Definition chunk_last (c : str) : nat := chunk_first (rev c).

(** [for k in range(len(chunks)-1, 0, -1): if chunks[k-1][-1] > chunks[k][0]:
    chunks[k-1] = chunks[k-1][:-1] + chunks[k][1:]; del chunks[k]].  The
    loop runs from the right and [chunks[k-1]] is still untouched when it is
    compared, so it is a right fold.  (The chunks compared are never empty,
    see [chunks_shape]; [chunk_first] of an empty chunk is never used.) *)
Fixpoint remove_empty_ranges (chunks : list str) : list str :=
  match chunks with
  | [] => []
  | c :: cs =>
      match remove_empty_ranges cs with
      | d :: ds => if chunk_first d <? chunk_last c then (removelast c ++ tl d) :: ds
                   else c :: d :: ds
      | [] => [c]
      end
  end.

(** [s.replace('\\', r'\\').replace('-', r'\-')] followed by
    [re.sub(r'([&~|])', r'\\\1', stuff)]. *)
Definition esc_atom (c : ascii) : set_atom :=
  if existsb (Ascii.eqb c) (lit "\-&~|") then Esc c else Raw c.

(** ['-'.join(...)] over the chunks. *)
Fixpoint join_chunks (chunks : list str) : list set_atom :=
  match chunks with
  | [] => []
  | [c] => map esc_atom c
  | c :: cs => map esc_atom c ++ Raw "-"%char :: join_chunks cs
  end.

Definition set_chunks (s : str) : list str :=
  if existsb (Ascii.eqb "-"%char) s
  then remove_empty_ranges (fix_last (split_chunks (if startswith (lit "!") s then 2 else 1) [] s))
  else [s].

(** [elif stuff[0] in ('^', '['): stuff = '\\' + stuff] *)
Definition head_escape (a : set_atom) : set_atom :=
  match a with
  | Raw c => if Ascii.eqb c "^"%char || Ascii.eqb c "["%char then Esc c else a
  | Esc _ => a
  end.

(** [re]'s parse of a set (re/_parser.py), on the atoms after [[] or [[^],
    the closing []] that [translate] appends being the end of [body]; the
    flag is [set] (an item was already added).  A raw [-] between two atoms
    makes a range, and "bad character range" is raised when [hi < lo]; a
    [-] just before the closing []] is a literal; the closing []] of an
    empty set is a literal and the set is then unterminated (an error).  A
    raw []] inside [body] would close the set early ([this == "]" and set],
    or [that == "]"]); the result is then also [None]: this does not happen
    for translated patterns ([translate_total]). *)
Fixpoint sre_set (body : list set_atom) (nonempty : bool) : option (list set_item) :=
  match body with
  | [] => if nonempty then Some [] else None
  | a :: rest =>
      if nonempty && is_raw "]"%char a then None
      else match rest with
           | b :: rest' =>
               if is_raw "-"%char b then
                 match rest' with
                 | [] => Some [SLit (atom_char a); SLit "-"%char]
                 | c :: rest'' =>
                     if is_raw "]"%char c then None
                     else if nat_of_ascii (atom_char c) <? nat_of_ascii (atom_char a) then None
                     else option_map (cons (SRange (atom_char a) (atom_char c)))
                                     (sre_set rest'' true)
                 end
               else option_map (cons (SLit (atom_char a))) (sre_set rest true)
           | [] => Some [SLit (atom_char a)]
           end
  end.

(** The piece for a set text [stuff]: [(?!)] when empty, [.] for [!],
    [[^...]] for a leading [!], otherwise [[...]]. *)
Definition set_token (s : str) : option ftok :=
  match join_chunks (set_chunks s) with
  | [] => Some FNever
  | a :: body =>
      if is_raw "!"%char a then
        if is_nil body then Some FAny else option_map (FSet true) (sre_set body false)
      else option_map (FSet false) (sre_set (head_escape a :: body) false)
  end.

(** The main loop of [translate]; consecutive [*] are compressed into one
    [STAR] ([after_star]: the last piece added is [STAR]).  [None]: compiling
    the regex raises [re.error].  Every step consumes a character, so
    [length pat] steps suffice. *)
Fixpoint translate_aux (fuel : nat) (pat : str) (after_star : bool) : option (list ftok) :=
  match fuel with
  | O => Some []
  | S fuel' =>
      match pat with
      | [] => Some []
      | c :: rest =>
          if Ascii.eqb c "*"%char then
            option_map (fun ts => if after_star then ts else FStar :: ts)
                       (translate_aux fuel' rest true)
          else if Ascii.eqb c "?"%char then
            option_map (cons FAny) (translate_aux fuel' rest false)
          else if Ascii.eqb c "["%char then
            match class_content rest with
            | None => option_map (cons (FLit c)) (translate_aux fuel' rest false)
            | Some (s, after) =>
                match set_token s, translate_aux fuel' after false with
                | Some t, Some ts => Some (t :: ts)
                | _, _ => None
                end
            end
          else option_map (cons (FLit c)) (translate_aux fuel' rest false)
      end
  end.

Definition translate (pat : str) : option (list ftok) :=
  translate_aux (List.length pat) pat false.

Definition item_matches (c : ascii) (it : set_item) : bool :=
  match it with
  | SLit d => Ascii.eqb d c
  | SRange lo hi => (nat_of_ascii lo <=? nat_of_ascii c) && (nat_of_ascii c <=? nat_of_ascii hi)
  end.

(** One character against a piece other than [STAR]; [(?!)] matches
    nothing, [.] anything ([re.DOTALL]). *)
Definition ftok_char (t : ftok) (c : ascii) : bool :=
  match t with
  | FStar => false
  | FAny => true
  | FNever => false
  | FLit d => Ascii.eqb d c
  | FSet negate items => xorb negate (existsb (item_matches c) items)
  end.

(** [re.compile(translate(pat)).match(name)] with the regex
    [(?s:...)\Z]: an interior [STAR fixed] becomes [(?>.*?fixed)] and a
    final one [.*fixed] or [.*].  [fixed] is a run of one-character pieces,
    so taking its leftmost occurrence without backtracking accepts exactly
    when some occurrence does (the next [.*?] absorbs the difference): the
    regex accepts the names of the backtracking matcher below. *)
Fixpoint fn_match (toks : list ftok) (name : str) {struct toks} : bool :=
  match toks with
  | [] => is_nil name
  | FStar :: toks' =>
      (fix star (n : str) : bool :=
         fn_match toks' n || match n with [] => false | _ :: n' => star n' end) name
  | t :: toks' =>
      match name with
      | [] => false
      | c :: name' => ftok_char t c && fn_match toks' name'
      end
  end.

Inductive resolver_error := AssertionError | ReError.

(** [fnmatch.filter(names, pat)] on POSIX: the pattern is compiled first. *)
Definition fnmatch_filter (names : list str) (pat : str) : result (list str) resolver_error :=
  match translate pat with
  | Some toks => Ok (filter (fn_match toks) names)
  | None => Exc ReError
  end.

Section Resolver.

(** The filesystem snapshot: directory listing, [os.path.isdir] (also
    [DirEntry.is_dir]), [os.path.lexists] and [os.path.exists]. *)
Variable listdir : str -> list str.
Variable os_path_isdir : str -> bool.
Variable os_path_lexists : str -> bool.
Variable os_path_exists : str -> bool.

(** [glob.has_magic]: [re.compile('([*?[])').search(s)] *)
Definition has_magic (s : str) : bool :=
  existsb (fun c => Ascii.eqb c "*"%char || Ascii.eqb c "?"%char || Ascii.eqb c "["%char) s.

(** [glob._listdir(dirname, None, dironly)]: [os.scandir] of the directory
    ([os.curdir] for an empty one), keeping directories only when
    [dironly]. *)
Definition _listdir (dirname : str) (dironly : bool) : list str :=
  let names := listdir (if is_nil dirname then lit "." else dirname) in
  if dironly then filter (fun n => os_path_isdir (os_path_join dirname n)) names
  else names.

(** [glob._glob1]: hidden names are dropped unless the pattern is hidden. *)
Definition _glob1 (dirname pattern : str) (dironly : bool) : result (list str) resolver_error :=
  let names := _listdir dirname dironly in
  let names := if is_hidden pattern then names
               else filter (fun x => negb (is_hidden x)) names in
  fnmatch_filter names pattern.

(** [glob._glob0] *)
Definition _glob0 (dirname basename : str) : list str :=
  if negb (is_nil basename) then
    if os_path_lexists (os_path_join dirname basename) then [basename] else []
  else if os_path_isdir dirname then [basename] else [].

Fixpoint concat_results (rs : list (result (list str) resolver_error))
  : result (list str) resolver_error :=
  match rs with
  | [] => Ok []
  | Ok l :: rs' => match concat_results rs' with Ok l' => Ok (l ++ l') | Exc e => Exc e end
  | Exc e :: _ => Exc e
  end.

(** [glob._iglob(pathname, '', None, False, dironly)] (no [root_dir], not
    recursive).  The directory part is globbed recursively when it has
    wildcards; it is a strict prefix of [pathname] then, so [length
    pathname] levels suffice. *)
Fixpoint _iglob (fuel : nat) (pathname : str) (dironly : bool)
  : result (list str) resolver_error :=
  match fuel with
  | O => Ok []
  | S fuel' =>
      let (dirname, basename) := os_path_split pathname in
      if negb (has_magic pathname) then
        Ok (if negb (is_nil basename)
            then (if os_path_lexists pathname then [pathname] else [])
            else (if os_path_isdir dirname then [pathname] else []))
      else if is_nil dirname then _glob1 [] basename dironly
      else
        let dirs := if negb (str_eqb dirname pathname) && has_magic dirname
                    then _iglob fuel' dirname true else Ok [dirname] in
        match dirs with
        | Exc e => Exc e
        | Ok dirs =>
            concat_results
              (map (fun d =>
                      match (if has_magic basename then _glob1 d basename dironly
                             else Ok (_glob0 d basename)) with
                      | Ok names => Ok (map (os_path_join d) names)
                      | Exc e => Exc e
                      end) dirs)
        end
  end.

(** [glob.glob(pathname)]: [list(iglob(pathname))]; for an empty pattern
    the one possible result [''] is skipped. *)
Definition glob (pathname : str) : result (list str) resolver_error :=
  if is_nil pathname then Ok [] else _iglob (S (List.length pathname)) pathname false.

Definition find_versioned_step (current_version : Z) (best_match : Z * option str)
  (path : str) : Z * option str :=
  match _parse_file_version path with
  | Some int_version =>
      if (fst best_match <? int_version)%Z && (int_version <=? current_version)%Z
      then (int_version, Some path) else best_match
  | None => best_match
  end.

(** [find_versioned_file(directory, filename, suffix, _current_version)];
    the [@cached_function] wrapper returns the same values on a fixed
    filesystem. *)
Definition find_versioned_file (directory filename suffix : str)
  (_current_version : Z) : result (option str) resolver_error :=
  if negb (is_nil suffix) && negb (startswith ["."%char] suffix)
  then Exc AssertionError
  else
    let path_prefix := os_path_join directory filename in
    match glob (path_prefix ++ lit ".cython-*" ++ suffix) with
    | Exc e => Exc e
    | Ok matching_files =>
        let path := path_prefix ++ suffix in
        let path := if os_path_exists path then Some path else None in
        let best_match := fold_left (find_versioned_step _current_version)
                                    matching_files ((-1)%Z, path) in
        Ok (snd best_match)
    end.

End Resolver.

(** Invariants of the set texts of [translate], used in the proofs. *)
Definition bracket_free (s : str) : bool :=
  forallb (fun c => negb (Ascii.eqb c "]"%char)) s.


(** The chunks after the first, as [translate] leaves them: non-empty,
    without []], all but the last of length 2 at least, each starting at or
    above the last character of the one before ([lo]). *)
Fixpoint chunks_ok (lo : nat) (ds : list str) : Prop :=
  match ds with
  | [] => True
  | d :: ds' => lo <= chunk_first d /\ d <> [] /\ bracket_free d = true /\
                (ds' <> [] -> 2 <= List.length d) /\ chunks_ok (chunk_last d) ds'
  end.







(** ** Package directories *)

Definition PACKAGE_FILES : list str :=
  [lit "__init__.py"; lit "__init__.pyc"; lit "__init__.pyx"; lit "__init__.pxd"].

Section Packages.

(** [path_exists]: the filesystem (or zip archive) lookup, a snapshot. *)
Variable path_exists : str -> bool.

(** [contains_init(dir_path)], returning also the paths it looked up: the
    loop stops at the first marker file found. *)
Fixpoint probe_package_files (dir_path : str) (files : list str) : bool * list str :=
  match files with
  | [] => (false, [])
  | filename :: rest =>
      let path := os_path_join dir_path filename in
      if path_exists path then (true, [path])
      else let (found, probed) := probe_package_files dir_path rest in
           (found, path :: probed)
  end.

Definition contains_init_probed (dir_path : str) : bool * list str :=
  probe_package_files dir_path PACKAGE_FILES.

Definition contains_init (dir_path : str) : bool := fst (contains_init_probed dir_path).

Definition is_package_dir (dir_path : str) : bool := contains_init dir_path.

(** The loop of [check_package_dir], with the paths looked up. *)
Fixpoint check_package_dir_loop (dir_path : str) (namespace : bool)
  (package_names : list str) : (str * bool) * list str :=
  match package_names with
  | [] => ((dir_path, namespace), [])
  | dirname :: rest =>
      let dir_path := os_path_join dir_path dirname in
      let (has_init, probed) := contains_init_probed dir_path in
      let namespace := if has_init then false else namespace in
      let (res, probed') := check_package_dir_loop dir_path namespace rest in
      (res, probed ++ probed')
  end.

Definition check_package_dir_probed (dir_path : str) (package_names : list str)
  : (str * bool) * list str :=
  check_package_dir_loop dir_path true package_names.

(** [check_package_dir(dir_path, package_names)] *)
Definition check_package_dir (dir_path : str) (package_names : list str) : str * bool :=
  fst (check_package_dir_probed dir_path package_names).

(** [find_root_package_dir(file_path)]; the recursion is on a path that
    gets strictly shorter, so [length file_path + 1] calls suffice. *)
Fixpoint find_root_package_dir_fuel (fuel : nat) (file_path : str) : str :=
  let dir := os_path_dirname file_path in
  match fuel with
  | O => dir
  | S fuel' =>
      if str_eqb file_path dir then dir
      else if is_package_dir dir then find_root_package_dir_fuel fuel' dir
      else dir
  end.

Definition find_root_package_dir (file_path : str) : str :=
  find_root_package_dir_fuel (S (List.length file_path)) file_path.

End Packages.

(** The directories [check_package_dir] visits: each package name joined
    to the previous one. *)
Fixpoint joined_dirs (dir_path : str) (package_names : list str) : list str :=
  match package_names with
  | [] => []
  | dirname :: rest =>
      let d := os_path_join dir_path dirname in d :: joined_dirs d rest
  end.

(** ** cached_function *)

Section FunctionCache.

Variables (K V E : Type).
Variable K_eq_dec : forall x y : K, {x = y} + {x <> y}.

(** The decorated function: it returns a value or raises. *)
Variable f : K -> result V E.

(** The wrapper's dictionary, and a log of the calls made to [f]. *)
Record fc_state := {
  fc_cache : list (K * V);
  fc_calls : list K
}.

Fixpoint cache_get (cache : list (K * V)) (args : K) : option V :=
  match cache with
  | [] => None
  | (k, v) :: rest => if K_eq_dec k args then Some v else cache_get rest args
  end.

(** [wrapper( *args)]: [res = cache.get(args, uncomputed)]; on a miss
    [res = cache[args] = f( *args)]; an exception of [f] propagates and
    nothing is stored. *)
Definition cached_call (s : fc_state) (args : K) : fc_state * result V E :=
  match cache_get (fc_cache s) args with
  | Some res => (s, Ok res)
  | None =>
      let calls := fc_calls s ++ [args] in
      match f args with
      | Ok res => ({| fc_cache := (args, res) :: fc_cache s; fc_calls := calls |}, Ok res)
      | Exc e => ({| fc_cache := fc_cache s; fc_calls := calls |}, Exc e)
      end
  end.

(** [clear_function_caches()] empties the dictionary. *)
Definition clear_cache (s : fc_state) : fc_state :=
  {| fc_cache := []; fc_calls := fc_calls s |}.

(** A sequence of calls of the wrapper. *)
Fixpoint cached_calls (s : fc_state) (xs : list K) : fc_state * list (result V E) :=
  match xs with
  | [] => (s, [])
  | x :: xs' =>
      let (s1, r) := cached_call s x in
      let (s2, rs) := cached_calls s1 xs' in
      (s2, r :: rs)
  end.

End FunctionCache.

Arguments cached_call {K V E} K_eq_dec f s args.
Arguments cached_calls {K V E} K_eq_dec f s xs.
Arguments cache_get {K V} K_eq_dec cache args.
Arguments clear_cache {K V} s.
Arguments fc_cache {K V} f.
Arguments fc_calls {K V} f.

(** ** clear_method_caches *)










Definition newline : ascii := Ascii.ascii_of_nat 10.

(** [_CACHE_NAME_PATTERN.match(attr_name)] with [group(1)], for the pattern
    [^__(.+)_cache$]: [.] does not match a newline, and [$] also matches
    before a final newline. *)
Definition cache_method_name (attr_name : str) : option str :=
  let s := if endswith [newline] attr_name then removelast attr_name else attr_name in
  if startswith (lit "__") s && endswith (lit "_cache") s then
    let m := firstn (List.length s - 8) (skipn 2 s) in
    if negb (is_nil m) && forallb (fun c => negb (Ascii.eqb c newline)) m
    then Some m else None
  else None.




(** ** Best-effort decoding of captured output
    ([get_encoding_candidates], [prepare_captured]). *)

(** The codec errors [bytes.decode] can raise: a byte sequence the codec
    rejects, or an unknown codec name. *)
Inductive codec_error : Type := UnicodeDecodeError | LookupError.

(** Text as a list of code points. *)
Abbreviation text := (list N) (only parsing).

(** ASCII whitespace as [bytes.strip()] sees it: space, tab, newline,
    carriage return, vertical tab, form feed. *)
Definition is_ascii_space (b : Byte.byte) : bool :=
  match b with
  | Byte.x09 | Byte.x0a | Byte.x0b | Byte.x0c | Byte.x0d | Byte.x20 => true
  | _ => false
  end.

Fixpoint lstrip_bytes (l : list Byte.byte) : list Byte.byte :=
  match l with
  | [] => []
  | b :: l' => if is_ascii_space b then lstrip_bytes l' else l
  end.

(** [bytes.strip()] *)
Definition bytes_strip (l : list Byte.byte) : list Byte.byte :=
  rev (lstrip_bytes (rev (lstrip_bytes l))).

(** [bytes.decode('latin-1')]: every byte is the code point of the same value. *)
Definition latin1_decode (l : list Byte.byte) : text := map Byte.to_N l.

Section Decoding.
(** [sys.getdefaultencoding()] *)
Variable getdefaultencoding : str.
(** [getattr(stream, 'encoding', None)] for [sys.stdout], [sys.stdin],
    [sys.__stdout__] and [sys.__stdin__], in this order. *)
Variable stream_encodings : list (option str).
(** [captured_bytes.decode(encoding)] *)
Variable decode : str -> list Byte.byte -> result text codec_error.

(** One iteration of the loop of [get_encoding_candidates]. *)
Definition add_candidate (candidates : list str) (encoding : option str) : list str :=
  match encoding with
  | Some e => if existsb (str_eqb e) candidates then candidates else candidates ++ [e]
  | None => candidates
  end.

Definition get_encoding_candidates : list str :=
  fold_left add_candidate stream_encodings [getdefaultencoding].

(** The [for encoding in ...: try: return ... except UnicodeDecodeError: pass]
    loop, followed by the latin-1 fallback. *)
Fixpoint decode_candidates (encodings : list str) (captured_bytes : list Byte.byte)
  : result text codec_error :=
  match encodings with
  | [] => Ok (latin1_decode captured_bytes)
  | e :: encodings' =>
      match decode e captured_bytes with
      | Ok t => Ok t
      | Exc UnicodeDecodeError => decode_candidates encodings' captured_bytes
      | Exc LookupError => Exc LookupError
      end
  end.

Definition prepare_captured (captured : list Byte.byte) : result (option text) codec_error :=
  let captured_bytes := bytes_strip captured in
  match captured_bytes with
  | [] => Ok None
  | _ :: _ =>
      match decode_candidates get_encoding_candidates captured_bytes with
      | Ok t => Ok (Some t)
      | Exc e => Exc e
      end
  end.
End Decoding.

(** [print_captured(captured, output, header_line)]: [output] is the list
    of the strings written to it so far. *)
Definition print_captured (getdefaultencoding : str) (stream_encodings : list (option str))
  (decode : str -> list Byte.byte -> result text codec_error)
  (captured : list Byte.byte) (output : list text) (header_line : option text)
  : result (list text) codec_error :=
  match prepare_captured getdefaultencoding stream_encodings decode captured with
  | Exc e => Exc e
  | Ok None => Ok output
  | Ok (Some captured) =>
      if is_nil captured then Ok output
      else Ok (output ++ match header_line with
                         | Some h => if is_nil h then [] else [h]
                         | None => []
                         end ++ [captured])
  end.

(** ** [captured_fd] driven by [_TryFinallyGeneratorContextManager]

    The process state: a descriptor table mapping descriptor numbers to
    open files, file contents, and the two pieces of Python state the
    generator owns: [temp_file.closed] and the [_output] cell of
    [read_output].  [retrieved] records what the protected region obtained
    from [get_output] (it is read by the statements, never by the code). *)

Inductive errno : Type := EBADF | EMFILE | EIO.

Inductive exn : Type :=
  | OSError (e : errno)
  | BodyError.   (** an exception raised by the protected region *)

(** System calls that may fail for reasons outside the model (I/O errors,
    interrupted calls, ...). *)
Inductive sysop : Type :=
  | SysDup (fd : Z)
  | SysOpenTemp
  | SysDup2 (src dst : Z)
  | SysRead (fd : Z).

Definition fd_lookup (tbl : list (Z * nat)) (fd : Z) : option nat :=
  match find (fun p => Z.eqb (fst p) fd) tbl with
  | Some p => Some (snd p)
  | None => None
  end.

Definition fd_remove (tbl : list (Z * nat)) (fd : Z) : list (Z * nat) :=
  filter (fun p => negb (Z.eqb (fst p) fd)) tbl.

Definition fd_set (tbl : list (Z * nat)) (fd : Z) (file : nat) : list (Z * nat) :=
  (fd, file) :: fd_remove tbl fd.

(** The lowest descriptor number from [n] on that is not in use. *)
Fixpoint lowest_free_from (tbl : list (Z * nat)) (n : Z) (fuel : nat) : option Z :=
  match fuel with
  | O => None
  | S k =>
      match fd_lookup tbl n with
      | None => Some n
      | Some _ => lowest_free_from tbl (Z.succ n) k
      end
  end.

Record st : Type := mkst {
  fd_table : list (Z * nat);
  file_data : nat -> list Byte.byte;
  next_file : nat;
  tmp_closed : bool;
  out_cache : list Byte.byte;
  retrieved : list (list Byte.byte)
}.

Definition upd (d : nat -> list Byte.byte) (f : nat) (v : list Byte.byte) : nat -> list Byte.byte :=
  fun g => if Nat.eqb g f then v else d g.

Definition set_fd_table (t : list (Z * nat)) (s : st) : st :=
  mkst t (file_data s) (next_file s) (tmp_closed s) (out_cache s) (retrieved s).
Definition set_file_data (d : nat -> list Byte.byte) (s : st) : st :=
  mkst (fd_table s) d (next_file s) (tmp_closed s) (out_cache s) (retrieved s).
Definition set_tmp_closed (b : bool) (s : st) : st :=
  mkst (fd_table s) (file_data s) (next_file s) b (out_cache s) (retrieved s).
Definition set_out_cache (o : list Byte.byte) (s : st) : st :=
  mkst (fd_table s) (file_data s) (next_file s) (tmp_closed s) o (retrieved s).
Definition log_retrieved (r : list Byte.byte) (s : st) : st :=
  mkst (fd_table s) (file_data s) (next_file s) (tmp_closed s) (out_cache s) (retrieved s ++ [r]).

(** State and exception monad. *)
Definition M (A : Type) : Type := st -> st * result A exn.

Definition ret {A : Type} (a : A) : M A := fun s => (s, Ok a).

Definition raise {A : Type} (e : exn) : M A := fun s => (s, Exc e).

Definition bind {A B : Type} (m : M A) (k : A -> M B) : M B :=
  fun s => match m s with
           | (s', Ok a) => k a s'
           | (s', Exc e) => (s', Exc e)
           end.

Notation "'let*' x ':=' m 'in' k" := (bind m (fun x => k))
  (at level 200, x name, m at level 100, k at level 200).

Definition modify (f : st -> st) : M unit := fun s => (f s, Ok tt).

(** [try: m finally: fin]: an exception of [fin] replaces the outcome of [m]. *)
Definition try_finally {A : Type} (m : M A) (fin : M unit) : M A :=
  fun s => let (s1, r) := m s in
           let (s2, r2) := fin s1 in
           match r2 with
           | Ok _ => (s2, r)
           | Exc e => (s2, Exc e)
           end.

(** The pending [finally] and [with] exits of a generator that raises
    before reaching its [yield]: they run only on that exceptional path
    (on the normal path the generator suspends with them still pending). *)
Definition on_exception {A : Type} (m : M A) (cleanup : M unit) : M A :=
  fun s => match m s with
           | (s1, Ok a) => (s1, Ok a)
           | (s1, Exc e) =>
               let (s2, r2) := cleanup s1 in
               match r2 with
               | Ok _ => (s2, Exc e)
               | Exc e2 => (s2, Exc e2)
               end
           end.

Record tempfile : Type := { tf_fd : Z; tf_file : nat }.

Section CapturedFd.
Variable fault : sysop -> bool.
(** [RLIMIT_NOFILE] *)
Variable fd_limit : nat.

Definition lowest_free (tbl : list (Z * nat)) : option Z :=
  lowest_free_from tbl 0 fd_limit.

Definition os_dup (fd : Z) : M Z := fun s =>
  if fault (SysDup fd) then (s, Exc (OSError EIO)) else
  match fd_lookup (fd_table s) fd with
  | None => (s, Exc (OSError EBADF))
  | Some f =>
      match lowest_free (fd_table s) with
      | None => (s, Exc (OSError EMFILE))
      | Some n => (set_fd_table (fd_set (fd_table s) n f) s, Ok n)
      end
  end.

Definition os_dup2 (src dst : Z) : M unit := fun s =>
  if fault (SysDup2 src dst) then (s, Exc (OSError EIO)) else
  match fd_lookup (fd_table s) src with
  | None => (s, Exc (OSError EBADF))
  | Some f => (set_fd_table (fd_set (fd_table s) dst f) s, Ok tt)
  end.

Definition os_close (fd : Z) : M unit := fun s =>
  match fd_lookup (fd_table s) fd with
  | None => (s, Exc (OSError EBADF))
  | Some _ => (set_fd_table (fd_remove (fd_table s) fd) s, Ok tt)
  end.

(** A write on a descriptor opened in append mode. *)
Definition os_write (fd : Z) (b : list Byte.byte) : M unit := fun s =>
  match fd_lookup (fd_table s) fd with
  | None => (s, Exc (OSError EBADF))
  | Some f => (set_file_data (upd (file_data s) f (file_data s f ++ b)) s, Ok tt)
  end.

(** [tempfile.TemporaryFile(mode="a+b")]: a fresh empty file. *)
Definition open_temp : M tempfile := fun s =>
  if fault SysOpenTemp then (s, Exc (OSError EIO)) else
  match lowest_free (fd_table s) with
  | None => (s, Exc (OSError EMFILE))
  | Some n =>
      let f := next_file s in
      (mkst (fd_set (fd_table s) n f) (upd (file_data s) f []) (S f) false
            (out_cache s) (retrieved s),
       Ok {| tf_fd := n; tf_file := f |})
  end.

(** [temp_file.close()], as done by the exit of [with TemporaryFile()]. *)
Definition temp_close (temp_file : tempfile) : M unit := fun s =>
  if tmp_closed s then (s, Ok tt) else
  let (s1, r) := os_close (tf_fd temp_file) s in
  (set_tmp_closed true s1, r).

(** [read_output]: [seek(0)] and [read()] while the file is open, storing
    the result in [_output[0]]; the stored value once it is closed. *)
Definition read_output (temp_file : tempfile) : M (list Byte.byte) := fun s =>
  if tmp_closed s then (s, Ok (out_cache s)) else
  if fault (SysRead (tf_fd temp_file)) then (s, Exc (OSError EIO)) else
  match fd_lookup (fd_table s) (tf_fd temp_file) with
  | None => (s, Exc (OSError EBADF))
  | Some f => (set_out_cache (file_data s f) s, Ok (file_data s f))
  end.

(** [get_output] with [encoding=None]. *)
Definition get_output (temp_file : tempfile) : M (list Byte.byte) :=
  read_output temp_file.

(** The generator up to its [yield]: [next(self._gen)] in [__enter__]. *)
Definition captured_fd_enter (stream : Z) : M (Z * tempfile) :=
  let* orig_stream := os_dup stream in
  on_exception
    (let* temp_file := open_temp in
     on_exception
       (let* _ := modify (set_out_cache []) in
        let* _ := os_dup2 (tf_fd temp_file) stream in
        ret (orig_stream, temp_file))
       (temp_close temp_file))
    (os_close orig_stream).

(** The generator after its [yield]: [next(self._gen)] in [__exit__],
    with the pending [with] exit and [finally]. *)
Definition captured_fd_resume (stream orig_stream : Z) (temp_file : tempfile) : M unit :=
  try_finally
    (try_finally
       (let* _ := os_dup2 orig_stream stream in
        let* _ := read_output temp_file in
        ret tt)
       (temp_close temp_file))
    (os_close orig_stream).
End CapturedFd.

(** The protected region: a sequence of writes to the captured descriptor,
    calls of [get_output], and an exception. *)
Inductive action : Type :=
  | Write (b : list Byte.byte)
  | Retrieve
  | Raise.

Definition run_action (fault : sysop -> bool) (stream : Z) (temp_file : tempfile)
  (a : action) : M unit :=
  match a with
  | Write b => os_write stream b
  | Retrieve => let* r := get_output fault temp_file in modify (log_retrieved r)
  | Raise => raise BodyError
  end.

Fixpoint run_body (fault : sysop -> bool) (stream : Z) (temp_file : tempfile)
  (body : list action) : M unit :=
  match body with
  | [] => ret tt
  | a :: body' => let* _ := run_action fault stream temp_file a in
                  run_body fault stream temp_file body'
  end.

(** [with captured_fd(stream) as get_output: body]: [__exit__] resumes the
    generator whether the body completed or raised, and lets the body's
    exception through unless the resumption raises. *)
Definition with_captured_fd (fault : sysop -> bool) (fd_limit : nat) (stream : Z)
  (body : list action) : M unit :=
  bind (captured_fd_enter fault fd_limit stream)
       (fun '(orig_stream, temp_file) =>
          try_finally (run_body fault stream temp_file body)
                      (captured_fd_resume fault stream orig_stream temp_file)).

(** What the protected region writes before its first exception, and what
    each of its [get_output] calls should see (the bytes written so far). *)
Fixpoint written_before_raise (body : list action) : list Byte.byte :=
  match body with
  | [] => []
  | Write b :: body' => b ++ written_before_raise body'
  | Retrieve :: body' => written_before_raise body'
  | Raise :: _ => []
  end.

Fixpoint snapshots (acc : list Byte.byte) (body : list action) : list (list Byte.byte) :=
  match body with
  | [] => []
  | Write b :: body' => snapshots (acc ++ b) body'
  | Retrieve :: body' => acc :: snapshots acc body'
  | Raise :: _ => []
  end.

Definition is_raise (a : action) : bool :=
  match a with Raise => true | _ => false end.


(** ** OrderedSet *)

Section OrderedSetDefs.
Variable A : Type.
Variable A_eq_dec : forall x y : A, {x = y} + {x <> y}.

(** [e in s] *)
Definition py_in (e : A) (l : list A) : bool :=
  existsb (fun y => if A_eq_dec e y then true else false) l.

(** The two attributes [_list] and [_set]; the set is kept as the list of
    its members (its order plays no part). *)
Record ordered_set := { _list : list A; _set : list A }.

Definition OrderedSet_add (o : ordered_set) (e : A) : ordered_set :=
  if py_in e (_set o) then o
  else {| _list := _list o ++ [e]; _set := e :: _set o |}.

Definition OrderedSet_update (o : ordered_set) (elements : list A) : ordered_set :=
  fold_left OrderedSet_add elements o.

(** [OrderedSet(elements)] *)
Definition OrderedSet_init (elements : list A) : ordered_set :=
  OrderedSet_update {| _list := []; _set := [] |} elements.

(** [iter(s)] *)
Definition OrderedSet_iter (o : ordered_set) : list A := _list o.

(** The elements of [l] in the order of their first occurrence. *)
Fixpoint first_occurrences (l : list A) : list A :=
  match l with
  | [] => []
  | x :: l' => x :: remove A_eq_dec x (first_occurrences l')
  end.

(** The invariant of the two attributes. *)
Definition oset_inv (o : ordered_set) : Prop :=
  (forall x, In x (_set o) <-> In x (_list o)) /\ NoDup (_list o).
End OrderedSetDefs.

Arguments oset_inv {A} o.

Arguments py_in {A} A_eq_dec e l.
Arguments _list {A} o.
Arguments _set {A} o.
Arguments OrderedSet_add {A} A_eq_dec o e.
Arguments OrderedSet_update {A} A_eq_dec o elements.
Arguments OrderedSet_init {A} A_eq_dec elements.
Arguments OrderedSet_iter {A} o.
Arguments first_occurrences {A} A_eq_dec l.

(** ** Function caches and cache names *)

(** [_build_cache_name = "__{0}_cache".format] *)
Definition _build_cache_name (name : str) : str := lit "__" ++ name ++ lit "_cache".

(** A cache that only holds what [f] returns: every stored value is the
    result [f] gives for its key. *)
Definition cache_consistent {K V E} (K_eq_dec : forall x y : K, {x = y} + {x <> y})
  (f : K -> result V E) (s : fc_state K V) : Prop :=
  forall x v, cache_get K_eq_dec (fc_cache s) x = Some v -> f x = Ok v.

(** ** replace_suffix *)

(** [p.rfind(c)]: the index of the last [c] in [p], or [-1]. *)
Fixpoint rfind (c : ascii) (p : str) : Z :=
  match p with
  | [] => -1
  | x :: p' =>
      let i := rfind c p' in
      if (0 <=? i)%Z then (i + 1)%Z else if Ascii.eqb x c then 0%Z else (-1)%Z
  end.

(** [p[i:j]] for [0 <= i]. *)
Definition py_slice (p : str) (i j : Z) : str :=
  firstn (Z.to_nat j - Z.to_nat i) (skipn (Z.to_nat i) p).

(** [genericpath._splitext(p, sep, None, extsep)].  The [while] loop that
    skips the leading dots of the file name returns the split as soon as
    it meets a character other than [extsep] in [p[filenameIndex:dotIndex]]. *)
Definition _splitext (p : str) (sep extsep : ascii) : str * str :=
  let sepIndex := rfind sep p in
  let dotIndex := rfind extsep p in
  if (sepIndex <? dotIndex)%Z then
    let filenameIndex := (sepIndex + 1)%Z in
    if existsb (fun c => negb (Ascii.eqb c extsep)) (py_slice p filenameIndex dotIndex)
    then (firstn (Z.to_nat dotIndex) p, skipn (Z.to_nat dotIndex) p)
    else (p, [])
  else (p, []).

(** [posixpath.splitext] *)
Definition os_path_splitext (p : str) : str * str := _splitext p "/"%char "."%char.

(** [replace_suffix(path, newsuf)] *)
Definition replace_suffix (path newsuf : str) : str :=
  let (base, _) := os_path_splitext path in base ++ newsuf.

(** ** int(), str_to_number, build_hex_version *)

Inductive py_error : Type := ValueError | IndexError.

(** Whitespace as [int()] skips it: [Py_ISSPACE] on ASCII, and the
    non-ASCII spaces (NEL, NBSP) that [int()] first turns into a space. *)
Definition py_isspace (c : ascii) : bool :=
  match nat_of_ascii c with
  | 9 | 10 | 11 | 12 | 13 | 32 | 133 | 160 => true
  | _ => false
  end.

(** [_PyLong_DigitValue]: [0-9], then letters of either case for 10..35;
    37 for anything else. *)
Definition _PyLong_DigitValue (c : ascii) : nat :=
  let n := nat_of_ascii c in
  if (48 <=? n) && (n <=? 57) then n - 48
  else if (97 <=? n) && (n <=? 122) then n - 87
  else if (65 <=? n) && (n <=? 90) then n - 55
  else 37.

(** The digit scan of [PyLong_FromString]: digits of the base and single
    underscores between them; a double or trailing underscore is an error.
    Returns the digits and the rest of the string. *)
Fixpoint scan_digits (base : nat) (prev_underscore : bool) (l : str) : option (list nat * str) :=
  match l with
  | [] => if prev_underscore then None else Some ([], [])
  | c :: l' =>
      if _PyLong_DigitValue c <? base then
        match scan_digits base false l' with
        | Some (ds, rest) => Some (_PyLong_DigitValue c :: ds, rest)
        | None => None
        end
      else if Ascii.eqb c "_"%char then
        if prev_underscore then None else scan_digits base true l'
      else if prev_underscore then None else Some ([], l)
  end.

Definition digits_value (base : nat) (ds : list nat) : Z :=
  fold_left (fun acc d => acc * Z.of_nat base + Z.of_nat d)%Z ds 0%Z.

Definition is_x (c : ascii) : bool := Ascii.eqb c "x"%char || Ascii.eqb c "X"%char.
Definition is_o (c : ascii) : bool := Ascii.eqb c "o"%char || Ascii.eqb c "O"%char.
Definition is_b (c : ascii) : bool := Ascii.eqb c "b"%char || Ascii.eqb c "B"%char.

Section PyInt.
(** [sys.get_int_max_str_digits()] (Python 3.11 and later; 0 when the
    limit is off, and for older versions). *)
Variable max_str_digits : nat.

(** [int(s, base)] on a [str], following [PyLong_FromString]. *)
Definition py_int (s : str) (base : nat) : result Z py_error :=
  if ((negb (base =? 0)) && (base <? 2)) || (36 <? base) then Exc ValueError else
  let s := drop_while py_isspace s in
  let '(sign, s) :=
    match s with
    | c :: s' =>
        if Ascii.eqb c "+"%char then (1%Z, s')
        else if Ascii.eqb c "-"%char then ((-1)%Z, s')
        else (1%Z, s)
    | [] => (1%Z, s)
    end in
  let '(base, error_if_nonzero) :=
    if base =? 0 then
      match s with
      | c0 :: s' =>
          if negb (Ascii.eqb c0 "0"%char) then (10, false)
          else match s' with
               | c1 :: _ =>
                   if is_x c1 then (16, false) else if is_o c1 then (8, false)
                   else if is_b c1 then (2, false) else (10, true)
               | [] => (10, true)
               end
      | [] => (10, false)
      end
    else (base, false) in
  (* the prefix [0x], [0o] or [0b] of the base, and one underscore after it *)
  let s :=
    match s with
    | c0 :: c1 :: s' =>
        if Ascii.eqb c0 "0"%char &&
           (((base =? 16) && is_x c1) || ((base =? 8) && is_o c1) || ((base =? 2) && is_b c1))
        then match s' with
             | c :: s'' => if Ascii.eqb c "_"%char then s'' else s'
             | [] => s'
             end
        else s
    | _ => s
    end in
  if (match s with c :: _ => Ascii.eqb c "_"%char | [] => false end) then Exc ValueError
  else
    match scan_digits base false s with
    | None => Exc ValueError
    | Some (ds, rest) =>
        let z := digits_value base ds in
        if error_if_nonzero && negb (z =? 0)%Z then Exc ValueError
        else if is_nil ds then Exc ValueError
        else if negb (Nat.eqb (Nat.land base (base - 1)) 0) && negb (max_str_digits =? 0)
                && (max_str_digits <? List.length ds) then Exc ValueError
        else if negb (is_nil (drop_while py_isspace rest)) then Exc ValueError
        else Ok (sign * z)%Z
    end.

(** [str_to_number(value)] *)
Definition str_to_number (value : str) : result Z py_error :=
  let '(is_neg, value) :=
    match value with
    | c :: value' => if Ascii.eqb c "-"%char then (true, value') else (false, value)
    | [] => (false, value)
    end in
  let r :=
    if List.length value <? 2 then py_int value 0
    else match value with
         | c0 :: literal_type :: rest =>
             if Ascii.eqb c0 "0"%char then
               if is_x literal_type then py_int rest 16
               else if is_o literal_type then py_int rest 8
               else if is_b literal_type then py_int rest 2
               else py_int value 8
             else py_int value 0
         | _ => py_int value 0
         end in
  match r with
  | Ok v => Ok (if is_neg then (- v)%Z else v)
  | Exc e => Exc e
  end.


(** [re.split('([.abrc]+)', s)]: the pieces between maximal runs of
    [.abrc], with the runs themselves in between. *)
Definition is_version_sep (c : ascii) : bool :=
  existsb (Ascii.eqb c) (lit ".abrc").

Fixpoint split_version_aux (l : str) (cur : str) (in_run : bool) : list str :=
  match l with
  | [] => if in_run then [rev cur; []] else [rev cur]
  | c :: l' =>
      if in_run then
        if is_version_sep c then split_version_aux l' (c :: cur) true
        else rev cur :: split_version_aux l' [c] false
      else
        if is_version_sep c then rev cur :: split_version_aux l' [c] true
        else split_version_aux l' (c :: cur) false
  end.

Definition split_version (s : str) : list str := split_version_aux s [] false.

(** One iteration of the parsing loop of [build_hex_version]. *)
Definition hex_version_step (acc : result (list Z * Z) py_error) (digit : str)
  : result (list Z * Z) py_error :=
  match acc with
  | Exc e => Exc e
  | Ok (digits, release_status) =>
      if str_eqb digit (lit "a") then Ok (firstn 3 (digits ++ [0; 0]), 160)%Z
      else if str_eqb digit (lit "b") then Ok (firstn 3 (digits ++ [0; 0]), 176)%Z
      else if str_eqb digit (lit "rc") then Ok (firstn 3 (digits ++ [0; 0]), 192)%Z
      else if negb (str_eqb digit (lit ".")) then
        match py_int digit 10 with
        | Ok d => Ok (digits ++ [d], release_status)
        | Exc e => Exc e
        end
      else Ok (digits, release_status)
  end.

(** The hexadecimal digits of a non-negative number, as [%X] prints them. *)
Definition hex_char (d : Z) : ascii :=
  ascii_of_nat (if (d <? 10)%Z then 48 + Z.to_nat d else 55 + Z.to_nat d).

Fixpoint hex_digits_aux (fuel : nat) (n : Z) (acc : str) : str :=
  match fuel with
  | O => acc
  | S fuel' =>
      if (n =? 0)%Z then acc else hex_digits_aux fuel' (n / 16) (hex_char (n mod 16) :: acc)
  end.

Definition hex_digits (n : Z) : str :=
  if (n =? 0)%Z then lit "0" else hex_digits_aux (S (Z.to_nat (Z.log2 n))) n [].

(** ['%08X' % n]: zero padding after the sign to a width of 8. *)
Definition format_08X (n : Z) : str :=
  let sign := if (n <? 0)%Z then lit "-" else [] in
  let ds := hex_digits (Z.abs n) in
  sign ++ repeat "0"%char (8 - List.length sign - List.length ds) ++ ds.

(** [digits[3] += release_status] on a Python list. *)
Definition add_at_3 (digits : list Z) (d : Z) : result (list Z) py_error :=
  match nth_error digits 3 with
  | Some x => Ok (firstn 3 digits ++ [x + d] ++ skipn 4 digits)%Z
  | None => Exc IndexError
  end.

(** [build_hex_version(version_string)] *)
Definition build_hex_version (version_string : str) : result str py_error :=
  match fold_left hex_version_step (split_version version_string) (Ok ([], 240%Z)) with
  | Exc e => Exc e
  | Ok (digits, release_status) =>
      let digits := firstn 4 (digits ++ [0; 0; 0])%Z in
      match add_at_3 digits release_status with
      | Exc e => Exc e
      | Ok digits =>
          let hexversion := fold_left (fun h digit => Z.shiftl h 8 + digit)%Z digits 0%Z in
          Ok (lit "0x" ++ format_08X hexversion)
      end
  end.
End PyInt.

(** The digit [d] written as [%X] writes it ([0-9], then [A-Z]). *)
Definition digit_char (d : nat) : ascii := hex_char (Z.of_nat d).

(** A release tag of a version string, and the status byte
    [build_hex_version] gives it. *)
Inductive release_tag : Type := Alpha | Beta | ReleaseCandidate.

Definition tag_str (t : release_tag) : str :=
  match t with Alpha => lit "a" | Beta => lit "b" | ReleaseCandidate => lit "rc" end.

Definition tag_status (t : release_tag) : Z :=
  match t with Alpha => 160 | Beta => 176 | ReleaseCandidate => 192 end.

(** ["X.Y"], ["X.Y.Z"], optionally followed by a tag and its number. *)
Definition version_str (dx dy : list nat) (dz : option (list nat))
  (pre : option (release_tag * list nat)) : str :=
  map digit_char dx ++ "."%char :: map digit_char dy ++
  match dz with Some d => "."%char :: map digit_char d | None => [] end ++
  match pre with Some (t, dn) => tag_str t ++ map digit_char dn | None => [] end.

(** A piece of [re.split] and the digits that follow it, written out. *)
Definition version_piece (p : str * list nat) : str := fst p ++ map digit_char (snd p).

Definition version_pieces (p : str * list nat) : list str := [fst p; map digit_char (snd p)].

(** The last [k] hexadecimal digits of [n], zeros included. *)
Fixpoint hex_digits_fixed (k : nat) (n : Z) : str :=
  match k with
  | O => []
  | S k' => hex_digits_fixed k' (n / 16) ++ [hex_char (n mod 16)]
  end.

(** ** Output files: [is_cython_generated_file], [open_new_file],
    [castrate_file] *)

(** A file system with one node per path: a file with its bytes and its
    (access, modification) times, or a directory with its modification
    time.  The flags say which calls fail with [OSError] on a path (no
    read permission, an [unlink] refused, a file that cannot be created or
    opened for writing); [fs_now] is the time given to files written
    now. *)
Inductive node : Type :=
| NFile (content : str) (times : Z * Z)
| NDir (mtime : Z).

Record fsys : Type := mk_fsys {
  fs_nodes : str -> option node;
  read_denied : str -> bool;
  unlink_denied : str -> bool;
  create_denied : str -> bool;
  fs_now : Z
}.

Definition fs_set (fs : fsys) (path : str) (v : option node) : fsys :=
  {| fs_nodes := fun q => if str_eqb q path then v else fs_nodes fs q;
     read_denied := read_denied fs; unlink_denied := unlink_denied fs;
     create_denied := create_denied fs; fs_now := fs_now fs |}.

Definition os_path_exists (fs : fsys) (path : str) : bool :=
  match fs_nodes fs path with Some _ => true | None => false end.

(** [open(path, "rb").read(n)]; [None] when [open] raises [OSError]
    (no such file, a directory, no permission). *)
Definition read_prefix (fs : fsys) (path : str) (n : nat) : option str :=
  match fs_nodes fs path with
  | Some (NFile c _) => if read_denied fs path then None else Some (firstn n c)
  | _ => None
  end.

Definition failure_marker : str :=
  lit "#error Do not use this file, it is the result of a failed Cython compilation.".

Definition generated_header : str := lit "/* Generated by Cython ".

Definition is_cython_generated_file (fs : fsys) (path : str)
  (allow_failed if_not_found : bool) : bool :=
  let file_content :=
    if os_path_exists fs path then read_prefix fs path (List.length failure_marker) else None in
  match file_content with
  | None => if_not_found
  | Some fc =>
      startswith generated_header fc
      || (allow_failed && str_eqb fc failure_marker)
      || is_nil fc
  end.

(** [os.unlink(path)]; [None] when it raises. *)
Definition os_unlink (fs : fsys) (path : str) : option fsys :=
  match fs_nodes fs path with
  | Some (NFile _ _) => if unlink_denied fs path then None else Some (fs_set fs path None)
  | _ => None
  end.

(** [codecs.open(path, "w", ...)]: creates the file, or truncates an
    existing one; [None] when it raises. *)
Definition open_for_write (fs : fsys) (path : str) : option fsys :=
  if create_denied fs path then None else
  match fs_nodes fs path with
  | Some (NDir _) => None
  | Some (NFile _ (a, _)) => Some (fs_set fs path (Some (NFile [] (a, fs_now fs))))
  | None => Some (fs_set fs path (Some (NFile [] (fs_now fs, fs_now fs))))
  end.

(** [open_new_file(path)]: the state reached, and whether a file object
    was returned ([false]: an [EnvironmentError] was raised, possibly after
    the old file was already unlinked). *)
Definition open_new_file (fs : fsys) (path : str) : fsys * bool :=
  let fs1 := if os_path_exists fs path then os_unlink fs path else Some fs in
  match fs1 with
  | None => (fs, false)
  | Some fs1 =>
      match open_for_write fs1 path with
      | None => (fs1, false)
      | Some fs2 => (fs2, true)
      end
  end.

(** [f.write(data)] on a file opened for writing, then [f.close()]. *)
Definition file_write (fs : fsys) (path : str) (data : str) : fsys :=
  match fs_nodes fs path with
  | Some (NFile c (a, _)) => fs_set fs path (Some (NFile (c ++ data) (a, fs_now fs)))
  | _ => fs
  end.

Definition os_utime (fs : fsys) (path : str) (t : Z * Z) : fsys :=
  match fs_nodes fs path with
  | Some (NFile c _) => fs_set fs path (Some (NFile c t))
  | _ => fs
  end.

(** [castrate_file(path, st)], with [st] the (access, modification) times
    of the stat result, or [None]. *)
Definition castrate_file (fs : fsys) (path : str) (st : option (Z * Z)) : fsys :=
  if negb (is_cython_generated_file fs path true false) then fs else
  match open_new_file fs path with
  | (fs1, false) => fs1
  | (fs1, true) =>
      let fs2 := file_write fs1 path (failure_marker ++ [newline]) in
      match st with
      | Some (atime, mtime) => os_utime fs2 path (atime, mtime - 1)%Z
      | None => fs2
      end
  end.

(** Two states of a path that agree except for the access time of a
    file.  Opening and reading a file may set its access time, depending
    on the mount options ([relatime], [strictatime], [noatime]);
    [read_prefix] leaves it alone, so properties that hold through a read
    are stated up to it. *)
Definition same_but_atime (n n' : option node) : Prop :=
  match n, n' with
  | Some (NFile c (_, m)), Some (NFile c' (_, m')) => c = c' /\ m = m'
  | _, _ => n = n'
  end.

(** ** [copy_file_to_dir_if_newer] *)

Definition os_path_isdir (fs : fsys) (path : str) : bool :=
  match fs_nodes fs path with Some (NDir _) => true | _ => false end.

(** [os.path.getmtime(path)] ([modification_time]); [None] when it raises
    [OSError]. *)
Definition modification_time (fs : fsys) (path : str) : option Z :=
  match fs_nodes fs path with
  | Some (NFile _ (_, m)) => Some m
  | Some (NDir m) => Some m
  | None => None
  end.

(** [file_newer_than(path, time)]; [None] when it raises. *)
Definition file_newer_than (fs : fsys) (path : str) (time : Z) : option bool :=
  match modification_time fs path with
  | Some ftime => Some (time <? ftime)%Z
  | None => None
  end.

(** [shutil.copy2(src, dst)]: into [dst/basename(src)] when [dst] is a
    directory; the contents and the (access, modification) times of [src]
    are copied.  The state reached, and whether it returned normally. *)
Definition copy2 (fs : fsys) (src dst : str) : fsys * bool :=
  let dst := if os_path_isdir fs dst then os_path_join dst (os_path_basename src) else dst in
  if str_eqb src dst then (fs, false) else
  match fs_nodes fs src with
  | Some (NFile c t) =>
      if read_denied fs src then (fs, false) else
      match fs_nodes fs dst with
      | Some (NDir _) => (fs, false)
      | _ => if create_denied fs dst then (fs, false)
             else (fs_set fs dst (Some (NFile c t)), true)
      end
  | _ => (fs, false)
  end.

Section CopyIfNewer.

(** [os.makedirs(path)]: the state reached, and whether it returned
    normally. *)
Variable makedirs : fsys -> str -> fsys * bool.

Definition safe_makedirs (fs : fsys) (path : str) : fsys * bool :=
  let (fs1, ok) := makedirs fs path in
  if ok then (fs1, true) else (fs1, os_path_isdir fs1 path).

Definition copy_file_to_dir_if_newer (fs : fsys) (sourcefile destdir : str) : fsys * bool :=
  let destfile := os_path_join destdir (os_path_basename sourcefile) in
  match modification_time fs destfile with
  | None =>
      let (fs1, ok) := safe_makedirs fs destdir in
      if ok then copy2 fs1 sourcefile destfile else (fs1, false)
  | Some desttime =>
      match file_newer_than fs sourcefile desttime with
      | None => (fs, false)
      | Some false => (fs, true)
      | Some true => copy2 fs sourcefile destfile
      end
  end.

End CopyIfNewer.

(** ** Source encodings: [_match_file_encoding] and
    [detect_opened_file_encoding] *)

(** The classes of the bytes pattern: [\w] is [[a-zA-Z0-9_]], [\s] is
    [[ \t\n\r\f\v]]. *)
Definition is_word_byte (c : ascii) : bool :=
  let n := nat_of_ascii c in
  ((48 <=? n) && (n <=? 57)) || ((65 <=? n) && (n <=? 90))
  || ((97 <=? n) && (n <=? 122)) || (n =? 95).

Definition is_space_byte (c : ascii) : bool :=
  let n := nat_of_ascii c in ((9 <=? n) && (n <=? 13)) || (n =? 32).

Definition is_value_byte (c : ascii) : bool :=
  Ascii.eqb c "-"%char || is_word_byte c || Ascii.eqb c "."%char.

(** The length of the longest prefix of [s] in a class. *)
Fixpoint run (p : ascii -> bool) (s : str) : nat :=
  match s with
  | c :: s' => if p c then S (run p s') else 0
  | [] => 0
  end.

(** [([-\w.]+)] at the end of the pattern: greedy, so the longest run,
    which must not be empty. *)
Definition match_value (s : str) : option str :=
  let k := run is_value_byte s in
  if k =? 0 then None else Some (firstn k s).

(** [\s*([-\w.]+)]: [\s*] is greedy and backtracks, trying [j] spaces,
    then [j - 1], ..., then none. *)
Fixpoint try_spaces (s : str) (j : nat) : option str :=
  match j with
  | O => match_value s
  | S j' =>
      match match_value (skipn j s) with
      | Some v => Some v
      | None => try_spaces s j'
      end
  end.

(** [[:=]\s*([-\w.]+)] *)
Definition match_after_coding (s : str) : option str :=
  match s with
  | c :: s' =>
      if Ascii.eqb c ":"%char || Ascii.eqb c "="%char
      then try_spaces s' (run is_space_byte s') else None
  | [] => None
  end.

(** [(\w*coding)[:=]\s*([-\w.]+)] at the start of [s] with [\w*] taking
    [k] bytes: the two groups. *)
Definition match_coding_at (s : str) (k : nat) : option (str * str) :=
  if startswith (lit "coding") (skipn k s) then
    match match_after_coding (skipn (k + 6) s) with
    | Some v => Some (firstn (k + 6) s, v)
    | None => None
    end
  else None.

(** [\w*] is greedy and backtracks: [k] bytes, then [k - 1], ... *)
Fixpoint try_word (s : str) (k : nat) : option (str * str) :=
  match k with
  | O => match_coding_at s 0
  | S k' =>
      match match_coding_at s k with
      | Some r => Some r
      | None => try_word s k'
      end
  end.

Definition match_encoding_here (s : str) : option (str * str) :=
  try_word s (run is_word_byte s).

(** [_match_file_encoding(s)]: [re.search], the leftmost match, as its
    groups 1 and 2. *)
Fixpoint _match_file_encoding (s : str) : option (str * str) :=
  match match_encoding_here s with
  | Some r => Some r
  | None => match s with [] => None | _ :: s' => _match_file_encoding s' end
  end.

(** [s.split(b"\n")] *)
Fixpoint split_nl (s : str) : list str :=
  match s with
  | [] => [[]]
  | c :: s' =>
      if Ascii.eqb c newline then [] :: split_nl s'
      else match split_nl s' with
           | l :: ls => (c :: l) :: ls
           | [] => [[c]]
           end
  end.

(** The loop [while len(lines) < 3: ...] reading the file [c] 500 bytes at
    a time from offset [pos]; [fuel] bounds the iterations. *)
Fixpoint read_lines (fuel : nat) (c : str) (pos : nat) (start : str) (lines : list str)
  : list str :=
  match fuel with
  | O => lines
  | S fuel' =>
      if List.length lines <? 3 then
        let data := firstn 500 (skipn pos c) in
        let start' := start ++ data in
        let lines' := split_nl start' in
        if is_nil data then lines' else read_lines fuel' c (pos + 500) start' lines'
      else lines
  end.

(** The decision after the loop ([group(2).decode('iso8859-1')] maps
    each byte to the character of the same code, so it is the identity
    here). *)
Definition encoding_from_lines (lines : list str) (default : str) : str :=
  let second :=
    if 1 <? List.length lines then
      match _match_file_encoding (nth 1 lines []) with
      | Some (_, v) => v
      | None => default
      end
    else default in
  match _match_file_encoding (nth 0 lines []) with
  | Some (g1, v) => if negb (str_eqb g1 (lit "c_string_encoding")) then v else second
  | None => second
  end.

(** [detect_opened_file_encoding(f, default)] for a file [f] holding the
    bytes [c], read from the start; each iteration reads at least one byte
    or ends the loop, so [length c + 1] iterations suffice. *)
Definition detect_opened_file_encoding (c : str) (default : str) : str :=
  encoding_from_lines (read_lines (S (List.length c)) c 0 [] []) default.

(** ** Concrete inputs used by the examples *)

(** An [os.makedirs] that creates a missing directory and raises for an
    existing path. *)
Definition demo_makedirs (fs : fsys) (d : str) : fsys * bool :=
  match fs_nodes fs d with
  | None => (fs_set fs d (Some (NDir (fs_now fs))), true)
  | Some _ => (fs, false)
  end.

(** A generated C file [a.c] and a hand-written [b.c]; [create] says
    whether new files can be created. *)
Definition demo_fsys (create : bool) : fsys :=
  {| fs_nodes := fun q =>
       if str_eqb q (lit "a.c") then Some (NFile (lit "/* Generated by Cython 3.0 */") (5, 7)%Z)
       else if str_eqb q (lit "b.c") then Some (NFile (lit "int main;") (5, 7)%Z)
       else None;
     read_denied := fun _ => false; unlink_denied := fun _ => false;
     create_denied := fun _ => negb create; fs_now := 100%Z |}.

(** A directory [dir] holding [lib.pxd], [lib.cython-29.pxd] and
    [lib.cython-31.pxd]. *)
Definition fs1_listdir (d : str) : list str :=
  if str_eqb d (lit "dir") then [lit "lib.pxd"; lit "lib.cython-29.pxd"; lit "lib.cython-31.pxd"]
  else if str_eqb d (lit ".") then [lit "dir"]
  else [].

Definition fs1_exists (p : str) : bool :=
  existsb (str_eqb p) [lit "dir"; lit "dir/lib.pxd"; lit "dir/lib.cython-29.pxd"; lit "dir/lib.cython-31.pxd"].

Definition fs1_isdir (p : str) : bool := str_eqb p (lit "dir").

(** A directory [dir] holding [lib?.cython-28.pxd] and [libX.cython-29.pxd]. *)
Definition fs2_listdir (d : str) : list str :=
  if str_eqb d (lit "dir") then [lit "lib?.cython-28.pxd"; lit "libX.cython-29.pxd"] else [].

Definition fs2_exists (p : str) : bool :=
  existsb (str_eqb p) [lit "dir"; lit "dir/lib?.cython-28.pxd"; lit "dir/libX.cython-29.pxd"].

(** A function memoized in the examples. *)
Definition double_ok (n : nat) : result nat unit := Ok (2 * n).

Definition fc_empty : fc_state nat nat := {| fc_cache := []; fc_calls := [] |}.

(** A function that raises for odd arguments. *)
Definition half_even (n : nat) : result nat unit :=
  if Nat.even n then Ok (Nat.div2 n) else Exc tt.


(** A decoding environment: the default encoding fails on every input,
    the [ascii] codec decodes bytes below 128. *)
Definition demo_streams : list (option str) := [Some (lit "utf-8"); None; Some (lit "ascii"); None].

Definition demo_decode (e : str) (b : list Byte.byte) : result text codec_error :=
  if str_eqb e (lit "ascii") then
    if forallb (fun c => N.ltb (Byte.to_N c) 128) b then Ok (latin1_decode b)
    else Exc UnicodeDecodeError
  else Exc UnicodeDecodeError.

(** A process with descriptors 0, 1 and 2 open on files 0, 1 and 2. *)
Definition cap_state0 : st :=
  mkst [(0%Z, 0); (1%Z, 1); (2%Z, 2)] (fun _ => []) 3 true [] [].

Definition no_fault (_ : sysop) : bool := false.

(** Restoring descriptor 2 from descriptor 3 fails. *)
Definition restore_fault (o : sysop) : bool :=
  match o with
  | SysDup2 src dst => Z.eqb src 3 && Z.eqb dst 2
  | _ => false
  end.

(** * Proofs *)

Example dirname_ex1 : os_path_dirname (lit "/a/pkg/mod.py") = lit "/a/pkg".
Proof. reflexivity. Qed.
Example dirname_ex2 : os_path_dirname (lit "/a") = lit "/".
Proof. reflexivity. Qed.
Example dirname_ex3 : os_path_dirname (lit "a//b") = lit "a".
Proof. reflexivity. Qed.
Example dirname_ex4 : os_path_dirname (lit "mod.py") = [].
Proof. reflexivity. Qed.
Example join_ex : os_path_join (lit "a/") (lit "b") = lit "a/b".
Proof. reflexivity. Qed.

Example resolve_ex1 :
  find_versioned_file fs1_listdir fs1_isdir fs1_exists fs1_exists
    (lit "dir") (lit "lib") (lit ".pxd") 30%Z
  = Ok (Some (lit "dir/lib.cython-29.pxd")).
Proof. vm_compute. reflexivity. Qed.
Example resolve_ex2 :
  find_versioned_file (fun _ => []) (fun _ => false) (fun _ => false) (fun _ => false)
    (lit "dir") (lit "lib") (lit ".pxd") 30%Z
  = Ok None.
Proof. vm_compute. reflexivity. Qed.
(** A wildcard in the file name is a wildcard of the glob: [lib?] matches
    [libX] as well, and the greater version wins. *)
Example resolve_ex3 :
  glob fs2_listdir fs1_isdir fs2_exists (lit "dir/lib?.cython-*.pxd")
  = Ok [lit "dir/lib?.cython-28.pxd"; lit "dir/libX.cython-29.pxd"] /\
  find_versioned_file fs2_listdir fs1_isdir fs2_exists fs2_exists
    (lit "dir") (lit "lib?") (lit ".pxd") 30%Z
  = Ok (Some (lit "dir/libX.cython-29.pxd")).
Proof. split; vm_compute; reflexivity. Qed.
Example glob_ex :
  glob fs1_listdir fs1_isdir fs1_exists (lit "d[!x]r/[l]ib.cython-[0-2]?.pxd")
  = Ok [lit "dir/lib.cython-29.pxd"].
Proof. vm_compute. reflexivity. Qed.
Example parse_ex : _parse_file_version (lit "d/lib.cython-030.pxd") = Some 30%Z.
Proof. reflexivity. Qed.

(** ** Generic list and string facts *)

Lemma startswith_app (p s : str) : startswith p (p ++ s) = true.
Proof. induction p; simpl; [reflexivity|]. rewrite Ascii.eqb_refl; exact IHp. Qed.




Lemma take_drop_while (p : ascii -> bool) (l : str) :
  l = take_while p l ++ drop_while p l.
Proof. induction l as [|c l IH]; simpl; [reflexivity|]. destruct (p c); simpl; congruence. Qed.





(** ** Resolver facts *)






Lemma dash_not_digit : is_digit "-"%char = false.
Proof. reflexivity. Qed.



(** *** [translate] never raises *)

































Lemma chunks_ok_lower (lo lo' : nat) (d : str) (ds : list str) :
  lo' <= lo -> chunks_ok lo (d :: ds) -> chunks_ok lo' (d :: ds).
Proof. intros H (H1 & H2). split; [lia|exact H2]. Qed.


















(** *** Names matching a pattern that ends in a literal tail *)




















(** ** Package directories: facts *)

Lemma str_eqb_eq (a b : str) : str_eqb a b = true <-> a = b.
Proof.
  revert b; induction a as [|c a IH]; intros [|d b]; simpl; split; intros H;
    try discriminate; try reflexivity.
  - apply andb_true_iff in H as [H1 H2]. apply Ascii.eqb_eq in H1. apply IH in H2. congruence.
  - injection H as <- <-. rewrite Ascii.eqb_refl. now apply IH.
Qed.

Lemma drop_while_suffix (q : ascii -> bool) (l : str) :
  exists u, l = u ++ drop_while q l.
Proof. exists (take_while q l). apply take_drop_while. Qed.

(** [os.path.dirname(p)] is a prefix of [p]. *)
Lemma dirname_prefix (p : str) : exists t, p = os_path_dirname p ++ t.
Proof.
  unfold os_path_dirname, os_path_split; cbn [fst].
  set (head_r := drop_while (fun c => negb (is_slash c)) (rev p)).
  destruct (drop_while_suffix (fun c => negb (is_slash c)) (rev p)) as [u Hu].
  fold head_r in Hu.
  assert (Hp : p = rev head_r ++ rev u)
    by (rewrite <- rev_app_distr, <- Hu; symmetry; apply rev_involutive).
  destruct (forallb is_slash (rev head_r)).
  - eauto.
  - destruct (drop_while_suffix is_slash head_r) as [u2 Hu2].
    exists (rev u2 ++ rev u). rewrite Hp at 1. rewrite Hu2 at 1.
    now rewrite rev_app_distr, <- app_assoc.
Qed.

Lemma dirname_shorter (p : str) :
  os_path_dirname p <> p -> List.length (os_path_dirname p) < List.length p.
Proof.
  intros Hne. destruct (dirname_prefix p) as [t Ht].
  destruct t as [|c t].
  - rewrite app_nil_r in Ht. congruence.
  - rewrite Ht at 2. rewrite length_app. simpl. lia.
Qed.

Lemma find_root_package_dir_fuel_walk (path_exists : str -> bool) (fuel : nat) (p : str) :
  List.length p < fuel ->
  exists k,
    find_root_package_dir_fuel path_exists fuel p = Nat.iter (S k) os_path_dirname p /\
    (Nat.iter (S k) os_path_dirname p = Nat.iter k os_path_dirname p \/
     is_package_dir path_exists (Nat.iter (S k) os_path_dirname p) = false) /\
    forall j, j < k ->
      Nat.iter (S j) os_path_dirname p <> Nat.iter j os_path_dirname p /\
      is_package_dir path_exists (Nat.iter (S j) os_path_dirname p) = true.
Proof.
  revert p; induction fuel as [|fuel IH]; intros p Hlen; [lia|].
  cbn [find_root_package_dir_fuel].
  destruct (str_eqb p (os_path_dirname p)) eqn:Heq.
  - apply str_eqb_eq in Heq. exists 0. simpl Nat.iter.
    split; [reflexivity|]. split; [left; congruence | intros j Hj; lia].
  - assert (Hne : os_path_dirname p <> p)
      by (intros E; rewrite E, (proj2 (str_eqb_eq p p) eq_refl) in Heq; discriminate).
    destruct (is_package_dir path_exists (os_path_dirname p)) eqn:Hpkg.
    + pose proof (dirname_shorter p Hne) as Hs.
      destruct (IH (os_path_dirname p) ltac:(lia)) as (k & Hr & Hstop & Hwalk).
      exists (S k). rewrite !Nat.iter_succ_r in *.
      split; [exact Hr|]. split; [exact Hstop|].
      intros j Hj. destruct j as [|j].
      * simpl Nat.iter. auto.
      * destruct (Hwalk j ltac:(lia)) as [H1 H2].
        rewrite !Nat.iter_succ_r in H1, H2. repeat rewrite Nat.iter_succ_r. auto.
    + exists 0. simpl Nat.iter. split; [reflexivity|].
      split; [right; exact Hpkg | intros j Hj; lia].
Qed.

(** ** C3 (amended): [find_root_package_dir] walks up from the parent
    directory of [file_path] while the directory reached is a package (has
    a marker file) and returns the first directory of the walk that is not
    a package, i.e. the directory containing the outermost package, or the
    directory where [dirname] reaches a fixed point (the root). *)
Theorem find_root_package_dir_first_non_package (path_exists : str -> bool) (file_path : str) :
  exists k,
    find_root_package_dir path_exists file_path = Nat.iter (S k) os_path_dirname file_path /\
    (Nat.iter (S k) os_path_dirname file_path = Nat.iter k os_path_dirname file_path \/
     is_package_dir path_exists (Nat.iter (S k) os_path_dirname file_path) = false) /\
    forall j, j < k ->
      Nat.iter (S j) os_path_dirname file_path <> Nat.iter j os_path_dirname file_path /\
      is_package_dir path_exists (Nat.iter (S j) os_path_dirname file_path) = true.
Proof. apply find_root_package_dir_fuel_walk. lia. Qed.

(** ** C3: counterexample.  For [/a/pkg/mod.py] with [/a/pkg/__init__.py]
    present and no marker in [/a], the last ancestor with a marker is
    [/a/pkg], but the code returns [/a]. *)
Lemma find_root_package_dir_parent_of_package :
  let path_exists := fun p => str_eqb p (lit "/a/pkg/__init__.py") in
  is_package_dir path_exists (lit "/a/pkg") = true /\
  is_package_dir path_exists (lit "/a") = false /\
  find_root_package_dir path_exists (lit "/a/pkg/mod.py") = lit "/a".
Proof. repeat split; reflexivity. Qed.

Lemma probe_package_files_found (path_exists : str -> bool) (d : str) (files : list str) :
  fst (probe_package_files path_exists d files)
  = existsb (fun m => path_exists (os_path_join d m)) files.
Proof.
  induction files as [|m files IH]; simpl; [reflexivity|].
  destruct (path_exists (os_path_join d m)); [reflexivity|].
  destruct (probe_package_files path_exists d files) as [found probed]. exact IH.
Qed.

Lemma check_package_dir_loop_spec (path_exists : str -> bool) (names : list str) :
  forall d ns,
    fst (fst (check_package_dir_loop path_exists d ns names)) = fold_left os_path_join names d /\
    snd (fst (check_package_dir_loop path_exists d ns names))
    = ns && forallb (fun dd => negb (contains_init path_exists dd)) (joined_dirs d names).
Proof.
  induction names as [|n names IH]; intros d ns; cbn [check_package_dir_loop joined_dirs].
  - now rewrite andb_true_r.
  - destruct (contains_init_probed path_exists (os_path_join d n)) as [h pr] eqn:E.
    assert (Hc : contains_init path_exists (os_path_join d n) = h)
      by (unfold contains_init; now rewrite E).
    destruct (check_package_dir_loop path_exists (os_path_join d n) (if h then false else ns) names)
      as [res pr'] eqn:E2.
    destruct (IH (os_path_join d n) (if h then false else ns)) as [H1 H2].
    rewrite E2 in H1, H2. cbn [fst snd] in *. split; [exact H1|].
    cbn [forallb]. rewrite Hc, H2. destruct h, ns; reflexivity.
Qed.

(** ** C8: [check_package_dir(dir_path, package_names)] reports
    [namespace = True] exactly when none of the successively joined
    directories holds one of the [PACKAGE_FILES] markers. *)
Theorem check_package_dir_namespace_iff (path_exists : str -> bool)
  (dir_path : str) (package_names : list str) :
  snd (check_package_dir path_exists dir_path package_names) = true <->
  forall dd, In dd (joined_dirs dir_path package_names) ->
    forall m, In m PACKAGE_FILES -> path_exists (os_path_join dd m) = false.
Proof.
  unfold check_package_dir, check_package_dir_probed.
  rewrite (proj2 (check_package_dir_loop_spec path_exists package_names dir_path true)).
  cbn [andb]. rewrite forallb_forall. split.
  - intros H dd Hdd m Hm. specialize (H dd Hdd).
    unfold contains_init, contains_init_probed in H.
    rewrite probe_package_files_found in H.
    apply negb_true_iff in H.
    apply not_true_is_false. intros E.
    assert (Hx : existsb (fun m => path_exists (os_path_join dd m)) PACKAGE_FILES = true)
      by (apply existsb_exists; eauto).
    congruence.
  - intros H dd Hdd. unfold contains_init, contains_init_probed.
    rewrite probe_package_files_found. apply negb_true_iff.
    apply not_true_is_false. intros E. apply existsb_exists in E as (m & Hm & Hp).
    rewrite (H dd Hdd m Hm) in Hp. discriminate.
Qed.

(** The two concrete cases of the specification: a package directory
    without a marker file is a namespace package; with one it is not. *)
Example check_package_dir_empty :
  check_package_dir (fun _ => false) (lit "src") [lit "pkg"] = (lit "src/pkg", true).
Proof. reflexivity. Qed.

Example check_package_dir_marker :
  check_package_dir (fun p => str_eqb p (lit "src/pkg/__init__.pxd")) (lit "src") [lit "pkg"]
  = (lit "src/pkg", false).
Proof. reflexivity. Qed.

(** ** C9: with no package names, [check_package_dir] looks nothing up and
    returns [(dir_path, True)], whatever the filesystem holds. *)
Theorem check_package_dir_no_names (path_exists : str -> bool) (dir_path : str) :
  check_package_dir_probed path_exists dir_path [] = ((dir_path, true), []).
Proof. reflexivity. Qed.

(** ** Function caches *)

Lemma cached_call_keeps (K V E : Type) (eq : forall x y : K, {x = y} + {x <> y})
  (f : K -> result V E) (s : fc_state K V) (x y : K) (v : V) :
  cache_get eq (fc_cache s) x = Some v ->
  cache_get eq (fc_cache (fst (cached_call eq f s y))) x = Some v /\
  count_occ eq (fc_calls (fst (cached_call eq f s y))) x = count_occ eq (fc_calls s) x.
Proof.
  intros Hx. unfold cached_call.
  destruct (cache_get eq (fc_cache s) y) as [w|] eqn:Ey; [now split|].
  assert (Hne : y <> x) by (intros ->; congruence).
  destruct (f y) as [res|e]; cbn [fst fc_cache fc_calls];
    rewrite count_occ_app; cbn [count_occ]; destruct (eq y x); try contradiction;
    (split; [|lia]).
  - cbn [cache_get]. destruct (eq y x); [contradiction|exact Hx].
  - exact Hx.
Qed.

Lemma cached_calls_keep (K V E : Type) (eq : forall x y : K, {x = y} + {x <> y})
  (f : K -> result V E) (ys : list K) (s : fc_state K V) (x : K) (v : V) :
  cache_get eq (fc_cache s) x = Some v ->
  cache_get eq (fc_cache (fst (cached_calls eq f s ys))) x = Some v /\
  count_occ eq (fc_calls (fst (cached_calls eq f s ys))) x = count_occ eq (fc_calls s) x.
Proof.
  revert s; induction ys as [|y ys IH]; intros s Hx; cbn [cached_calls]; [now split|].
  destruct (cached_call_keeps K V E eq f s x y v Hx) as [H1 H2].
  destruct (cached_call eq f s y) as [s1 r] eqn:E1. cbn [fst] in H1, H2.
  destruct (IH s1 H1) as [H3 H4].
  destruct (cached_calls eq f s1 ys) as [s2 rs]. cbn [fst] in *. split; congruence.
Qed.

(** ** C2: from a cache holding no entry for [x] (a fresh or cleared
    cache), calling the wrapper with [x], then with any other arguments,
    then with [x] again, runs [f] on [x] exactly once and both calls with
    [x] return the value [f] computed. *)
Theorem cached_function_runs_once (K V E : Type) (eq : forall x y : K, {x = y} + {x <> y})
  (f : K -> result V E) (s : fc_state K V) (x : K) (v : V) (ys : list K) :
  cache_get eq (fc_cache s) x = None -> f x = Ok v ->
  let (s1, r1) := cached_call eq f s x in
  let (s2, _) := cached_calls eq f s1 ys in
  let (s3, r2) := cached_call eq f s2 x in
  r1 = Ok v /\ r2 = Ok v /\
  count_occ eq (fc_calls s3) x = S (count_occ eq (fc_calls s) x).
Proof.
  intros Hnone Hf. unfold cached_call at 1. rewrite Hnone, Hf.
  set (s1 := {| fc_cache := (x, v) :: fc_cache s; fc_calls := fc_calls s ++ [x] |}).
  assert (Hs1 : cache_get eq (fc_cache s1) x = Some v)
    by (cbn; destruct (eq x x); [reflexivity|contradiction]).
  destruct (cached_calls_keep K V E eq f ys s1 x v Hs1) as [H2 H3].
  destruct (cached_calls eq f s1 ys) as [s2 rs]. cbn [fst] in H2, H3.
  unfold cached_call. rewrite H2. split; [reflexivity|]. split; [reflexivity|].
  rewrite H3. cbn [fc_calls s1]. rewrite count_occ_app. cbn [count_occ].
  destruct (eq x x); [lia|contradiction].
Qed.

(** ** Method caches *)
















(** *** Decoding *)

Lemma add_candidate_head (c : str) (cs : list str) (encs : list (option str)) :
  exists rest, fold_left add_candidate encs (c :: cs) = c :: rest.
Proof.
  revert cs; induction encs as [|[e|] encs IH]; intros cs; cbn [fold_left].
  - now exists cs.
  - unfold add_candidate at 2. destruct (existsb (str_eqb e) (c :: cs)).
    + apply IH.
    + apply (IH (cs ++ [e])).
  - apply IH.
Qed.

Lemma add_candidate_In (cs : list str) (encs : list (option str)) (e : str) :
  In e (fold_left add_candidate encs cs) -> In e cs \/ In (Some e) encs.
Proof.
  revert cs; induction encs as [|enc encs IH]; intros cs H; cbn [fold_left] in H.
  - now left.
  - destruct (IH _ H) as [H1|H1]; [|right; now right].
    destruct enc as [e'|]; cbn [add_candidate] in H1; [|now left].
    destruct (existsb (str_eqb e') cs); [now left|].
    apply in_app_or in H1. destruct H1 as [H1|[<-|[]]]; [now left|].
    right; now left.
Qed.

Lemma decode_candidates_cases (decode : str -> list Byte.byte -> result text codec_error)
  (encs : list str) (b : list Byte.byte) :
  (forall e, In e encs -> decode e b <> Exc LookupError) ->
  (exists pre e post t, encs = pre ++ e :: post /\
     (forall e', In e' pre -> decode e' b = Exc UnicodeDecodeError) /\
     decode e b = Ok t /\ decode_candidates decode encs b = Ok t) \/
  ((forall e', In e' encs -> decode e' b = Exc UnicodeDecodeError) /\
   decode_candidates decode encs b = Ok (latin1_decode b)).
Proof.
  induction encs as [|e encs IH]; intros Hl; cbn [decode_candidates].
  - right; split; [intros _ []|reflexivity].
  - case_eq (decode e b); [intros t Ht|intros [|] Ht].
    + left; exists [], e, encs, t; repeat split; auto. intros _ [].
    + destruct IH as [(pre & e' & post & t & -> & Hpre & He' & Hd)|(Hall & Hd)].
      * intros e' He'; apply Hl; now right.
      * left; exists (e :: pre), e', post, t; repeat split; auto.
        intros e'' [<-|He'']; auto.
      * right; split; auto. intros e'' [<-|He'']; auto.
    + exfalso; apply (Hl e); [now left|exact Ht].
Qed.

(** ** C4 (amended): [prepare_captured] first strips ASCII whitespace and
    returns [None] when nothing is left, so whitespace-only input, non-empty
    as it may be, yields no string.  Otherwise, provided the candidate codec
    names are known (only [UnicodeDecodeError] is caught), it never raises:
    the candidates are the default encoding followed by the stream
    encodings, and the result is the decoding of the stripped bytes by the
    first candidate that does not reject them, or else their latin-1
    decoding; it is non-empty whenever the candidates decode non-empty bytes
    to non-empty text. *)
Theorem prepare_captured_best_effort (getdefaultencoding : str)
  (stream_encodings : list (option str))
  (decode : str -> list Byte.byte -> result text codec_error) (captured : list Byte.byte) :
  let candidates := get_encoding_candidates getdefaultencoding stream_encodings in
  let captured_bytes := bytes_strip captured in
  (forall e, In e candidates -> decode e captured_bytes <> Exc LookupError) ->
  (exists rest, candidates = getdefaultencoding :: rest /\
     forall e, In e rest -> e = getdefaultencoding \/ In (Some e) stream_encodings) /\
  ((captured_bytes = [] /\
    prepare_captured getdefaultencoding stream_encodings decode captured = Ok None) \/
   (captured_bytes <> [] /\ exists t,
      prepare_captured getdefaultencoding stream_encodings decode captured = Ok (Some t) /\
      ((exists pre e post, candidates = pre ++ e :: post /\
          (forall e', In e' pre -> decode e' captured_bytes = Exc UnicodeDecodeError) /\
          decode e captured_bytes = Ok t) \/
       ((forall e', In e' candidates -> decode e' captured_bytes = Exc UnicodeDecodeError) /\
        t = latin1_decode captured_bytes)) /\
      ((forall e t', In e candidates -> decode e captured_bytes = Ok t' -> t' <> []) ->
       t <> []))).
Proof.
  intros candidates captured_bytes Hl. split.
  - destruct (add_candidate_head getdefaultencoding [] stream_encodings) as [rest Hr].
    exists rest; split; [exact Hr|].
    intros e He. destruct (add_candidate_In [getdefaultencoding] stream_encodings e)
      as [[<-|[]]|H]; auto.
    unfold candidates, get_encoding_candidates in *. rewrite Hr; now right.
  - unfold prepare_captured; fold captured_bytes; fold candidates.
    destruct captured_bytes as [|b0 bs] eqn:Hb; [now left|right].
    split; [discriminate|].
    destruct (decode_candidates_cases decode candidates (b0 :: bs) Hl)
      as [(pre & e & post & t & Hc & Hpre & He & Hd)|(Hall & Hd)]; rewrite Hd.
    + exists t; repeat split; [left; eauto 6|].
      intros Hne. apply (Hne e); [rewrite Hc; apply in_or_app; right; now left|exact He].
    + exists (latin1_decode (b0 :: bs)); repeat split; [right; auto|].
      intros _; discriminate.
Qed.

(** ** C4: counterexample.  A single space is a non-empty byte input, yet
    [prepare_captured] returns [None] rather than a non-empty string. *)
Lemma prepare_captured_whitespace_only :
  prepare_captured (lit "utf-8") [None; None; None; None]
    (fun _ b => Ok (latin1_decode b)) [Byte.x20] = Ok None.
Proof. reflexivity. Qed.

(** *** Descriptor tables *)

Lemma find_fd_remove (t : list (Z * nat)) (fd fd' : Z) :
  find (fun p => Z.eqb (fst p) fd') (filter (fun p => negb (Z.eqb (fst p) fd)) t)
  = if Z.eqb fd fd' then None else find (fun p => Z.eqb (fst p) fd') t.
Proof.
  induction t as [|[x f] t IH]; cbn [filter find fst snd].
  - now destruct (Z.eqb fd fd').
  - destruct (Z.eqb x fd) eqn:Hx; cbn [negb find fst snd]; rewrite ?IH.
    + apply Z.eqb_eq in Hx; subst x.
      destruct (Z.eqb fd fd'); reflexivity.
    + destruct (Z.eqb x fd') eqn:H; [|reflexivity].
      apply Z.eqb_eq in H; subst x. now rewrite Z.eqb_sym, Hx.
Qed.

Lemma fd_lookup_remove (t : list (Z * nat)) (fd fd' : Z) :
  fd_lookup (fd_remove t fd) fd' = if Z.eqb fd fd' then None else fd_lookup t fd'.
Proof.
  unfold fd_lookup, fd_remove. rewrite find_fd_remove. now destruct (Z.eqb fd fd').
Qed.

Lemma fd_lookup_set (t : list (Z * nat)) (fd fd' : Z) (f : nat) :
  fd_lookup (fd_set t fd f) fd' = if Z.eqb fd fd' then Some f else fd_lookup t fd'.
Proof.
  unfold fd_set. unfold fd_lookup at 1. cbn [find fst snd].
  destruct (Z.eqb fd fd') eqn:H; [reflexivity|].
  fold (fd_lookup (fd_remove t fd) fd'). now rewrite fd_lookup_remove, H.
Qed.

Lemma lowest_free_from_free (t : list (Z * nat)) (n m : Z) (k : nat) :
  lowest_free_from t n k = Some m -> fd_lookup t m = None.
Proof.
  revert n; induction k as [|k IH]; intros n H; cbn [lowest_free_from] in H; [discriminate|].
  destruct (fd_lookup t n) eqn:Hn; [eauto|]. now injection H as <-.
Qed.

Lemma fd_lookup_neq (t : list (Z * nat)) (a b : Z) (f : nat) :
  fd_lookup t a = Some f -> fd_lookup t b = None -> Z.eqb b a = false.
Proof.
  intros Ha Hb. apply Z.eqb_neq. intros ->. congruence.
Qed.

Section StProjections.
Variables (s : st) (t : list (Z * nat)) (d : nat -> list Byte.byte) (b : bool)
  (o r : list Byte.byte).
Lemma fd_table_set_fd_table : fd_table (set_fd_table t s) = t. Proof. reflexivity. Qed.
Lemma file_data_set_fd_table : file_data (set_fd_table t s) = file_data s. Proof. reflexivity. Qed.
Lemma tmp_closed_set_fd_table : tmp_closed (set_fd_table t s) = tmp_closed s. Proof. reflexivity. Qed.
Lemma out_cache_set_fd_table : out_cache (set_fd_table t s) = out_cache s. Proof. reflexivity. Qed.
Lemma retrieved_set_fd_table : retrieved (set_fd_table t s) = retrieved s. Proof. reflexivity. Qed.
Lemma next_file_set_fd_table : next_file (set_fd_table t s) = next_file s. Proof. reflexivity. Qed.
Lemma fd_table_set_file_data : fd_table (set_file_data d s) = fd_table s. Proof. reflexivity. Qed.
Lemma file_data_set_file_data : file_data (set_file_data d s) = d. Proof. reflexivity. Qed.
Lemma tmp_closed_set_file_data : tmp_closed (set_file_data d s) = tmp_closed s. Proof. reflexivity. Qed.
Lemma out_cache_set_file_data : out_cache (set_file_data d s) = out_cache s. Proof. reflexivity. Qed.
Lemma retrieved_set_file_data : retrieved (set_file_data d s) = retrieved s. Proof. reflexivity. Qed.
Lemma fd_table_set_tmp_closed : fd_table (set_tmp_closed b s) = fd_table s. Proof. reflexivity. Qed.
Lemma file_data_set_tmp_closed : file_data (set_tmp_closed b s) = file_data s. Proof. reflexivity. Qed.
Lemma tmp_closed_set_tmp_closed : tmp_closed (set_tmp_closed b s) = b. Proof. reflexivity. Qed.
Lemma out_cache_set_tmp_closed : out_cache (set_tmp_closed b s) = out_cache s. Proof. reflexivity. Qed.
Lemma retrieved_set_tmp_closed : retrieved (set_tmp_closed b s) = retrieved s. Proof. reflexivity. Qed.
Lemma fd_table_set_out_cache : fd_table (set_out_cache o s) = fd_table s. Proof. reflexivity. Qed.
Lemma file_data_set_out_cache : file_data (set_out_cache o s) = file_data s. Proof. reflexivity. Qed.
Lemma tmp_closed_set_out_cache : tmp_closed (set_out_cache o s) = tmp_closed s. Proof. reflexivity. Qed.
Lemma out_cache_set_out_cache : out_cache (set_out_cache o s) = o. Proof. reflexivity. Qed.
Lemma retrieved_set_out_cache : retrieved (set_out_cache o s) = retrieved s. Proof. reflexivity. Qed.
Lemma fd_table_log_retrieved : fd_table (log_retrieved r s) = fd_table s. Proof. reflexivity. Qed.
Lemma file_data_log_retrieved : file_data (log_retrieved r s) = file_data s. Proof. reflexivity. Qed.
Lemma tmp_closed_log_retrieved : tmp_closed (log_retrieved r s) = tmp_closed s. Proof. reflexivity. Qed.
Lemma out_cache_log_retrieved : out_cache (log_retrieved r s) = out_cache s. Proof. reflexivity. Qed.
Lemma retrieved_log_retrieved : retrieved (log_retrieved r s) = retrieved s ++ [r]. Proof. reflexivity. Qed.
End StProjections.

Create Rewrite HintDb st_proj.

Global Hint Rewrite fd_table_set_fd_table file_data_set_fd_table tmp_closed_set_fd_table
  out_cache_set_fd_table retrieved_set_fd_table next_file_set_fd_table
  fd_table_set_file_data file_data_set_file_data tmp_closed_set_file_data
  out_cache_set_file_data retrieved_set_file_data
  fd_table_set_tmp_closed file_data_set_tmp_closed tmp_closed_set_tmp_closed
  out_cache_set_tmp_closed retrieved_set_tmp_closed
  fd_table_set_out_cache file_data_set_out_cache tmp_closed_set_out_cache
  out_cache_set_out_cache retrieved_set_out_cache
  fd_table_log_retrieved file_data_log_retrieved tmp_closed_log_retrieved
  out_cache_log_retrieved retrieved_log_retrieved : st_proj.

Ltac destruct_match_in H :=
  match type of H with
  | context [match ?x with _ => _ end] =>
      lazymatch x with
      | context [match _ with _ => _ end] => fail
      | _ => destruct x eqn:?
      end
  end.

Lemma captured_fd_enter_ok (fault : sysop -> bool) (lim : nat) (stream : Z)
  (s s1 : st) (orig : Z) (tf : tempfile) :
  captured_fd_enter fault lim stream s = (s1, Ok (orig, tf)) ->
  exists f0, fd_lookup (fd_table s) stream = Some f0 /\
    fd_lookup (fd_table s1) stream = Some (tf_file tf) /\
    fd_lookup (fd_table s1) (tf_fd tf) = Some (tf_file tf) /\
    fd_lookup (fd_table s1) orig = Some f0 /\
    Z.eqb orig stream = false /\ Z.eqb (tf_fd tf) stream = false /\
    Z.eqb (tf_fd tf) orig = false /\
    tmp_closed s1 = false /\ file_data s1 (tf_file tf) = [] /\ retrieved s1 = retrieved s.
Proof.
  intros H.
  unfold captured_fd_enter, bind, on_exception, os_dup, open_temp, modify, os_dup2,
    ret, temp_close, os_close, lowest_free in H.
  repeat (destruct_match_in H; cbn beta iota in H; try discriminate H).
  cbn [fd_table file_data next_file tmp_closed out_cache retrieved set_fd_table
    set_out_cache tf_fd tf_file] in *.
  injection H as <- <- <-. unfold set_fd_table, set_out_cache.
  cbn [fd_table file_data tmp_closed retrieved tf_fd tf_file].
  pose proof (lowest_free_from_free _ _ _ _ Heqo0) as Hz.
  pose proof (lowest_free_from_free _ _ _ _ Heqo1) as Hz0.
  rewrite fd_lookup_set in Hz0. destruct (Z.eqb z z0) eqn:Hzz0; [discriminate|].
  rewrite !fd_lookup_set, Z.eqb_refl in Heqo2. injection Heqo2 as <-.
  pose proof (fd_lookup_neq _ _ _ _ Heqo Hz) as H1.
  pose proof (fd_lookup_neq _ _ _ _ Heqo Hz0) as H2.
  assert (H3 : Z.eqb z0 z = false) by now rewrite Z.eqb_sym.
  exists n. rewrite !fd_lookup_set, !Z.eqb_refl, (Z.eqb_sym stream z0), H2,
    (Z.eqb_sym stream z), H1, (Z.eqb_sym z0 z), Hzz0.
  unfold upd. rewrite Nat.eqb_refl. repeat split; auto.
Qed.

Lemma captured_fd_enter_exc (fault : sysop -> bool) (lim : nat) (stream : Z)
  (s s1 s' : st) (orig : Z) (e : exn) :
  os_dup fault lim stream s = (s1, Ok orig) ->
  captured_fd_enter fault lim stream s = (s', Exc e) ->
  fd_lookup (fd_table s') orig = None.
Proof.
  intros Hdup H.
  unfold captured_fd_enter, bind, on_exception, open_temp, modify, os_dup2,
    ret, temp_close, os_close, lowest_free in H.
  rewrite Hdup in H. cbn beta iota in H.
  unfold os_dup, lowest_free in Hdup.
  repeat (destruct_match_in Hdup; cbn beta iota in Hdup; try discriminate Hdup).
  injection Hdup as <- <-.
  repeat (destruct_match_in H; cbn beta iota in H; try discriminate H).
  all: autorewrite with st_proj in *.
  all: apply pair_equal_spec in H; destruct H as [<- _]; autorewrite with st_proj.
  all: cbn [fd_table file_data next_file tmp_closed out_cache retrieved tf_fd tf_file] in *.
  all: rewrite ?fd_lookup_remove, ?fd_lookup_set, ?Z.eqb_refl in *.
  all: first [reflexivity | discriminate | assumption].
Qed.

Lemma run_body_spec (fault : sysop -> bool) (stream : Z) (tf : tempfile) (f : nat)
  (body : list action) (s s' : st) (r : result unit exn) :
  fd_lookup (fd_table s) stream = Some f ->
  fd_lookup (fd_table s) (tf_fd tf) = Some f ->
  tmp_closed s = false ->
  fault (SysRead (tf_fd tf)) = false ->
  run_body fault stream tf body s = (s', r) ->
  fd_table s' = fd_table s /\ tmp_closed s' = false /\
  file_data s' f = file_data s f ++ written_before_raise body /\
  retrieved s' = retrieved s ++ snapshots (file_data s f) body /\
  r = (if existsb is_raise body then Exc BodyError else Ok tt).
Proof.
  revert s; induction body as [|a body IH]; intros s Hs Ht Hc Hf H.
  - cbn in H. injection H as <- <-. cbn. rewrite !app_nil_r. auto.
  - destruct a as [b| |]; cbn [run_body run_action written_before_raise snapshots
      existsb is_raise orb] in *; unfold bind in H.
    + unfold os_write in H. rewrite Hs in H.
      apply IH in H; autorewrite with st_proj; auto.
      destruct H as (H1 & H2 & H3 & H4 & H5). autorewrite with st_proj in *.
      unfold upd in H3, H4 at 1. rewrite Nat.eqb_refl in H3, H4.
      rewrite <- app_assoc in H3. auto.
    + unfold get_output, read_output, modify in H. rewrite Hc, Hf, Ht in H.
      apply IH in H; autorewrite with st_proj; auto.
      destruct H as (H1 & H2 & H3 & H4 & H5). autorewrite with st_proj in *.
      rewrite <- app_assoc in H4. auto.
    + cbn in H. injection H as <- <-. rewrite !app_nil_r. auto.
Qed.

Lemma captured_fd_resume_spec (fault : sysop -> bool) (stream orig : Z) (tf : tempfile)
  (s s' : st) (r : result unit exn) (f0 ft : nat) :
  fd_lookup (fd_table s) stream = Some ft ->
  fd_lookup (fd_table s) (tf_fd tf) = Some ft ->
  fd_lookup (fd_table s) orig = Some f0 ->
  Z.eqb orig stream = false -> Z.eqb (tf_fd tf) stream = false ->
  Z.eqb (tf_fd tf) orig = false ->
  tmp_closed s = false ->
  captured_fd_resume fault stream orig tf s = (s', r) ->
  fd_lookup (fd_table s') orig = None /\ tmp_closed s' = true /\
  retrieved s' = retrieved s /\
  (fault (SysDup2 orig stream) = true -> r = Exc (OSError EIO)) /\
  (fault (SysDup2 orig stream) = false -> fault (SysRead (tf_fd tf)) = false ->
   r = Ok tt /\ fd_lookup (fd_table s') stream = Some f0 /\ out_cache s' = file_data s ft).
Proof.
  intros Hs Ht Ho H1 H2 H3 Hc H.
  unfold captured_fd_resume, try_finally, bind, os_dup2, read_output, ret, temp_close,
    os_close in H.
  repeat (destruct_match_in H; cbn beta iota in H; try discriminate H).
  all: autorewrite with st_proj in *.
  all: apply pair_equal_spec in H; destruct H as [<- <-]; autorewrite with st_proj.
  all: rewrite ?fd_lookup_remove, ?fd_lookup_set, ?Z.eqb_refl in *.
  all: rewrite ?H1, ?H2, ?H3, ?(Z.eqb_sym stream orig), ?(Z.eqb_sym stream (tf_fd tf)),
    ?(Z.eqb_sym orig (tf_fd tf)), ?H1, ?H2, ?H3 in *.
  all: repeat split; intros; try congruence.
Qed.

Lemma captured_fd_enter_orig (fault : sysop -> bool) (lim : nat) (stream : Z)
  (s s1 s2 : st) (orig orig' : Z) (tf : tempfile) :
  os_dup fault lim stream s = (s1, Ok orig) ->
  captured_fd_enter fault lim stream s = (s2, Ok (orig', tf)) -> orig' = orig.
Proof.
  intros Hdup H.
  unfold captured_fd_enter, bind, on_exception, open_temp, modify, os_dup2,
    ret, temp_close, os_close, lowest_free in H.
  rewrite Hdup in H. cbn beta iota in H.
  repeat (destruct_match_in H; cbn beta iota in H; try discriminate H).
  apply pair_equal_spec in H. destruct H as [_ H]. congruence.
Qed.

Lemma with_captured_fd_entered (fault : sysop -> bool) (lim : nat) (stream : Z)
  (body : list action) (s s1 : st) (orig : Z) (tf : tempfile) :
  captured_fd_enter fault lim stream s = (s1, Ok (orig, tf)) ->
  with_captured_fd fault lim stream body s
  = try_finally (run_body fault stream tf body)
                (captured_fd_resume fault stream orig tf) s1.
Proof. intros H. unfold with_captured_fd, bind. now rewrite H. Qed.

Lemma run_body_frame (fault : sysop -> bool) (stream : Z) (tf : tempfile)
  (body : list action) (s s' : st) (r : result unit exn) :
  run_body fault stream tf body s = (s', r) ->
  fd_table s' = fd_table s /\ tmp_closed s' = tmp_closed s.
Proof.
  revert s; induction body as [|a body IH]; intros s H; cbn [run_body] in H.
  - cbn in H. now injection H as <- <-.
  - unfold bind in H. destruct a as [b| |]; cbn [run_action] in H.
    + unfold os_write in H. destruct (fd_lookup (fd_table s) stream).
      * apply IH in H. now autorewrite with st_proj in H.
      * now injection H as <- <-.
    + unfold get_output, read_output, modify, bind in H. cbn beta iota in H.
      destruct (tmp_closed s) eqn:Hc.
      * apply IH in H. autorewrite with st_proj in H. now rewrite Hc in H.
      * destruct (fault (SysRead (tf_fd tf))); [now injection H as <- <-|].
        destruct (fd_lookup (fd_table s) (tf_fd tf)); [|now injection H as <- <-].
        apply IH in H. autorewrite with st_proj in H. now rewrite Hc in H.
    + cbn in H. now injection H as <- <-.
Qed.

Lemma with_captured_fd_after_enter (fault : sysop -> bool) (lim : nat) (stream : Z)
  (body : list action) (s s1 : st) (orig : Z) (tf : tempfile) :
  captured_fd_enter fault lim stream s = (s1, Ok (orig, tf)) ->
  exists f0, fd_lookup (fd_table s) stream = Some f0 /\
  fd_lookup (fd_table (fst (with_captured_fd fault lim stream body s))) orig = None /\
  (fault (SysDup2 orig stream) = true ->
   snd (with_captured_fd fault lim stream body s) = Exc (OSError EIO)) /\
  (fault (SysDup2 orig stream) = false -> fault (SysRead (tf_fd tf)) = false ->
   snd (with_captured_fd fault lim stream body s)
     = (if existsb is_raise body then Exc BodyError else Ok tt) /\
   retrieved (fst (with_captured_fd fault lim stream body s))
     = retrieved s ++ snapshots [] body /\
   fd_lookup (fd_table (fst (with_captured_fd fault lim stream body s))) stream = Some f0 /\
   tmp_closed (fst (with_captured_fd fault lim stream body s)) = true /\
   out_cache (fst (with_captured_fd fault lim stream body s)) = written_before_raise body).
Proof.
  intros He. rewrite (with_captured_fd_entered _ _ _ body _ _ _ _ He).
  destruct (captured_fd_enter_ok _ _ _ _ _ _ _ He)
    as (f0 & Hs0 & Hs & Ht & Ho & H1 & H2 & H3 & Hc & Hd & Hr).
  exists f0; split; [exact Hs0|].
  unfold try_finally.
  destruct (run_body fault stream tf body s1) as [s2 rb] eqn:Hb.
  destruct (captured_fd_resume fault stream orig tf s2) as [s3 rr] eqn:Hres.
  destruct (run_body_frame _ _ _ _ _ _ _ Hb) as [F1 F2].
  rewrite <- F1 in Hs, Ht, Ho. rewrite <- F2 in Hc.
  destruct (captured_fd_resume_spec _ _ _ _ _ _ _ _ _ Hs Ht Ho H1 H2 H3 Hc Hres)
    as (R1 & R2 & R3 & R4 & R5).
  cbn [fst snd]. split; [destruct rr; exact R1|]. split.
  - intros Hx. rewrite (R4 Hx). reflexivity.
  - intros Hx Hf. rewrite F1 in Hs, Ht. rewrite F2 in Hc.
    destruct (run_body_spec _ _ _ _ _ _ _ _ Hs Ht Hc Hf Hb) as (B1 & B2 & B3 & B4 & B5).
    destruct (R5 Hx Hf) as (-> & R6 & R7).
    rewrite Hd in B3, B4. cbn [fst snd]; repeat split; auto.
    + cbn [fst]. now rewrite R3, B4, Hr.
    + cbn [fst]. now rewrite R7, B3.
Qed.

(** ** C6: once [os.dup(stream)] has preserved the original destination in
    a duplicate descriptor, the [with captured_fd(stream)] statement always
    ends with that duplicate closed, whatever happens afterwards: a failure
    opening the temporary file or redirecting the stream, an exception of
    the protected region, or a failure of any step of the restoration.  And
    when restoring the original destination ([os.dup2(orig_stream, stream)])
    fails, that failure is what the statement raises. *)
Theorem captured_fd_releases_duplicate (fault : sysop -> bool) (lim : nat) (stream : Z)
  (body : list action) (s s1 : st) (orig : Z) :
  os_dup fault lim stream s = (s1, Ok orig) ->
  fd_lookup (fd_table (fst (with_captured_fd fault lim stream body s))) orig = None /\
  (forall s2 tf, captured_fd_enter fault lim stream s = (s2, Ok (orig, tf)) ->
     fault (SysDup2 orig stream) = true ->
     snd (with_captured_fd fault lim stream body s) = Exc (OSError EIO)).
Proof.
  intros Hdup.
  destruct (captured_fd_enter fault lim stream s) as [s2 [[o tf]|e]] eqn:He.
  - pose proof (captured_fd_enter_orig _ _ _ _ _ _ _ _ _ Hdup He); subst o.
    destruct (with_captured_fd_after_enter _ _ _ body _ _ _ _ He) as (f0 & _ & A1 & A2 & _).
    split; [exact A1|]. intros s2' tf' He' Hx.
    injection He' as _ <-. now apply A2.
  - unfold with_captured_fd, bind. rewrite He. cbn [fst snd]. split.
    + exact (captured_fd_enter_exc _ _ _ _ _ _ _ _ Hdup He).
    + intros s2' tf' He'. discriminate.
Qed.

(** ** C7: for a capture whose set-up succeeded and where restoring the
    stream and reading the temporary file do not fail, with a protected
    region that writes to the captured descriptor and calls [get_output]:
    each call during the region returns exactly the bytes written so far;
    after the statement, [get_output] returns all the bytes written (from
    the value cached at exit, the temporary file being closed); and the
    stream again refers to the file it referred to before, so a later write
    appends to that file. *)
Theorem captured_fd_retrieve (fault : sysop -> bool) (lim : nat) (stream : Z)
  (body : list action) (s s1 : st) (orig : Z) (tf : tempfile) :
  captured_fd_enter fault lim stream s = (s1, Ok (orig, tf)) ->
  fault (SysDup2 orig stream) = false ->
  fault (SysRead (tf_fd tf)) = false ->
  existsb is_raise body = false ->
  let s' := fst (with_captured_fd fault lim stream body s) in
  snd (with_captured_fd fault lim stream body s) = Ok tt /\
  retrieved s' = retrieved s ++ snapshots [] body /\
  tmp_closed s' = true /\
  get_output fault tf s' = (s', Ok (written_before_raise body)) /\
  fd_lookup (fd_table s') stream = fd_lookup (fd_table s) stream /\
  (forall f b, fd_lookup (fd_table s) stream = Some f ->
     file_data (fst (os_write stream b s')) f = file_data s' f ++ b).
Proof.
  intros He Hx Hf Hb s'.
  destruct (with_captured_fd_after_enter _ _ _ body _ _ _ _ He) as (f0 & Hs0 & _ & _ & A3).
  destruct (A3 Hx Hf) as (A4 & A5 & A6 & A7 & A8). fold s' in A5, A6, A7, A8.
  rewrite Hb in A4. repeat split; auto.
  - unfold get_output, read_output. now rewrite A7, A8.
  - now rewrite A6, Hs0.
  - intros f b Hf0. rewrite Hs0 in Hf0. injection Hf0 as <-.
    unfold os_write. rewrite A6. cbn [fst]. autorewrite with st_proj.
    unfold upd. now rewrite Nat.eqb_refl.
Qed.

(** ** C10: when the protected region raises, [__exit__] still resumes the
    generator past its [yield]: with set-up, restoration and reading not
    failing, the stream refers again to its original destination, the
    duplicate is closed, the bytes written before the exception were read
    and cached, so that [get_output] returns them after the statement, and
    the region's exception is what the statement raises. *)
Theorem captured_fd_exceptional_exit (fault : sysop -> bool) (lim : nat) (stream : Z)
  (body : list action) (s s1 : st) (orig : Z) (tf : tempfile) :
  captured_fd_enter fault lim stream s = (s1, Ok (orig, tf)) ->
  fault (SysDup2 orig stream) = false ->
  fault (SysRead (tf_fd tf)) = false ->
  existsb is_raise body = true ->
  let s' := fst (with_captured_fd fault lim stream body s) in
  snd (with_captured_fd fault lim stream body s) = Exc BodyError /\
  fd_lookup (fd_table s') stream = fd_lookup (fd_table s) stream /\
  fd_lookup (fd_table s') orig = None /\
  tmp_closed s' = true /\
  get_output fault tf s' = (s', Ok (written_before_raise body)) /\
  retrieved s' = retrieved s ++ snapshots [] body.
Proof.
  intros He Hx Hf Hb s'.
  destruct (with_captured_fd_after_enter _ _ _ body _ _ _ _ He) as (f0 & Hs0 & A1 & _ & A3).
  destruct (A3 Hx Hf) as (A4 & A5 & A6 & A7 & A8). fold s' in A1, A5, A6, A7, A8.
  rewrite Hb in A4. repeat split; auto.
  - now rewrite A6, Hs0.
  - unfold get_output, read_output. now rewrite A7, A8.
Qed.

(** * Instances of the hypotheses *)


(** C2: memoizing [double_ok], calling it with 3, 1 and 3. *)
Lemma cached_function_runs_once_witness :
  cache_get Nat.eq_dec (fc_cache fc_empty) 3 = None /\ double_ok 3 = Ok 6 /\
  let (s1, r1) := cached_call Nat.eq_dec double_ok fc_empty 3 in
  let (s2, _) := cached_calls Nat.eq_dec double_ok s1 [1] in
  let (s3, r2) := cached_call Nat.eq_dec double_ok s2 3 in
  r1 = Ok 6 /\ r2 = Ok 6 /\
  count_occ Nat.eq_dec (fc_calls s3) 3 = S (count_occ Nat.eq_dec (fc_calls fc_empty) 3).
Proof.
  assert (H1 : cache_get Nat.eq_dec (fc_cache fc_empty) 3 = None) by reflexivity.
  assert (H2 : double_ok 3 = Ok 6) by reflexivity.
  split; [exact H1|]. split; [exact H2|].
  exact (cached_function_runs_once nat nat unit Nat.eq_dec double_ok fc_empty 3 6 [1] H1 H2).
Defined.

(** C4: [demo_decode] never raises [LookupError]; the input [b" \xff "]. *)
Lemma prepare_captured_best_effort_witness :
  let candidates := get_encoding_candidates (lit "utf-8") demo_streams in
  let captured_bytes := bytes_strip [Byte.x20; Byte.xff; Byte.x20] in
  (forall e, In e candidates -> demo_decode e captured_bytes <> Exc LookupError) /\
  (exists rest, candidates = lit "utf-8" :: rest /\
     forall e, In e rest -> e = lit "utf-8" \/ In (Some e) demo_streams) /\
  ((captured_bytes = [] /\
    prepare_captured (lit "utf-8") demo_streams demo_decode
      [Byte.x20; Byte.xff; Byte.x20] = Ok None) \/
   (captured_bytes <> [] /\ exists t,
      prepare_captured (lit "utf-8") demo_streams demo_decode
        [Byte.x20; Byte.xff; Byte.x20] = Ok (Some t) /\
      ((exists pre e post, candidates = pre ++ e :: post /\
          (forall e', In e' pre -> demo_decode e' captured_bytes = Exc UnicodeDecodeError) /\
          demo_decode e captured_bytes = Ok t) \/
       ((forall e', In e' candidates -> demo_decode e' captured_bytes = Exc UnicodeDecodeError) /\
        t = latin1_decode captured_bytes)) /\
      ((forall e t', In e candidates -> demo_decode e captured_bytes = Ok t' -> t' <> []) ->
       t <> []))).
Proof.
  cbv zeta.
  assert (H : forall e, In e (get_encoding_candidates (lit "utf-8") demo_streams) ->
              demo_decode e (bytes_strip [Byte.x20; Byte.xff; Byte.x20]) <> Exc LookupError).
  { intros e _. unfold demo_decode.
    destruct (str_eqb e (lit "ascii")); [destruct forallb|]; discriminate. }
  split; [exact H|].
  exact (prepare_captured_best_effort (lit "utf-8") demo_streams demo_decode
           [Byte.x20; Byte.xff; Byte.x20] H).
Defined.


(** C6: capturing descriptor 2 of [cap_state0] (preserved as descriptor 3)
    when the restoration fails, around a region that writes and raises. *)
Lemma captured_fd_releases_duplicate_witness :
  os_dup restore_fault 16 2 cap_state0 = (fst (os_dup restore_fault 16 2 cap_state0), Ok 3%Z) /\
  fd_lookup (fd_table (fst (with_captured_fd restore_fault 16 2 [Write [Byte.x41]; Raise]
                              cap_state0))) 3 = None /\
  (forall s2 tf, captured_fd_enter restore_fault 16 2 cap_state0 = (s2, Ok (3%Z, tf)) ->
     restore_fault (SysDup2 3 2) = true ->
     snd (with_captured_fd restore_fault 16 2 [Write [Byte.x41]; Raise] cap_state0)
       = Exc (OSError EIO)).
Proof.
  assert (H : os_dup restore_fault 16 2 cap_state0
              = (fst (os_dup restore_fault 16 2 cap_state0), Ok 3%Z)) by reflexivity.
  split; [exact H|].
  exact (captured_fd_releases_duplicate restore_fault 16 2 [Write [Byte.x41]; Raise]
           cap_state0 _ 3 H).
Defined.

(** C7: capturing descriptor 2 of [cap_state0] into the temporary file 3
    opened as descriptor 4, around writes of [A] and [B] with a retrieval
    after each. *)
Lemma captured_fd_retrieve_witness :
  let body := [Write [Byte.x41]; Retrieve; Write [Byte.x42]; Retrieve] in
  let tf := {| tf_fd := 4; tf_file := 3 |} in
  captured_fd_enter no_fault 16 2 cap_state0
    = (fst (captured_fd_enter no_fault 16 2 cap_state0), Ok (3%Z, tf)) /\
  no_fault (SysDup2 3 2) = false /\ no_fault (SysRead (tf_fd tf)) = false /\
  existsb is_raise body = false /\
  let s' := fst (with_captured_fd no_fault 16 2 body cap_state0) in
  snd (with_captured_fd no_fault 16 2 body cap_state0) = Ok tt /\
  retrieved s' = retrieved cap_state0 ++ snapshots [] body /\
  tmp_closed s' = true /\
  get_output no_fault tf s' = (s', Ok (written_before_raise body)) /\
  fd_lookup (fd_table s') 2 = fd_lookup (fd_table cap_state0) 2 /\
  (forall f b, fd_lookup (fd_table cap_state0) 2 = Some f ->
     file_data (fst (os_write 2 b s')) f = file_data s' f ++ b).
Proof.
  cbv zeta.
  assert (He : captured_fd_enter no_fault 16 2 cap_state0
    = (fst (captured_fd_enter no_fault 16 2 cap_state0),
       Ok (3%Z, {| tf_fd := 4; tf_file := 3 |}))) by reflexivity.
  split; [exact He|]. split; [reflexivity|]. split; [reflexivity|]. split; [reflexivity|].
  exact (captured_fd_retrieve no_fault 16 2 [Write [Byte.x41]; Retrieve; Write [Byte.x42]; Retrieve]
           cap_state0 _ 3 {| tf_fd := 4; tf_file := 3 |} He eq_refl eq_refl eq_refl).
Defined.

(** C10: the same capture around a region that writes [A], retrieves,
    raises, and never reaches its write of [B]. *)
Lemma captured_fd_exceptional_exit_witness :
  let body := [Write [Byte.x41]; Retrieve; Raise; Write [Byte.x42]] in
  let tf := {| tf_fd := 4; tf_file := 3 |} in
  captured_fd_enter no_fault 16 2 cap_state0
    = (fst (captured_fd_enter no_fault 16 2 cap_state0), Ok (3%Z, tf)) /\
  no_fault (SysDup2 3 2) = false /\ no_fault (SysRead (tf_fd tf)) = false /\
  existsb is_raise body = true /\
  let s' := fst (with_captured_fd no_fault 16 2 body cap_state0) in
  snd (with_captured_fd no_fault 16 2 body cap_state0) = Exc BodyError /\
  fd_lookup (fd_table s') 2 = fd_lookup (fd_table cap_state0) 2 /\
  fd_lookup (fd_table s') 3 = None /\
  tmp_closed s' = true /\
  get_output no_fault tf s' = (s', Ok (written_before_raise body)) /\
  retrieved s' = retrieved cap_state0 ++ snapshots [] body.
Proof.
  cbv zeta.
  assert (He : captured_fd_enter no_fault 16 2 cap_state0
    = (fst (captured_fd_enter no_fault 16 2 cap_state0),
       Ok (3%Z, {| tf_fd := 4; tf_file := 3 |}))) by reflexivity.
  split; [exact He|]. split; [reflexivity|]. split; [reflexivity|]. split; [reflexivity|].
  exact (captured_fd_exceptional_exit no_fault 16 2 [Write [Byte.x41]; Retrieve; Raise; Write [Byte.x42]]
           cap_state0 _ 3 {| tf_fd := 4; tf_file := 3 |} He eq_refl eq_refl eq_refl).
Defined.

(** * Further properties of Utils.py *)

(** ** OrderedSet *)

Section OrderedSetProofs.
Variable A : Type.
Variable eq : forall x y : A, {x = y} + {x <> y}.

Lemma py_in_In (e : A) (l : list A) : py_in eq e l = true <-> In e l.
Proof.
  unfold py_in. rewrite existsb_exists. split.
  - intros (y & Hy & He). destruct (eq e y); [now subst|discriminate].
  - intros H. exists e. split; [exact H|]. now destruct (eq e e).
Qed.

Lemma py_in_false (e : A) (l : list A) : py_in eq e l = false <-> ~ In e l.
Proof.
  rewrite <- py_in_In. destruct (py_in eq e l); split; congruence.
Qed.

Lemma OrderedSet_add_inv (o : ordered_set A) (e : A) :
  oset_inv o -> oset_inv (OrderedSet_add eq o e).
Proof.
  intros [Hm Hn]. unfold OrderedSet_add.
  destruct (py_in eq e (_set o)) eqn:He; [now split|].
  apply py_in_false in He. split; cbn [_list _set].
  - intros x. rewrite in_app_iff. cbn [In]. rewrite Hm. tauto.
  - apply NoDup_app; [exact Hn| constructor; [intros []|constructor] |].
    intros x Hx [<-|[]]. apply He, Hm, Hx.
Qed.

Lemma OrderedSet_update_inv (o : ordered_set A) (l : list A) :
  oset_inv o -> oset_inv (OrderedSet_update eq o l).
Proof.
  unfold OrderedSet_update. revert o; induction l as [|x l IH]; intros o H; [exact H|].
  cbn [fold_left]. apply IH, OrderedSet_add_inv, H.
Qed.

Lemma remove_first_occurrences (y : A) (m : list A) :
  remove eq y (first_occurrences eq m) = first_occurrences eq (remove eq y m).
Proof.
  induction m as [|x m IH]; [reflexivity|]. cbn [first_occurrences remove].
  destruct (eq y x) as [->|Hne].
  - rewrite remove_remove_eq. exact IH.
  - cbn [first_occurrences]. rewrite remove_remove_comm, IH. reflexivity.
Qed.

Lemma filter_notin_snoc (L : list A) (y : A) (l : list A) :
  filter (fun z => negb (py_in eq z (L ++ [y]))) l
  = remove eq y (filter (fun z => negb (py_in eq z L)) l).
Proof.
  induction l as [|z l IH]; [reflexivity|]. cbn [filter].
  unfold py_in at 1. rewrite existsb_app. fold (py_in eq z L). cbn [existsb].
  destruct (py_in eq z L); cbn [negb orb]; [exact IH|].
  destruct (eq z y) as [->|Hne]; cbn [negb remove].
  - destruct (eq y y); [exact IH|contradiction].
  - destruct (eq y z) as [Hyz|_]; [now subst|]. now rewrite IH.
Qed.

Lemma OrderedSet_update_list (o : ordered_set A) (l : list A) :
  oset_inv o ->
  _list (OrderedSet_update eq o l)
  = _list o ++ first_occurrences eq (filter (fun z => negb (py_in eq z (_list o))) l).
Proof.
  unfold OrderedSet_update. revert o; induction l as [|y l IH]; intros o H.
  - now rewrite app_nil_r.
  - cbn [fold_left filter]. pose proof (OrderedSet_add_inv o y H) as H'.
    rewrite (IH _ H'). destruct H as [Hm Hn].
    unfold OrderedSet_add. destruct (py_in eq y (_set o)) eqn:Hy.
    + apply py_in_In, Hm, py_in_In in Hy. now rewrite Hy.
    + assert (Hy' : py_in eq y (_list o) = false).
      { apply py_in_false. intros Hin. apply py_in_false in Hy. apply Hy, Hm, Hin. }
      rewrite Hy'. cbn [_list negb first_occurrences].
      rewrite filter_notin_snoc, remove_first_occurrences, <- app_assoc. reflexivity.
Qed.

Lemma first_occurrences_In (l : list A) (x : A) :
  In x (first_occurrences eq l) <-> In x l.
Proof.
  induction l as [|y l IH]; [reflexivity|]. cbn [first_occurrences In].
  destruct (eq x y) as [->|Hne].
  - tauto.
  - split.
    + intros [->|H]; [now left|right]. apply IH. now apply in_remove in H.
    + intros [->|H]; [now left|right]. apply in_in_remove; [exact Hne|]. now apply IH.
Qed.

Lemma first_occurrences_NoDup (l : list A) : NoDup (first_occurrences eq l).
Proof.
  induction l as [|y l IH]; cbn [first_occurrences]; constructor.
  - apply remove_In.
  - clear -IH. induction IH as [|z m Hz Hm IHm]; cbn [remove]; [constructor|].
    destruct (eq y z); [exact IHm|]. constructor; [|exact IHm].
    intros Hin. apply in_remove in Hin. tauto.
Qed.

Lemma OrderedSet_init_list (l : list A) :
  OrderedSet_iter (OrderedSet_init eq l) = first_occurrences eq l.
Proof.
  unfold OrderedSet_iter, OrderedSet_init.
  rewrite OrderedSet_update_list; [|split; [reflexivity|constructor]].
  cbn [_list app]. f_equal. induction l as [|x l IH]; [reflexivity|].
  cbn [filter py_in existsb negb]. cbn [filter py_in existsb negb] in IH. now rewrite IH.
Qed.

(** OrderedSet: iterating over [OrderedSet(elements)] gives the elements
    in the order of their first occurrence, each once: the first element,
    followed by the others with every later copy of it removed. *)
Theorem OrderedSet_iter_first_occurrences (x : A) (l : list A) :
  OrderedSet_iter (OrderedSet_init eq []) = [] /\
  OrderedSet_iter (OrderedSet_init eq (x :: l))
  = x :: remove eq x (OrderedSet_iter (OrderedSet_init eq l)).
Proof.
  rewrite !OrderedSet_init_list. split; reflexivity.
Qed.

(** OrderedSet: the iteration of [OrderedSet(elements)] has no repeated
    element and contains exactly the elements of [elements]. *)
Theorem OrderedSet_iter_members (l : list A) :
  NoDup (OrderedSet_iter (OrderedSet_init eq l)) /\
  forall x, In x (OrderedSet_iter (OrderedSet_init eq l)) <-> In x l.
Proof.
  rewrite OrderedSet_init_list. split.
  - apply first_occurrences_NoDup.
  - apply first_occurrences_In.
Qed.

(** OrderedSet: after the constructor and any further [update] (and so
    [add]) calls, [_set] holds exactly the elements of [_list], which has no
    repeats, and the iteration is that of a set built from all the elements
    at once. *)
Theorem OrderedSet_update_consistent (l m : list A) :
  let o := OrderedSet_update eq (OrderedSet_init eq l) m in
  (forall x, In x (_set o) <-> In x (_list o)) /\ NoDup (_list o) /\
  OrderedSet_iter o = OrderedSet_iter (OrderedSet_init eq (l ++ m)).
Proof.
  cbv zeta. assert (H : oset_inv (OrderedSet_update eq (OrderedSet_init eq l) m)).
  { apply OrderedSet_update_inv, OrderedSet_update_inv. split; [reflexivity|constructor]. }
  destruct H as [H1 H2]. split; [exact H1|]. split; [exact H2|].
  unfold OrderedSet_init, OrderedSet_update. now rewrite fold_left_app.
Qed.
End OrderedSetProofs.

(** ** Function caches *)

Lemma cache_consistent_call (K V E : Type) (eq : forall x y : K, {x = y} + {x <> y})
  (f : K -> result V E) (s : fc_state K V) (x : K) :
  cache_consistent eq f s ->
  snd (cached_call eq f s x) = f x /\ cache_consistent eq f (fst (cached_call eq f s x)).
Proof.
  intros Hc. unfold cached_call. destruct (cache_get eq (fc_cache s) x) as [v|] eqn:Hg.
  - cbn [fst snd]. split; [symmetry; now apply Hc|exact Hc].
  - destruct (f x) as [v|e] eqn:Hf; cbn [fst snd]; split; try reflexivity.
    + intros y w Hy. cbn in Hy. destruct (eq x y) as [<-|Hne].
      * injection Hy as <-. exact Hf.
      * now apply Hc.
    + intros y w Hy. now apply Hc.
Qed.

(** cached_function: as long as [f] behaves as a function of its
    arguments, the wrapper is indistinguishable from [f]: starting from a
    cache that only holds [f]'s results (an empty one, or one emptied by
    [clear_function_caches]), any sequence of calls returns what [f] returns,
    and the cache keeps holding only [f]'s results. *)
Theorem cached_function_transparent (K V E : Type) (eq : forall x y : K, {x = y} + {x <> y})
  (f : K -> result V E) (s : fc_state K V) (xs : list K) :
  cache_consistent eq f s ->
  snd (cached_calls eq f s xs) = map f xs /\
  cache_consistent eq f (fst (cached_calls eq f s xs)) /\
  cache_consistent eq f (clear_cache (fst (cached_calls eq f s xs))).
Proof.
  revert s; induction xs as [|x xs IH]; intros s Hc.
  - split; [reflexivity|]. split; [exact Hc|]. intros y v Hy; discriminate.
  - cbn [cached_calls]. destruct (cache_consistent_call K V E eq f s x Hc) as [H1 H2].
    destruct (cached_call eq f s x) as [s1 r] eqn:E1. cbn [fst snd] in H1, H2.
    destruct (IH s1 H2) as [H3 H4].
    destruct (cached_calls eq f s1 xs) as [s2 rs]. cbn [fst snd] in *.
    rewrite H1, H3. split; [reflexivity|exact H4].
Qed.

(** cached_function: exceptions are not cached.  If [f] raises for [x],
    calling the wrapper [n] times with [x] raises [n] times, calls [f]
    each time, and leaves the cache as it was. *)
Theorem cached_function_exception_not_cached (K V E : Type)
  (eq : forall x y : K, {x = y} + {x <> y}) (f : K -> result V E)
  (s : fc_state K V) (x : K) (e : E) (n : nat) :
  cache_consistent eq f s -> f x = Exc e ->
  cached_calls eq f s (repeat x n)
  = ({| fc_cache := fc_cache s; fc_calls := fc_calls s ++ repeat x n |}, repeat (Exc e) n).
Proof.
  intros Hc Hf. revert s Hc; induction n as [|n IH]; intros s Hc.
  - cbn. rewrite app_nil_r. now destruct s.
  - cbn [repeat cached_calls]. unfold cached_call at 1.
    destruct (cache_get eq (fc_cache s) x) as [v|] eqn:Hg.
    { apply Hc in Hg. congruence. }
    rewrite Hf.
    set (s1 := {| fc_cache := fc_cache s; fc_calls := fc_calls s ++ [x] |}).
    assert (Hc1 : cache_consistent eq f s1) by exact Hc.
    rewrite (IH s1 Hc1). cbn [fc_cache fc_calls s1]. rewrite <- app_assoc. reflexivity.
Qed.

(** ** Cache names *)

Lemma endswith_app (suf s : str) : endswith suf (s ++ suf) = true.
Proof.
  unfold endswith. rewrite rev_app_distr.
  induction (rev suf) as [|c l IH]; [reflexivity|]. cbn. now rewrite Ascii.eqb_refl.
Qed.

Lemma forallb_negb_existsb {A} (p : A -> bool) (l : list A) :
  forallb (fun x => negb (p x)) l = negb (existsb p l).
Proof. induction l as [|x l IH]; [reflexivity|]. cbn. rewrite IH. now destruct (p x). Qed.

(** cached_method / clear_method_caches: the attribute name
    [_build_cache_name(name)] that [cached_method] stores its cache under is
    recognised by [_CACHE_NAME_PATTERN], which gives back [name], exactly
    when [name] is non-empty and has no newline. *)
Theorem build_cache_name_round_trip (name : str) :
  cache_method_name (_build_cache_name name)
  = if is_nil name || existsb (fun c => Ascii.eqb c newline) name then None else Some name.
Proof.
  unfold cache_method_name, _build_cache_name.
  replace (endswith [newline] (lit "__" ++ name ++ lit "_cache")) with false
    by (unfold endswith; rewrite !rev_app_distr; reflexivity).
  rewrite startswith_app, app_assoc, endswith_app. cbn [andb].
  rewrite <- app_assoc. cbn [lit list_ascii_of_string app skipn].
  replace (List.length _ - 8) with (List.length name)
    by (cbn [List.length]; rewrite length_app; cbn [List.length]; lia).
  rewrite firstn_app, firstn_all, Nat.sub_diag. cbn [firstn]. rewrite app_nil_r.
  destruct name as [|c name]; [reflexivity|]. cbn [is_nil negb orb andb].
  rewrite forallb_negb_existsb. destruct (existsb _ _); reflexivity.
Qed.

(** ** replace_suffix *)

Lemma rfind_bounds (c : ascii) (p : str) :
  (-1 <= rfind c p < Z.of_nat (List.length p))%Z.
Proof.
  induction p as [|x p IH]; cbn [rfind List.length]; [lia|].
  destruct (0 <=? rfind c p)%Z eqn:H; [apply Z.leb_le in H; lia|].
  destruct (Ascii.eqb x c); lia.
Qed.

Lemma rfind_notin (c : ascii) (p : str) : ~ In c p -> rfind c p = (-1)%Z.
Proof.
  induction p as [|x p IH]; intros Hn; [reflexivity|]. cbn [rfind].
  rewrite IH by (intros H; apply Hn; now right). cbn.
  destruct (Ascii.eqb_spec x c) as [->|]; [exfalso; apply Hn; now left|reflexivity].
Qed.

Lemma rfind_app (c : ascii) (a b : str) :
  rfind c (a ++ b)
  = if (0 <=? rfind c b)%Z then (Z.of_nat (List.length a) + rfind c b)%Z else rfind c a.
Proof.
  induction a as [|x a IH]; cbn [app rfind List.length].
  - pose proof (rfind_bounds c b) as B. destruct (0 <=? rfind c b)%Z eqn:H; [lia|].
    apply Z.leb_gt in H. lia.
  - rewrite IH. pose proof (rfind_bounds c a) as B.
    destruct (0 <=? rfind c b)%Z eqn:H.
    + apply Z.leb_le in H. replace (0 <=? _)%Z with true by (symmetry; apply Z.leb_le; lia). lia.
    + reflexivity.
Qed.

Lemma rfind_snoc (c x : ascii) (p : str) :
  rfind c (p ++ [x]) = if Ascii.eqb x c then Z.of_nat (List.length p) else rfind c p.
Proof.
  rewrite rfind_app. cbn [rfind]. destruct (Ascii.eqb x c); cbn; [lia|reflexivity].
Qed.

(** The base name is what follows the last slash. *)
Lemma os_path_basename_rfind (p : str) :
  os_path_basename p = skipn (Z.to_nat (rfind "/"%char p + 1)) p.
Proof.
  unfold os_path_basename, os_path_split. cbn [snd].
  induction p as [|x p IH] using rev_ind; [reflexivity|].
  rewrite rev_app_distr. cbn [rev app take_while]. rewrite rfind_snoc.
  replace (Ascii.eqb x "/"%char) with (is_slash x) by reflexivity.
  destruct (is_slash x) eqn:Hx; cbn [negb].
  - rewrite skipn_all2; [reflexivity|]. rewrite length_app. cbn. lia.
  - cbn [rev]. rewrite IH. rewrite skipn_app.
    pose proof (rfind_bounds "/"%char p).
    replace (Z.to_nat (rfind "/" p + 1) - List.length p) with 0 by lia. reflexivity.
Qed.

Lemma existsb_notdot_in (l : str) :
  existsb (fun c => negb (Ascii.eqb c "."%char)) l = true <-> exists c, In c l /\ c <> "."%char.
Proof.
  rewrite existsb_exists. split; intros (c & H1 & H2); exists c; split; auto.
  - intros ->. now rewrite Ascii.eqb_refl in H2.
  - destruct (Ascii.eqb_spec c "."%char); [contradiction|reflexivity].
Qed.

Lemma skipn_rfind_dot (p : str) :
  (rfind "/"%char p < rfind "."%char p)%Z ->
  exists t, skipn (Z.to_nat (rfind "."%char p)) p = "."%char :: t /\
            ~ In "."%char t /\ ~ In "/"%char t.
Proof.
  induction p as [|x p IH] using rev_ind; [cbn; lia|].
  rewrite !rfind_snoc. intros Hsd.
  destruct (Ascii.eqb_spec x "."%char) as [->|Hx].
  - rewrite skipn_app, skipn_all2 by lia. rewrite Nat2Z.id, Nat.sub_diag. cbn.
    exists []. split; [reflexivity|]. split; intros [].
  - destruct (Ascii.eqb_spec x "/"%char) as [->|Hs].
    + pose proof (rfind_bounds "."%char p). lia.
    + destruct (IH Hsd) as (t & H1 & H2 & H3). pose proof (rfind_bounds "."%char p).
      pose proof (rfind_bounds "/"%char p).
      rewrite skipn_app, H1. clear IH. replace (Z.to_nat (rfind "." p) - List.length p) with 0 by lia.
      exists (t ++ [x]). cbn. split; [reflexivity|].
      split; rewrite in_app_iff; cbn; intros [Hi|[Hi|[]]]; auto.
Qed.

(** replace_suffix / os.path.splitext: the root and the extension put
    together give back the path; the extension is empty or a dot followed
    by characters that are neither dots nor slashes, and when it is not
    empty the root's last component has a character other than a dot
    (leading dots of a file name do not start an extension). *)
Theorem splitext_parts (p : str) :
  let (root, ext) := os_path_splitext p in
  root ++ ext = p /\
  (ext = [] \/
   (exists t, ext = "."%char :: t /\ ~ In "."%char t /\ ~ In "/"%char t) /\
   exists c, In c (os_path_basename root) /\ c <> "."%char).
Proof.
  unfold os_path_splitext, _splitext.
  set (s := rfind "/"%char p). set (d := rfind "."%char p).
  destruct (s <? d)%Z eqn:Hsd; [|split; [apply app_nil_r|now left]].
  destruct (existsb _ _) eqn:He; [|split; [apply app_nil_r|now left]].
  apply Z.ltb_lt in Hsd. pose proof (rfind_bounds "/"%char p) as Bs.
  pose proof (rfind_bounds "."%char p) as Bd. fold s d in Bs, Bd.
  split; [apply firstn_skipn|right].
  (* [p] splits at the last dot *)
  destruct (skipn_rfind_dot p Hsd) as (t & H1 & H2 & H3). fold d in H1.
  split; [exists t; auto|].
  apply existsb_notdot_in in He. destruct He as (c & Hc & Hc').
  exists c. split; [|exact Hc'].
  rewrite os_path_basename_rfind.
  (* the last slash of the root is that of [p] *)
  assert (Hr : rfind "/"%char (firstn (Z.to_nat d) p) = s).
  { unfold s. symmetry. rewrite <- (firstn_skipn (Z.to_nat d) p) at 1. rewrite rfind_app, H1.
    rewrite (rfind_notin "/"%char ("."%char :: t)); [reflexivity|].
    intros [H|H]; [discriminate|contradiction]. }
  rewrite Hr. unfold py_slice in Hc.
  rewrite firstn_skipn_comm in Hc. unfold s in Hc.
  replace (Z.to_nat (rfind "/" p + 1) + (Z.to_nat d - Z.to_nat (rfind "/" p + 1)))
    with (Z.to_nat d) in Hc by lia.
  exact Hc.
Qed.

(** replace_suffix: replacing the suffix a second time with the same
    one-part suffix ([.] followed by no dot or slash) changes nothing, as
    long as the root left by the first call has a last component with a
    character other than a dot.  (For ["dir/"] the root is ["dir/"], the
    new name [dir/.c] has no extension, and the second call appends
    again.) *)
Theorem replace_suffix_idempotent (path t : str) :
  ~ In "."%char t -> ~ In "/"%char t ->
  (exists c, In c (os_path_basename (fst (os_path_splitext path))) /\ c <> "."%char) ->
  replace_suffix (replace_suffix path ("."%char :: t)) ("."%char :: t)
  = replace_suffix path ("."%char :: t).
Proof.
  intros Ht1 Ht2 Hb. unfold replace_suffix at 2 3.
  destruct (os_path_splitext path) as [root ext]. cbn [fst] in Hb.
  unfold replace_suffix, os_path_splitext, _splitext.
  assert (Hnt : ~ In "/"%char ("."%char :: t)) by (intros [H|H]; [discriminate|contradiction]).
  rewrite (rfind_app "/"%char), (rfind_notin "/"%char _ Hnt). cbn [Z.leb].
  rewrite (rfind_app "."%char). cbn [rfind]. rewrite (rfind_notin _ _ Ht1).
  rewrite Ascii.eqb_refl. cbn. rewrite Z.add_0_r.
  pose proof (rfind_bounds "/"%char root) as Bs.
  replace (rfind "/" root <? Z.of_nat (List.length root))%Z with true by (symmetry; apply Z.ltb_lt; lia).
  rewrite os_path_basename_rfind in Hb. apply existsb_notdot_in in Hb.
  unfold py_slice. rewrite Nat2Z.id, skipn_app, firstn_app.
  rewrite length_skipn, Nat.sub_diag. cbn [firstn]. rewrite app_nil_r.
  rewrite firstn_all2 by (rewrite length_skipn; lia).
  rewrite Hb. rewrite firstn_app, firstn_all, Nat.sub_diag. cbn [firstn]. now rewrite app_nil_r.
Qed.

(** ** int() and str_to_number *)

Lemma digit_char_facts (d : nat) :
  d < 36 ->
  Nat.eqb (_PyLong_DigitValue (digit_char d)) d && negb (py_isspace (digit_char d))
  && negb (Ascii.eqb (digit_char d) "_"%char) && negb (Ascii.eqb (digit_char d) "+"%char)
  && negb (Ascii.eqb (digit_char d) "-"%char)
  && (negb (Ascii.eqb (digit_char d) "0"%char) || Nat.eqb d 0)
  && (negb (is_x (digit_char d)) || Nat.eqb d 33)
  && (negb (is_o (digit_char d)) || Nat.eqb d 24)
  && (negb (is_b (digit_char d)) || Nat.eqb d 11) = true.
Proof.
  intros Hd.
  assert (H : forallb (fun d =>
    Nat.eqb (_PyLong_DigitValue (digit_char d)) d && negb (py_isspace (digit_char d))
    && negb (Ascii.eqb (digit_char d) "_"%char) && negb (Ascii.eqb (digit_char d) "+"%char)
    && negb (Ascii.eqb (digit_char d) "-"%char)
    && (negb (Ascii.eqb (digit_char d) "0"%char) || Nat.eqb d 0)
    && (negb (is_x (digit_char d)) || Nat.eqb d 33)
    && (negb (is_o (digit_char d)) || Nat.eqb d 24)
    && (negb (is_b (digit_char d)) || Nat.eqb d 11)) (seq 0 36) = true) by (vm_compute; reflexivity).
  rewrite forallb_forall in H. apply H, in_seq. lia.
Qed.

Ltac digit_facts d :=
  let F := fresh "F" in
  pose proof (digit_char_facts d ltac:(lia)) as F;
  repeat rewrite andb_true_iff in F;
  repeat rewrite orb_true_iff in F;
  repeat rewrite negb_true_iff in F;
  repeat rewrite Nat.eqb_eq in F;
  let F1 := fresh "Fval" in let F2 := fresh "Fsp" in let F3 := fresh "Fus" in
  let F4 := fresh "Fplus" in let F5 := fresh "Fminus" in let F6 := fresh "Fzero" in
  let F7 := fresh "Fx" in let F8 := fresh "Fo" in let F9 := fresh "Fb" in
  destruct F as [[[[[[[[F1 F2] F3] F4] F5] F6] F7] F8] F9].

Lemma scan_digits_map (b : nat) (ds : list nat) :
  b <= 36 -> Forall (fun d => d < b) ds ->
  scan_digits b false (map digit_char ds) = Some (ds, []).
Proof.
  intros Hb Hds. induction Hds as [|d ds Hd Hds IH]; [reflexivity|].
  cbn [map scan_digits]. digit_facts d.
  rewrite Fval. replace (d <? b) with true by (symmetry; apply Nat.ltb_lt; lia).
  now rewrite IH.
Qed.

Lemma digit_char_no_prefix (b d : nat) :
  d < b -> b <= 36 ->
  ((b =? 16) && is_x (digit_char d)) || ((b =? 8) && is_o (digit_char d))
  || ((b =? 2) && is_b (digit_char d)) = false.
Proof.
  intros Hd Hb. digit_facts d.
  destruct Fx as [->|Fx]; [|replace (b =? 16) with false by (symmetry; apply Nat.eqb_neq; lia)].
  all: destruct Fo as [->|Fo]; [|replace (b =? 8) with false by (symmetry; apply Nat.eqb_neq; lia)].
  all: destruct Fb as [->|Fb]; [|replace (b =? 2) with false by (symmetry; apply Nat.eqb_neq; lia)].
  all: now rewrite ?andb_false_r, ?andb_false_l.
Qed.

(** [int(s, base)] reads a plain digit string of an explicit base. *)
Lemma py_int_digits (m b : nat) (ds : list nat) :
  2 <= b <= 36 -> ds <> [] -> Forall (fun d => d < b) ds ->
  (Nat.land b (b - 1) = 0 \/ m = 0 \/ List.length ds <= m) ->
  py_int m (map digit_char ds) b = Ok (digits_value b ds).
Proof.
  intros Hb Hne Hds Hm. unfold py_int.
  replace ((negb (b =? 0) && (b <? 2)) || (36 <? b)) with false
    by (symmetry; apply orb_false_iff; split;
        [apply andb_false_iff; right; apply Nat.ltb_ge; lia|apply Nat.ltb_ge; lia]).
  destruct ds as [|d ds']; [contradiction|].
  pose proof (Forall_inv Hds) as Hd. cbv beta in Hd.
  digit_facts d.
  cbn [map drop_while]. rewrite Fsp, Fplus, Fminus.
  replace (b =? 0) with false by (symmetry; apply Nat.eqb_neq; lia).
  cbv iota beta zeta.
  destruct ds' as [|d2 ds''].
  2: (cbn [map]; pose proof (Forall_inv (Forall_inv_tail Hds)) as Hd2; cbv beta in Hd2;
       rewrite (digit_char_no_prefix b d2 Hd2 ltac:(lia)), andb_false_r).
  all: cbn [map]; cbv iota; rewrite Fus; rewrite <- ?map_cons.
  all: try (replace [digit_char d] with (map digit_char [d]) by reflexivity); rewrite scan_digits_map by first [lia | exact Hds].
  all: cbv iota beta zeta; cbn [andb is_nil negb drop_while].
  all: replace (negb (Nat.land b (b - 1) =? 0) && negb (m =? 0) && (m <? _)) with false
         by (destruct Hm as [Hm|[Hm|Hm]];
             [rewrite Hm; reflexivity|rewrite Hm; now rewrite andb_false_r|
              replace (m <? _) with false by (symmetry; apply Nat.ltb_ge; exact Hm);
              now rewrite andb_false_r]).
  all: now rewrite Z.mul_1_l.
Qed.

(** A character [int()] accepts as a digit of a base up to 36 ([0-9],
    [a-z] or [A-Z]) is no space, underscore or sign, and is one of the
    prefix letters only with that letter's digit value. *)
Lemma digit_value_char_facts (c : ascii) :
  _PyLong_DigitValue c < 36 ->
  negb (py_isspace c) && negb (Ascii.eqb c "_"%char) && negb (Ascii.eqb c "+"%char)
  && negb (Ascii.eqb c "-"%char)
  && (negb (is_x c) || Nat.eqb (_PyLong_DigitValue c) 33)
  && (negb (is_o c) || Nat.eqb (_PyLong_DigitValue c) 24)
  && (negb (is_b c) || Nat.eqb (_PyLong_DigitValue c) 11) = true.
Proof.
  assert (H : forallb (fun n => let c := ascii_of_nat n in
    implb (_PyLong_DigitValue c <? 36)
      (negb (py_isspace c) && negb (Ascii.eqb c "_"%char) && negb (Ascii.eqb c "+"%char)
       && negb (Ascii.eqb c "-"%char)
       && (negb (is_x c) || Nat.eqb (_PyLong_DigitValue c) 33)
       && (negb (is_o c) || Nat.eqb (_PyLong_DigitValue c) 24)
       && (negb (is_b c) || Nat.eqb (_PyLong_DigitValue c) 11))) (seq 0 256) = true)
    by (vm_compute; reflexivity).
  intros Hc. rewrite forallb_forall in H.
  specialize (H (nat_of_ascii c) (proj2 (in_seq _ _ _) (conj (Nat.le_0_l _)
                                   (Ascii.nat_ascii_bounded c)))).
  cbv zeta in H. rewrite ascii_nat_embedding in H.
  apply Nat.ltb_lt in Hc. now rewrite Hc in H.
Qed.

Ltac char_facts c :=
  let F := fresh "F" in
  pose proof (digit_value_char_facts c ltac:(lia)) as F;
  repeat rewrite andb_true_iff in F;
  repeat rewrite orb_true_iff in F;
  repeat rewrite negb_true_iff in F;
  repeat rewrite Nat.eqb_eq in F;
  let F2 := fresh "Fsp" in let F3 := fresh "Fus" in
  let F4 := fresh "Fplus" in let F5 := fresh "Fminus" in
  let F7 := fresh "Fx" in let F8 := fresh "Fo" in let F9 := fresh "Fb" in
  destruct F as [[[[[[F2 F3] F4] F5] F7] F8] F9].

Lemma scan_digits_chars (b : nat) (cs : str) :
  Forall (fun c => _PyLong_DigitValue c < b) cs ->
  scan_digits b false cs = Some (map _PyLong_DigitValue cs, []).
Proof.
  intros Hcs. induction Hcs as [|c cs Hc Hcs IH]; [reflexivity|].
  cbn [scan_digits map]. apply Nat.ltb_lt in Hc. now rewrite Hc, IH.
Qed.

Lemma digit_value_char_no_prefix (b : nat) (c : ascii) :
  _PyLong_DigitValue c < b -> b <= 36 ->
  ((b =? 16) && is_x c) || ((b =? 8) && is_o c) || ((b =? 2) && is_b c) = false.
Proof.
  intros Hc Hb. char_facts c.
  destruct Fx as [->|Fx]; [|replace (b =? 16) with false by (symmetry; apply Nat.eqb_neq; lia)].
  all: destruct Fo as [->|Fo]; [|replace (b =? 8) with false by (symmetry; apply Nat.eqb_neq; lia)].
  all: destruct Fb as [->|Fb]; [|replace (b =? 2) with false by (symmetry; apply Nat.eqb_neq; lia)].
  all: now rewrite ?andb_false_r, ?andb_false_l.
Qed.

(** [int(s, base)] reads a string of digits of an explicit base, written
    in either case. *)
Lemma py_int_chars (m b : nat) (cs : str) :
  2 <= b <= 36 -> cs <> [] -> Forall (fun c => _PyLong_DigitValue c < b) cs ->
  (Nat.land b (b - 1) = 0 \/ m = 0 \/ List.length cs <= m) ->
  py_int m cs b = Ok (digits_value b (map _PyLong_DigitValue cs)).
Proof.
  intros Hb Hne Hcs Hm. unfold py_int.
  replace ((negb (b =? 0) && (b <? 2)) || (36 <? b)) with false
    by (symmetry; apply orb_false_iff; split;
        [apply andb_false_iff; right; apply Nat.ltb_ge; lia|apply Nat.ltb_ge; lia]).
  destruct cs as [|c cs']; [contradiction|].
  pose proof (Forall_inv Hcs) as Hc. cbv beta in Hc.
  char_facts c.
  cbn [drop_while]. rewrite Fsp, Fplus, Fminus.
  replace (b =? 0) with false by (symmetry; apply Nat.eqb_neq; lia).
  cbv iota beta zeta.
  destruct cs' as [|c2 cs''].
  2: (pose proof (Forall_inv (Forall_inv_tail Hcs)) as Hc2; cbv beta in Hc2;
       rewrite (digit_value_char_no_prefix b c2 Hc2 ltac:(lia)), andb_false_r).
  all: cbv iota; rewrite Fus; rewrite scan_digits_chars by exact Hcs.
  all: cbv iota beta zeta; cbn [andb is_nil negb drop_while map].
  all: match goal with |- context [Nat.ltb _ ?X] =>
         replace (negb (Nat.land b (b - 1) =? 0) && negb (m =? 0) && (m <? X)) with false
         by (destruct Hm as [Hm|[Hm|Hm]];
             [rewrite Hm; reflexivity|rewrite Hm; now rewrite andb_false_r|
              replace (m <? X) with false
                by (symmetry; apply Nat.ltb_ge; revert Hm; cbn; rewrite ?length_map; lia);
              now rewrite andb_false_r])
       end.
  all: now rewrite Z.mul_1_l.
Qed.

(** Python's base-0 reading of a decimal digit string without a leading
    zero. *)
Lemma py_int_decimal (m : nat) (d : nat) (ds : list nat) :
  0 < d < 10 -> Forall (fun d => d < 10) ds ->
  (m = 0 \/ S (List.length ds) <= m) ->
  py_int m (map digit_char (d :: ds)) 0 = Ok (digits_value 10 (d :: ds)).
Proof.
  intros Hd Hds Hm. digit_facts d.
  unfold py_int. change ((negb (0 =? 0) && (0 <? 2)) || (36 <? 0)) with false.
  change (0 =? 0) with true. cbn [map drop_while]. rewrite Fsp, Fplus, Fminus.
  cbv iota beta zeta.
  destruct Fzero as [Fzero|Fzero]; [|lia]. rewrite Fzero. cbn [negb]. cbv iota beta zeta.
  destruct ds as [|d2 ds''].
  2: (cbn [map]; pose proof (Forall_inv Hds) as Hd2; cbv beta in Hd2;
       rewrite (digit_char_no_prefix 10 d2 Hd2 ltac:(lia)), andb_false_r).
  all: cbn [map]; cbv iota; rewrite Fus; rewrite <- ?map_cons.
  all: try (replace [digit_char d] with (map digit_char [d]) by reflexivity); rewrite scan_digits_map by first [lia | constructor; [lia | exact Hds]].
  all: cbv iota beta zeta; cbn [andb is_nil negb drop_while].
  all: replace (negb (Nat.land 10 (10 - 1) =? 0) && negb (m =? 0) && (m <? _)) with false
         by (destruct Hm as [Hm|Hm];
             [rewrite Hm; reflexivity|
              replace (m <? _) with false by (symmetry; apply Nat.ltb_ge; exact Hm);
              now rewrite andb_false_r]).
  all: now rewrite Z.mul_1_l.
Qed.
Lemma sign_prefix_cases (neg : bool) (c : ascii) (rest : str) :
  Ascii.eqb c "-"%char = false ->
  (match (if neg then lit "-" else []) ++ c :: rest with
   | c' :: value' => if Ascii.eqb c' "-"%char then (true, value') else (false, (if neg then lit "-" else []) ++ c :: rest)
   | [] => (false, (if neg then lit "-" else []) ++ c :: rest)
   end) = (neg, c :: rest).
Proof. intros Hc. destruct neg; cbn; [reflexivity|now rewrite Hc]. Qed.

Lemma neg_result (neg : bool) (r : result Z py_error) (v : Z) :
  r = Ok v ->
  match r with Ok v => Ok (if neg then (- v)%Z else v) | Exc e => Exc e end
  = Ok (if neg then (- v)%Z else v).
Proof. now intros ->. Qed.

(** str_to_number: a hexadecimal, octal or binary literal ([0x], [0X],
    [0o], [0O], [0b], [0B] followed by one or more digits of the base,
    each written in either case, with an optional minus sign) is read as
    its value in that base. *)
Theorem str_to_number_prefixed (m b : nat) (c : ascii) (neg : bool) (cs : str) :
  In (b, c) [(16, "x"%char); (16, "X"%char); (8, "o"%char); (8, "O"%char);
             (2, "b"%char); (2, "B"%char)] ->
  cs <> [] -> Forall (fun d => _PyLong_DigitValue d < b) cs ->
  str_to_number m ((if neg then lit "-" else []) ++ "0"%char :: c :: cs)
  = Ok (if neg then (- digits_value b (map _PyLong_DigitValue cs))%Z
        else digits_value b (map _PyLong_DigitValue cs)).
Proof.
  intros Hin Hne Hcs. unfold str_to_number.
  rewrite sign_prefix_cases by reflexivity. cbv iota beta zeta.
  change (List.length ("0"%char :: c :: cs) <? 2) with false.
  change (Ascii.eqb "0" "0") with true. cbv iota.
  apply neg_result.
  cbn in Hin.
  destruct Hin as [H|[H|[H|[H|[H|[H|[]]]]]]]; injection H as <- <-;
    change (is_x "x") with true; change (is_x "X") with true;
    change (is_x "o") with false; change (is_x "O") with false;
    change (is_x "b") with false; change (is_x "B") with false;
    change (is_o "o") with true; change (is_o "O") with true;
    change (is_o "b") with false; change (is_o "B") with false;
    change (is_b "b") with true; change (is_b "B") with true; cbv iota;
    (apply py_int_chars; [lia|exact Hne|exact Hcs|left; reflexivity]).
Qed.

(** str_to_number: a literal of a leading zero followed by octal digits
    (Python 2's [0136]), with an optional minus sign, is read in base 8. *)
Theorem str_to_number_old_octal (m : nat) (neg : bool) (ds : list nat) :
  Forall (fun d => d < 8) ds ->
  str_to_number m ((if neg then lit "-" else []) ++ "0"%char :: map digit_char ds)
  = Ok (if neg then (- digits_value 8 ds)%Z else digits_value 8 ds).
Proof.
  intros Hds. unfold str_to_number.
  rewrite sign_prefix_cases by reflexivity. cbv iota beta zeta.
  apply neg_result.
  destruct ds as [|d ds'].
  - destruct m; reflexivity.
  - pose proof (Forall_inv Hds) as Hd. cbv beta in Hd. digit_facts d.
    change (List.length ("0"%char :: map digit_char (d :: ds')) <? 2) with false.
    cbn [map]. change (Ascii.eqb "0" "0") with true. cbv iota.
    destruct Fx as [->|]; [|lia]. destruct Fo as [->|]; [|lia]. destruct Fb as [->|]; [|lia].
    cbv iota.
    change ("0"%char :: digit_char d :: map digit_char ds') with (map digit_char (0 :: d :: ds')).
    rewrite py_int_digits
      by first [lia | discriminate | left; reflexivity | constructor; [lia|exact Hds]].
    reflexivity.
Qed.

Lemma str_to_number_decimal_value (m : nat) (neg : bool) (d : nat) (ds : list nat) :
  0 < d < 10 -> Forall (fun d => d < 10) ds ->
  (m = 0 \/ S (List.length ds) <= m) ->
  str_to_number m ((if neg then lit "-" else []) ++ map digit_char (d :: ds))
  = Ok (if neg then (- digits_value 10 (d :: ds))%Z else digits_value 10 (d :: ds)).
Proof.
  intros Hd Hds Hm. digit_facts d. unfold str_to_number. cbn [map].
  rewrite sign_prefix_cases by exact Fminus. cbv iota beta zeta.
  apply neg_result. rewrite <- map_cons.
  destruct (List.length (map digit_char (d :: ds)) <? 2).
  - apply py_int_decimal; assumption.
  - cbn [map]. destruct ds as [|d2 ds'].
    + apply py_int_decimal; assumption.
    + cbn [map]. destruct Fzero as [->|]; [|lia]. cbv iota.
      rewrite <- !map_cons. apply py_int_decimal; assumption.
Qed.

(** str_to_number: a decimal literal (digits without a leading zero,
    with an optional minus sign) is read as its decimal value, within the
    interpreter's limit on the length of decimal strings. *)
Theorem str_to_number_decimal (m : nat) (neg : bool) (d : nat) (ds : list nat) :
  0 < d < 10 -> Forall (fun d => d < 10) ds ->
  (m = 0 \/ S (List.length ds) <= m) ->
  str_to_number m ((if neg then lit "-" else []) ++ map digit_char (d :: ds))
  = Ok (if neg then (- digits_value 10 (d :: ds))%Z else digits_value 10 (d :: ds)).
Proof.
  intros Hd Hds Hm. now apply str_to_number_decimal_value.
Qed.

(** str_to_number: an underscore right after the [0x], [0o] or [0b]
    prefix (as in [0x_1F], which Python's own literals allow) always makes
    [int()] raise [ValueError], because the prefix has already been cut
    off. *)
Theorem str_to_number_underscore_after_prefix (m : nat) (neg : bool) (c : ascii) (w : str) :
  is_x c || is_o c || is_b c = true ->
  str_to_number m ((if neg then lit "-" else []) ++ "0"%char :: c :: "_"%char :: w)
  = Exc ValueError.
Proof.
  intros Hc. unfold str_to_number.
  rewrite sign_prefix_cases by reflexivity. cbv iota beta zeta.
  change (List.length ("0"%char :: c :: "_"%char :: w) <? 2) with false.
  change (Ascii.eqb "0" "0") with true. cbv iota.
  assert (Hu : forall b, 2 <= b <= 36 -> py_int m ("_"%char :: w) b = Exc ValueError).
  { intros b Hb. unfold py_int.
    replace ((negb (b =? 0) && (b <? 2)) || (36 <? b)) with false
      by (symmetry; apply orb_false_iff; split;
          [apply andb_false_iff; right; apply Nat.ltb_ge; lia|apply Nat.ltb_ge; lia]).
    replace (b =? 0) with false by (symmetry; apply Nat.eqb_neq; lia).
    cbn [drop_while]. change (py_isspace "_") with false.
    change (Ascii.eqb "_" "+") with false. change (Ascii.eqb "_" "-") with false.
    cbv iota beta zeta. destruct w as [|c1 w']; reflexivity. }
  destruct (is_x c); [now rewrite Hu by lia|].
  destruct (is_o c); [now rewrite Hu by lia|].
  destruct (is_b c); [now rewrite Hu by lia|discriminate].
Qed.

(** ** build_hex_version *)

Lemma digit_char_not_sep (d : nat) : d < 36 -> is_version_sep (digit_char d) = false.
Proof.
  intros Hd.
  assert (H : forallb (fun d => negb (is_version_sep (digit_char d))) (seq 0 36) = true)
    by (vm_compute; reflexivity).
  rewrite forallb_forall in H. specialize (H d). rewrite in_seq in H.
  apply negb_true_iff, H. lia.
Qed.

Lemma split_version_digits (ds : list nat) (r cur : str) :
  Forall (fun d => d < 36) ds ->
  split_version_aux (map digit_char ds ++ r) cur false
  = split_version_aux r (rev (map digit_char ds) ++ cur) false.
Proof.
  intros Hds. revert cur; induction Hds as [|d ds Hd Hds IH]; intros cur; [reflexivity|].
  cbn [map app split_version_aux]. rewrite (digit_char_not_sep d Hd), IH.
  cbn [rev]. now rewrite <- app_assoc.
Qed.

(** A run of separators followed by a digit string. *)
Lemma split_version_sep (sep : str) (d : nat) (ds : list nat) (r cur : str) :
  sep <> [] -> forallb is_version_sep sep = true -> d < 36 -> Forall (fun d => d < 36) ds ->
  split_version_aux (sep ++ map digit_char (d :: ds) ++ r) cur false
  = rev cur :: sep :: split_version_aux r (rev (map digit_char (d :: ds))) false.
Proof.
  intros Hne Hs Hd Hds. destruct sep as [|c sep']; [contradiction|].
  cbn [forallb] in Hs. apply andb_true_iff in Hs as [Hc Hs].
  cbn [app split_version_aux]. rewrite Hc. f_equal.
  assert (Gen : forall acc, split_version_aux (sep' ++ map digit_char (d :: ds) ++ r) acc true
                = rev (rev sep' ++ acc) :: split_version_aux r (rev (map digit_char (d :: ds))) false).
  { clear Hne. induction sep' as [|c' sep'' IH]; intros acc.
    - cbn [app map split_version_aux]. rewrite (digit_char_not_sep d Hd).
      rewrite split_version_digits by exact Hds. cbn [rev app].
      reflexivity.
    - cbn [forallb] in Hs. apply andb_true_iff in Hs as [Hc' Hs].
      cbn [app split_version_aux]. rewrite Hc'. rewrite (IH Hs). cbn [rev].
      now rewrite <- app_assoc. }
  rewrite Gen. rewrite rev_app_distr, rev_involutive. reflexivity.
Qed.

Lemma str_eqb_digits_sep (ds : list nat) (t : str) :
  Forall (fun d => d < 36) ds -> ds <> [] -> t <> [] -> forallb is_version_sep t = true ->
  str_eqb (map digit_char ds) t = false.
Proof.
  intros Hds Hne Ht Hs. destruct ds as [|d ds]; [contradiction|].
  destruct t as [|c t]; [contradiction|]. cbn [map str_eqb].
  pose proof (digit_char_not_sep d (Forall_inv Hds)) as Hd.
  cbn [forallb] in Hs. apply andb_true_iff in Hs as [Hc _].
  destruct (Ascii.eqb_spec (digit_char d) c) as [<-|]; [congruence|reflexivity].
Qed.

Lemma hex_version_step_digits (m : nat) (ds : list nat) (digits : list Z) (st : Z) :
  ds <> [] -> Forall (fun d => d < 10) ds -> (m = 0 \/ List.length ds <= m) ->
  hex_version_step m (Ok (digits, st)) (map digit_char ds)
  = Ok (digits ++ [digits_value 10 ds], st).
Proof.
  intros Hne Hds Hm. assert (H36 : Forall (fun d => d < 36) ds)
    by (eapply Forall_impl; [|exact Hds]; cbv beta; lia).
  unfold hex_version_step.
  rewrite !str_eqb_digits_sep by (exact H36 || exact Hne || discriminate || reflexivity).
  cbn [negb]. rewrite py_int_digits by (lia || exact Hne || exact Hds || (right; exact Hm)).
  reflexivity.
Qed.

Lemma hex_version_step_sep (m : nat) (digits : list Z) (st : Z) :
  hex_version_step m (Ok (digits, st)) (lit ".") = Ok (digits, st).
Proof. reflexivity. Qed.

Lemma hex_version_step_tag (m : nat) (t : release_tag) (digits : list Z) (st : Z) :
  hex_version_step m (Ok (digits, st)) (tag_str t)
  = Ok (firstn 3 (digits ++ [0; 0])%Z, tag_status t).
Proof. destruct t; reflexivity. Qed.

Lemma tag_str_sep (t : release_tag) :
  tag_str t <> [] /\ forallb is_version_sep (tag_str t) = true.
Proof. destruct t; split; (discriminate || reflexivity). Qed.

Lemma shiftl_8 (h : Z) : Z.shiftl h 8 = (h * 256)%Z.
Proof. rewrite Z.shiftl_mul_pow2 by lia. reflexivity. Qed.

Lemma split_version_alternating (first : list nat) (rest : list (str * list nat)) :
  first <> [] -> Forall (fun d => d < 36) first ->
  Forall (fun p => fst p <> [] /\ forallb is_version_sep (fst p) = true /\
                   snd p <> [] /\ Forall (fun d => d < 36) (snd p)) rest ->
  split_version (map digit_char first ++ List.concat (map version_piece rest))
  = map digit_char first :: List.concat (map version_pieces rest).
Proof.
  intros Hne Hf Hr. unfold split_version.
  rewrite split_version_digits by exact Hf. rewrite app_nil_r.
  clear Hne. revert first Hf; induction Hr as [|[s ds] rest Hp Hr IH]; intros first Hf.
  - cbn. now rewrite rev_involutive.
  - cbn [map List.concat] in *. unfold version_piece at 1, version_pieces at 1.
    cbn [fst snd] in *.
    destruct Hp as (Hs1 & Hs2 & Hd1 & Hd2). destruct ds as [|d ds']; [contradiction|].
    rewrite <- app_assoc, split_version_sep by (inversion Hd2; assumption).
    rewrite rev_involutive, IH by exact Hd2. reflexivity.
Qed.

Lemma version_str_pieces (dx dy : list nat) (dz : option (list nat))
  (pre : option (release_tag * list nat)) :
  version_str dx dy dz pre
  = map digit_char dx ++ List.concat (map version_piece
      ([(lit ".", dy)] ++ match dz with Some d => [(lit ".", d)] | None => [] end ++
       match pre with Some (t, dn) => [(tag_str t, dn)] | None => [] end)).
Proof.
  unfold version_str. destruct dz as [z|], pre as [[t n]|]; cbn [map List.concat version_piece fst snd app];
    rewrite ?app_nil_r; cbn [lit list_ascii_of_string app]; now rewrite <- ?app_assoc.
Qed.

Lemma build_hex_version_value (m : nat) (dx dy : list nat) (dz : option (list nat))
  (pre : option (release_tag * list nat)) :
  (forall ds, ds = dx \/ ds = dy \/ dz = Some ds \/ (exists t, pre = Some (t, ds)) ->
     ds <> [] /\ Forall (fun d => d < 10) ds /\ (m = 0 \/ List.length ds <= m)) ->
  build_hex_version m (version_str dx dy dz pre)
  = Ok (lit "0x" ++ format_08X
          (digits_value 10 dx * 2 ^ 24 + digits_value 10 dy * 2 ^ 16
           + match dz with Some d => digits_value 10 d | None => 0 end * 2 ^ 8
           + match pre with Some (t, dn) => tag_status t + digits_value 10 dn | None => 240 end)%Z).
Proof.
  intros Hc.
  assert (H36 : forall ds, ds <> [] /\ Forall (fun d => d < 10) ds /\ (m = 0 \/ List.length ds <= m) ->
            Forall (fun d => d < 36) ds).
  { intros ds (_ & Hds & _). eapply Forall_impl; [|exact Hds]. cbv beta; lia. }
  pose proof (Hc dx (or_introl eq_refl)) as Hx.
  pose proof (Hc dy (or_intror (or_introl eq_refl))) as Hy.
  unfold build_hex_version. rewrite version_str_pieces.
  rewrite split_version_alternating
    by (try exact (proj1 Hx); try exact (H36 _ Hx);
        destruct dz as [z|], pre as [[t n]|]; cbn [app];
        repeat constructor; cbn [fst snd];
        first [ discriminate | reflexivity | apply tag_str_sep | apply (proj1 Hy) | apply (H36 _ Hy)
              | apply (proj1 (Hc _ ltac:(auto))) | apply (H36 _ (Hc _ ltac:(auto)))
              | apply (proj1 (Hc _ ltac:(right; right; right; eauto)))
              | apply (H36 _ (Hc _ ltac:(right; right; right; eauto))) ]).
  destruct Hx as (Hx1 & Hx2 & Hx3), Hy as (Hy1 & Hy2 & Hy3).
  destruct dz as [z|], pre as [[t n]|]; cbn [app map List.concat fold_left];
    unfold version_pieces; cbn [fst snd app fold_left].
  all: try (pose proof (Hc z ltac:(right; right; left; reflexivity)) as (Hz1 & Hz2 & Hz3)).
  all: try (pose proof (Hc n ltac:(right; right; right; exists t; reflexivity)) as (Hn1 & Hn2 & Hn3)).
  all: repeat first [ rewrite hex_version_step_sep | rewrite hex_version_step_tag
                    | rewrite hex_version_step_digits by assumption ].
  all: cbn [app firstn add_at_3 nth_error skipn fold_left].
  all: do 3 f_equal; rewrite !shiftl_8; ring.
Qed.
Lemma hex_digits_aux_acc (fuel : nat) (n : Z) (acc : str) :
  hex_digits_aux fuel n acc = hex_digits_aux fuel n [] ++ acc.
Proof.
  revert n acc; induction fuel as [|f IH]; intros n acc; [reflexivity|].
  cbn [hex_digits_aux]. destruct (n =? 0)%Z; [reflexivity|].
  rewrite IH, (IH _ [_]). now rewrite <- app_assoc.
Qed.

Lemma hex_digits_aux_fuel (f k : nat) (n : Z) (acc : str) :
  (0 <= n < 16 ^ Z.of_nat f)%Z -> hex_digits_aux (f + k) n acc = hex_digits_aux f n acc.
Proof.
  revert n acc; induction f as [|f IH]; intros n acc Hn.
  - cbn in Hn. assert (n = 0%Z) as -> by lia. destruct k; reflexivity.
  - cbn [Nat.add hex_digits_aux]. destruct (n =? 0)%Z eqn:Hz; [reflexivity|].
    apply IH. rewrite Nat2Z.inj_succ, Z.pow_succ_r in Hn by lia.
    split; [apply Z.div_pos; lia|]. apply Z.div_lt_upper_bound; lia.
Qed.

Lemma hex_digits_fixed_pad (f : nat) (n : Z) :
  (0 <= n < 16 ^ Z.of_nat f)%Z ->
  hex_digits_fixed f n
  = repeat "0"%char (f - List.length (hex_digits_aux f n [])) ++ hex_digits_aux f n [] /\
  List.length (hex_digits_aux f n []) <= f.
Proof.
  revert n; induction f as [|f IH]; intros n Hn.
  - cbn in Hn. assert (n = 0%Z) as -> by lia. split; reflexivity.
  - rewrite Nat2Z.inj_succ, Z.pow_succ_r in Hn by lia.
    assert (Hq : (0 <= n / 16 < 16 ^ Z.of_nat f)%Z)
      by (split; [apply Z.div_pos; lia|apply Z.div_lt_upper_bound; lia]).
    destruct (IH _ Hq) as [H1 H2].
    cbn [hex_digits_fixed hex_digits_aux]. destruct (Z.eqb_spec n 0) as [->|Hnz].
    + cbn [List.length]. rewrite Nat.sub_0_r, app_nil_r.
      change (0 / 16)%Z with 0%Z in *. rewrite H1. cbn [hex_digits_aux].
      destruct f; cbn [hex_digits_aux List.length]; [split; [reflexivity|lia]|].
      split; [|lia]. change (0 =? 0)%Z with true. cbv iota. rewrite Nat.sub_0_r, app_nil_r.
      change (hex_char (0 mod 16)) with "0"%char.
      rewrite <- (repeat_cons (S f) "0"%char). reflexivity.
    + rewrite hex_digits_aux_acc, H1, length_app. cbn [List.length].
      split; [|lia]. rewrite <- app_assoc. f_equal. f_equal. lia.
Qed.

Lemma format_08X_fixed (n : Z) : (0 <= n < 2 ^ 32)%Z -> format_08X n = hex_digits_fixed 8 n.
Proof.
  intros Hn. unfold format_08X.
  replace (n <? 0)%Z with false by (symmetry; apply Z.ltb_ge; lia).
  rewrite Z.abs_eq by lia. cbn [app List.length]. rewrite Nat.sub_0_r.
  unfold hex_digits. destruct (Z.eqb_spec n 0) as [->|Hnz]; [reflexivity|].
  assert (H8 : (0 <= n < 16 ^ Z.of_nat 8)%Z) by (cbn; lia).
  destruct (hex_digits_fixed_pad 8 n H8) as [H1 _]. rewrite H1.
  set (F := S (Z.to_nat (Z.log2 n))).
  assert (HF : (0 <= n < 16 ^ Z.of_nat F)%Z).
  { split; [lia|]. pose proof (Z.log2_spec n ltac:(lia)) as [_ Hl].
    unfold F. rewrite Nat2Z.inj_succ, Z2Nat.id by (apply Z.log2_nonneg).
    eapply Z.lt_le_trans; [exact Hl|]. rewrite <- Z.add_1_r.
    apply Z.pow_le_mono_l. lia. }
  rewrite <- (hex_digits_aux_fuel F 8 n [] HF), <- (hex_digits_aux_fuel 8 F n [] H8).
  now rewrite Nat.add_comm.
Qed.

Lemma hex_digits_fixed_split (a b : nat) (n : Z) :
  (0 <= n)%Z ->
  hex_digits_fixed (a + b) n = hex_digits_fixed a (n / 16 ^ Z.of_nat b) ++ hex_digits_fixed b n.
Proof.
  revert n; induction b as [|b IH]; intros n Hn.
  - cbn. rewrite Nat.add_0_r, Z.div_1_r, app_nil_r. reflexivity.
  - rewrite Nat.add_succ_r. cbn [hex_digits_fixed].
    rewrite IH by (apply Z.div_pos; lia). rewrite app_assoc. do 2 f_equal.
    rewrite Z.div_div by lia. f_equal. rewrite Nat2Z.inj_succ, Z.pow_succ_r by lia. ring.
Qed.

Lemma hex_digits_fixed_mod (k : nat) (n : Z) :
  (0 <= n)%Z -> hex_digits_fixed k n = hex_digits_fixed k (n mod 16 ^ Z.of_nat k).
Proof.
  revert n; induction k as [|k IH]; intros n Hn; [reflexivity|].
  cbn [hex_digits_fixed]. rewrite Nat2Z.inj_succ, Z.pow_succ_r by lia.
  assert (Hp : (0 < 16 ^ Z.of_nat k)%Z) by (apply Z.pow_pos_nonneg; lia).
  rewrite Z.rem_mul_r by lia.
  assert (E1 : ((n mod 16 + 16 * (n / 16 mod 16 ^ Z.of_nat k)) / 16 = n / 16 mod 16 ^ Z.of_nat k)%Z).
  { rewrite Z.add_comm, Z.mul_comm, Z.div_add_l by lia.
    rewrite (Z.div_small (n mod 16) 16) by (apply Z.mod_pos_bound; lia). lia. }
  assert (E2 : ((n mod 16 + 16 * (n / 16 mod 16 ^ Z.of_nat k)) mod 16 = n mod 16)%Z).
  { rewrite Z.mul_comm, Z.mod_add by lia. apply Z.mod_mod. lia. }
  rewrite E1, E2. f_equal.
  rewrite (IH (n / 16)%Z) by (apply Z.div_pos; lia).
  rewrite (IH (n / 16 mod 16 ^ Z.of_nat k)%Z) by (apply Z.mod_pos_bound; lia).
  now rewrite Z.mod_mod by lia.
Qed.

Lemma hex_digits_fixed_byte (k : nat) (a s : Z) :
  (0 <= a)%Z -> (0 <= s < 256)%Z ->
  hex_digits_fixed (k + 2) (a * 256 + s) = hex_digits_fixed k a ++ hex_digits_fixed 2 s.
Proof.
  intros Ha Hs. rewrite hex_digits_fixed_split by lia.
  change (16 ^ Z.of_nat 2)%Z with 256%Z.
  rewrite Z.div_add_l, Z.div_small, Z.add_0_r by lia. f_equal.
  rewrite hex_digits_fixed_mod by lia. change (16 ^ Z.of_nat 2)%Z with 256%Z.
  rewrite Z.add_comm, Z.mod_add, Z.mod_small by lia. reflexivity.
Qed.

(** The two [%02X] digits of a byte. *)
Lemma format_08X_bytes (x y z s : Z) :
  (0 <= x < 256)%Z -> (0 <= y < 256)%Z -> (0 <= z < 256)%Z -> (0 <= s < 256)%Z ->
  format_08X (x * 2 ^ 24 + y * 2 ^ 16 + z * 2 ^ 8 + s)%Z
  = hex_digits_fixed 2 x ++ hex_digits_fixed 2 y ++ hex_digits_fixed 2 z ++ hex_digits_fixed 2 s.
Proof.
  intros Hx Hy Hz Hs. rewrite format_08X_fixed by lia.
  replace (x * 2 ^ 24 + y * 2 ^ 16 + z * 2 ^ 8 + s)%Z with (((x * 256 + y) * 256 + z) * 256 + s)%Z by ring.
  change 8 with (6 + 2). rewrite hex_digits_fixed_byte by lia.
  change 6 with (4 + 2). rewrite hex_digits_fixed_byte by lia.
  change 4 with (2 + 2). rewrite hex_digits_fixed_byte by lia.
  now rewrite <- !app_assoc.
Qed.

Lemma digits_value_nonneg (base : nat) (ds : list nat) : (0 <= digits_value base ds)%Z.
Proof.
  unfold digits_value. enough (forall acc, (0 <= acc)%Z ->
    (0 <= fold_left (fun acc d => acc * Z.of_nat base + Z.of_nat d)%Z ds acc)%Z) as E
    by (apply E; lia).
  induction ds as [|d ds IH]; intros acc Ha; cbn [fold_left]; [exact Ha|].
  apply IH. nia.
Qed.

(** build_hex_version: a version ["X.Y"] or ["X.Y.Z"] (decimal
    components), optionally followed by [a], [b] or [rc] and a number [N],
    becomes ['0x%08X'] of [X * 2^24 + Y * 2^16 + Z * 2^8 + S], where a
    missing [Z] is 0 and [S] is [0xF0] for a final release and
    [0xA0], [0xB0] or [0xC0] plus [N] for a pre-release, as long as each
    component stays within the interpreter's limit on decimal strings.
    Components are added, not masked: one of 256 or more spills into the
    byte above. *)
Theorem build_hex_version_spec (m : nat) (dx dy : list nat) (dz : option (list nat))
  (pre : option (release_tag * list nat)) :
  (forall ds, ds = dx \/ ds = dy \/ dz = Some ds \/ (exists t, pre = Some (t, ds)) ->
     ds <> [] /\ Forall (fun d => d < 10) ds /\ (m = 0 \/ List.length ds <= m)) ->
  build_hex_version m (version_str dx dy dz pre)
  = Ok (lit "0x" ++ format_08X
          (digits_value 10 dx * 2 ^ 24 + digits_value 10 dy * 2 ^ 16
           + match dz with Some d => digits_value 10 d | None => 0 end * 2 ^ 8
           + match pre with Some (t, dn) => tag_status t + digits_value 10 dn | None => 240 end)%Z).
Proof. apply build_hex_version_value. Qed.

(** build_hex_version: when every component fits in a byte, the result
    is ["0x"] followed by two upper-case hexadecimal digits for each of
    [X], [Y], [Z] (0 when missing) and the release byte, the readable
    form of [PY_VERSION_HEX]. *)
Theorem build_hex_version_bytes (m : nat) (dx dy : list nat) (dz : option (list nat))
  (pre : option (release_tag * list nat)) :
  (forall ds, ds = dx \/ ds = dy \/ dz = Some ds \/ (exists t, pre = Some (t, ds)) ->
     ds <> [] /\ Forall (fun d => d < 10) ds /\ (m = 0 \/ List.length ds <= m)) ->
  (digits_value 10 dx < 256)%Z -> (digits_value 10 dy < 256)%Z ->
  (match dz with Some d => digits_value 10 d | None => 0 end < 256)%Z ->
  (match pre with Some (t, dn) => tag_status t + digits_value 10 dn | None => 240 end < 256)%Z ->
  build_hex_version m (version_str dx dy dz pre)
  = Ok (lit "0x" ++ hex_digits_fixed 2 (digits_value 10 dx)
        ++ hex_digits_fixed 2 (digits_value 10 dy)
        ++ hex_digits_fixed 2 (match dz with Some d => digits_value 10 d | None => 0 end)
        ++ hex_digits_fixed 2
             (match pre with Some (t, dn) => tag_status t + digits_value 10 dn | None => 240 end)).
Proof.
  intros Hc Hx Hy Hz Hs. rewrite (build_hex_version_value m dx dy dz pre Hc).
  pose proof (digits_value_nonneg 10 dx). pose proof (digits_value_nonneg 10 dy).
  rewrite format_08X_bytes; [reflexivity|lia|lia| |].
  - destruct dz as [d|]; [pose proof (digits_value_nonneg 10 d)|]; lia.
  - destruct pre as [[t dn]|]; [pose proof (digits_value_nonneg 10 dn); destruct t; cbn [tag_status] in *|]; lia.
Qed.


(** ** Output files *)

Lemma str_eqb_refl (p : str) : str_eqb p p = true.
Proof. now apply str_eqb_eq. Qed.

Lemma is_cython_generated_file_exists (fs : fsys) (path : str) (allow_failed : bool) :
  is_cython_generated_file fs path allow_failed false = true ->
  exists c t, fs_nodes fs path = Some (NFile c t) /\ read_denied fs path = false.
Proof.
  unfold is_cython_generated_file, os_path_exists, read_prefix.
  destruct (fs_nodes fs path) as [[c t|]|]; try discriminate.
  destruct (read_denied fs path); [discriminate|]. intros _. now exists c, t.
Qed.

(** What [castrate_file] leaves at each path. *)
Lemma castrate_file_nodes (fs : fsys) (path : str) (st : option (Z * Z)) (q : str) :
  fs_nodes (castrate_file fs path st) q =
  if str_eqb q path then
    if is_cython_generated_file fs path true false then
      if unlink_denied fs path then fs_nodes fs path
      else if create_denied fs path then None
      else Some (NFile (failure_marker ++ [newline])
                   match st with
                   | Some (a, m) => (a, m - 1)%Z
                   | None => (fs_now fs, fs_now fs)
                   end)
    else fs_nodes fs path
  else fs_nodes fs q.
Proof.
  unfold castrate_file.
  destruct (is_cython_generated_file fs path true false) eqn:Hg; cbn [negb].
  - destruct (is_cython_generated_file_exists fs path true Hg) as (c & t & Hn & _).
    unfold open_new_file, os_path_exists, os_unlink. rewrite Hn.
    destruct (unlink_denied fs path) eqn:Hu.
    + destruct (str_eqb q path) eqn:Hq; [apply str_eqb_eq in Hq; now subst|reflexivity].
    + unfold open_for_write. cbn [fs_set create_denied fs_nodes]. rewrite str_eqb_refl.
      destruct (create_denied fs path) eqn:Hc; [cbn; reflexivity|].
      unfold file_write. cbn [fs_set fs_nodes fs_now]. rewrite str_eqb_refl.
      destruct st as [[a m]|].
      * unfold os_utime. cbn [fs_set fs_nodes fs_now]. rewrite str_eqb_refl.
        cbn [fs_set fs_nodes]. destruct (str_eqb q path); reflexivity.
      * cbn [fs_set fs_nodes]. destruct (str_eqb q path); reflexivity.
  - destruct (str_eqb q path) eqn:Hq; [apply str_eqb_eq in Hq; now subst|reflexivity].
Qed.

(** [castrate_file] changes no failure flag and no clock. *)
Lemma castrate_file_flags (fs : fsys) (path : str) (st : option (Z * Z)) :
  read_denied (castrate_file fs path st) = read_denied fs /\
  unlink_denied (castrate_file fs path st) = unlink_denied fs /\
  create_denied (castrate_file fs path st) = create_denied fs /\
  fs_now (castrate_file fs path st) = fs_now fs.
Proof.
  unfold castrate_file.
  destruct (is_cython_generated_file fs path true false) eqn:Hg; cbn [negb]; [|tauto].
  destruct (is_cython_generated_file_exists fs path true Hg) as (c & t & Hn & _).
  unfold open_new_file, os_path_exists, os_unlink, open_for_write. rewrite Hn.
  destruct (unlink_denied fs path); [cbn; tauto|].
  cbn [fs_set create_denied fs_nodes]. rewrite str_eqb_refl.
  destruct (create_denied fs path); [cbn; tauto|].
  unfold file_write. cbn [fs_set fs_nodes]. rewrite str_eqb_refl.
  destruct st as [[a m]|]; [|cbn; tauto].
  unfold os_utime. cbn [fs_set fs_nodes]. rewrite str_eqb_refl. cbn; tauto.
Qed.


(** castrate_file: a file recognised as generated output (allowing the
    failure marker) whose unlink and re-creation succeed is replaced by the
    one line of the failure marker, with its times set to the access time
    and one second before the modification time of [st] (to the time of
    writing when [st] is [None]).  Afterwards [is_cython_generated_file]
    accepts it with [allow_failed=True] and rejects it with the default
    [allow_failed=False]. *)
Theorem castrate_file_marks_failed (fs : fsys) (path : str) (st : option (Z * Z)) (b : bool) :
  is_cython_generated_file fs path true false = true ->
  unlink_denied fs path = false -> create_denied fs path = false ->
  fs_nodes (castrate_file fs path st) path
  = Some (NFile (failure_marker ++ [newline])
            match st with Some (a, m) => (a, m - 1)%Z | None => (fs_now fs, fs_now fs) end) /\
  is_cython_generated_file (castrate_file fs path st) path true b = true /\
  is_cython_generated_file (castrate_file fs path st) path false b = false.
Proof.
  intros Hg Hu Hc.
  destruct (is_cython_generated_file_exists fs path true Hg) as (c & t & _ & Hr).
  assert (Hn : fs_nodes (castrate_file fs path st) path
    = Some (NFile (failure_marker ++ [newline])
              match st with Some (a, m) => (a, m - 1)%Z | None => (fs_now fs, fs_now fs) end)).
  { rewrite castrate_file_nodes, str_eqb_refl, Hg, Hu, Hc. reflexivity. }
  destruct (castrate_file_flags fs path st) as (Fr & _).
  split; [exact Hn|].
  unfold is_cython_generated_file, os_path_exists, read_prefix.
  rewrite Hn, Fr, Hr. split; vm_compute; reflexivity.
Qed.

Lemma same_but_atime_refl (n : option node) : same_but_atime n n.
Proof. destruct n as [[c [a m]|m]|]; cbn; auto. Qed.


(** castrate_file: when [open_new_file] raises, the error is swallowed;
    if the old file could not be unlinked it keeps its contents and
    modification time (only the read may have set its access time), but if
    it was unlinked and the new file could not be created, the output file
    is gone rather than marked as failed. *)
Theorem castrate_file_open_failure (fs : fsys) (path : str) (st : option (Z * Z)) :
  is_cython_generated_file fs path true false = true ->
  (unlink_denied fs path = true ->
     same_but_atime (fs_nodes (castrate_file fs path st) path) (fs_nodes fs path)) /\
  (unlink_denied fs path = false -> create_denied fs path = true ->
     fs_nodes (castrate_file fs path st) path = None).
Proof.
  intros Hg. rewrite castrate_file_nodes, str_eqb_refl, Hg.
  split; intros Hu; rewrite Hu; [apply same_but_atime_refl|]. intros Hc. now rewrite Hc.
Qed.


(** ** Source encodings *)

Lemma firstn_add_skipn {A} (n m : nat) (l : list A) :
  firstn (n + m) l = firstn n l ++ firstn m (skipn n l).
Proof.
  revert l; induction n as [|n IH]; intros l; [reflexivity|].
  destruct l as [|x l]; [now destruct m|]. cbn. now rewrite IH.
Qed.

Lemma split_nl_nonnil (s : str) : split_nl s <> [].
Proof.
  destruct s as [|c s]; cbn [split_nl]; [congruence|].
  destruct (Ascii.eqb c newline); [congruence|]. destruct (split_nl s); congruence.
Qed.

Lemma split_nl_app_line (l s : str) :
  forallb (fun x => negb (Ascii.eqb x newline)) l = true ->
  split_nl (l ++ newline :: s) = l :: split_nl s.
Proof.
  induction l as [|c l IH]; intros Hl.
  - cbn [app split_nl]. now rewrite Ascii.eqb_refl.
  - cbn [forallb] in Hl. cbn [app split_nl]. apply andb_true_iff in Hl as [Hc Hl].
    destruct (Ascii.eqb c newline); [discriminate|]. now rewrite IH.
Qed.

Lemma split_nl_line (l : str) :
  forallb (fun x => negb (Ascii.eqb x newline)) l = true -> split_nl l = [l].
Proof.
  induction l as [|c l IH]; intros Hl; [reflexivity|].
  cbn [forallb] in Hl. cbn [split_nl]. apply andb_true_iff in Hl as [Hc Hl].
  destruct (Ascii.eqb c newline); [discriminate|]. now rewrite IH.
Qed.

Lemma split_nl_decomp (a : str) :
  2 <= List.length (split_nl a) ->
  exists l a', a = l ++ newline :: a' /\
    forallb (fun x => negb (Ascii.eqb x newline)) l = true /\ split_nl a = l :: split_nl a'.
Proof.
  induction a as [|c a IH]; intros Hl; [cbn in Hl; lia|].
  cbn [split_nl] in Hl |- *. destruct (Ascii.eqb c newline) eqn:E.
  - apply Ascii.eqb_eq in E. subst c. now exists [], a.
  - destruct (split_nl a) as [|l ls] eqn:Hs; [now destruct (split_nl_nonnil a)|].
    cbn in Hl. destruct IH as (l' & a' & -> & Hl' & Hs'); [cbn; lia|].
    exists (c :: l'), a'. cbn [app forallb split_nl]. rewrite E, Hl'. split; [reflexivity|split; [reflexivity|]].
    injection Hs' as -> ->. reflexivity.
Qed.

Lemma split_nl_first_two (a r : str) :
  3 <= List.length (split_nl a) -> firstn 2 (split_nl (a ++ r)) = firstn 2 (split_nl a).
Proof.
  intros H3. destruct (split_nl_decomp a) as (l0 & a1 & -> & H0 & S0); [lia|].
  rewrite S0 in H3 |- *. cbn in H3.
  destruct (split_nl_decomp a1) as (l1 & a2 & -> & H1 & S1); [lia|].
  rewrite S1. rewrite <- app_assoc. cbn [app].
  rewrite split_nl_app_line by exact H0. rewrite <- app_assoc. cbn [app].
  rewrite split_nl_app_line by exact H1. reflexivity.
Qed.

Lemma read_lines_spec (fuel : nat) (c : str) (pos : nat) (start : str) (lines : list str) :
  start = firstn pos c ->
  (lines = [] /\ pos = 0 \/ lines = split_nl start) ->
  List.length c < pos + 500 * fuel ->
  exists P, read_lines fuel c pos start lines = split_nl (firstn P c) /\
    (firstn P c = c \/ 3 <= List.length (split_nl (firstn P c))).
Proof.
  revert pos start lines; induction fuel as [|f IH]; intros pos start lines Hs Hl Hc.
  - cbn. destruct Hl as [[_ ->]| ->]; [lia|].
    exists pos. subst start. split; [reflexivity|left]. apply firstn_all2. lia.
  - cbn [read_lines]. destruct (List.length lines <? 3) eqn:L.
    + destruct (is_nil (firstn 500 (skipn pos c))) eqn:D.
      * exists pos. assert (E : firstn 500 (skipn pos c) = []) by
          (destruct (firstn 500 (skipn pos c)); [reflexivity|discriminate]).
        rewrite E, app_nil_r, Hs. split; [reflexivity|left].
        apply firstn_all2. destruct (skipn pos c) as [|x l] eqn:Sk; [|discriminate].
        pose proof (length_skipn pos c) as Hlen. rewrite Sk in Hlen. cbn in Hlen. lia.
      * apply IH; [|right; reflexivity|lia].
        now rewrite Hs, firstn_add_skipn.
    + exists pos. apply Nat.ltb_ge in L.
      destruct Hl as [[-> _]| ->]; [cbn in L; lia|]. subst start. split; [reflexivity|now right].
Qed.

Lemma encoding_from_lines_firstn (lines : list str) (d : str) :
  lines <> [] -> encoding_from_lines (firstn 2 lines) d = encoding_from_lines lines d.
Proof.
  destruct lines as [|l0 [|l1 ls]]; intros H; [contradiction|reflexivity|reflexivity].
Qed.

Lemma match_coding_at_nonword (c : ascii) (t : str) :
  is_word_byte c = false -> match_encoding_here (c :: t) = None.
Proof.
  intros Hc. unfold match_encoding_here. cbn [run]. rewrite Hc. cbn [try_word].
  unfold match_coding_at. cbn [skipn].
  replace (startswith (lit "coding") (c :: t)) with false; [reflexivity|].
  unfold lit. cbn [list_ascii_of_string startswith].
  destruct (Ascii.eqb_spec "c" c) as [<-|]; [vm_compute in Hc; discriminate|reflexivity].
Qed.

Lemma match_file_encoding_skip (pre s : str) :
  forallb (fun c => negb (is_word_byte c)) pre = true ->
  _match_file_encoding (pre ++ s) = _match_file_encoding s.
Proof.
  induction pre as [|c pre IH]; intros Hp; [reflexivity|].
  cbn in Hp. apply andb_true_iff in Hp as [Hc Hp]. apply negb_true_iff in Hc.
  cbn [app _match_file_encoding]. rewrite match_coding_at_nonword by exact Hc. now apply IH.
Qed.

Lemma run_app (p : ascii -> bool) (w t : str) :
  forallb p w = true -> run p (w ++ t) = List.length w + run p t.
Proof.
  induction w as [|c w IH]; intros Hw; [reflexivity|].
  cbn in Hw |- *. apply andb_true_iff in Hw as [-> Hw]. now rewrite IH.
Qed.

Lemma try_word_down (s : str) (k n : nat) :
  (forall i, k < i <= k + n -> match_coding_at s i = None) -> try_word s (k + n) = try_word s k.
Proof.
  induction n as [|n IH]; intros H; [now rewrite Nat.add_0_r|].
  rewrite Nat.add_succ_r. cbn [try_word]. rewrite H by lia. apply IH. intros i Hi. apply H. lia.
Qed.

Lemma try_word_at (s : str) (k : nat) (r : str * str) :
  match_coding_at s k = Some r -> try_word s k = Some r.
Proof. destruct k; cbn [try_word]; intros H; now rewrite H. Qed.

Lemma try_spaces_at (s : str) (j : nat) (v : str) :
  match_value (skipn j s) = Some v -> try_spaces s j = Some v.
Proof. destruct j; cbn [try_spaces]; intros H; [exact H|now rewrite H]. Qed.

Lemma value_not_space (c : ascii) : is_value_byte c = true -> is_space_byte c = false.
Proof.
  assert (A : forallb (fun n => negb (is_value_byte (ascii_of_nat n) && is_space_byte (ascii_of_nat n)))
                (seq 0 256) = true) by (vm_compute; reflexivity).
  intros Hv. rewrite forallb_forall in A.
  specialize (A (nat_of_ascii c)). rewrite ascii_nat_embedding, Hv in A.
  destruct (is_space_byte c); [|reflexivity].
  assert (Hn := nat_ascii_bounded c). specialize (A ltac:(apply in_seq; lia)). discriminate.
Qed.

Lemma not_newline_of (p : ascii -> bool) (c : ascii) :
  p newline = false -> p c = true -> negb (Ascii.eqb c newline) = true.
Proof. intros Hn Hc. destruct (Ascii.eqb_spec c newline); [subst; congruence|reflexivity]. Qed.

(** [_match_file_encoding] on a declaration [...coding: name...]. *)
Lemma match_file_encoding_decl (pre w : str) (sep : ascii) (sp v post : str) :
  forallb (fun c => negb (is_word_byte c)) pre = true -> forallb is_word_byte w = true ->
  (sep = ":"%char \/ sep = "="%char) -> forallb is_space_byte sp = true ->
  v <> [] -> forallb is_value_byte v = true ->
  match post with [] => True | x :: _ => is_value_byte x = false end ->
  _match_file_encoding (pre ++ w ++ lit "coding" ++ sep :: sp ++ v ++ post)
  = Some (w ++ lit "coding", v).
Proof.
  intros Hpre Hw Hsep Hsp Hv Hvv Hpost. rewrite match_file_encoding_skip by exact Hpre.
  set (rest := sp ++ v ++ post).
  set (s := w ++ lit "coding" ++ sep :: rest).
  assert (Hskip : forall j, skipn (List.length w + j) s = skipn j (lit "coding" ++ sep :: rest)).
  { intros j. unfold s. rewrite skipn_app, skipn_all2 by lia.
    now replace (List.length w + j - List.length w) with j by lia. }
  assert (Hrun : run is_word_byte s = List.length w + 6).
  { unfold s. rewrite run_app by exact Hw. f_equal.
    destruct Hsep as [->| ->]; reflexivity. }
  assert (Hat : match_coding_at s (List.length w) = Some (w ++ lit "coding", v)).
  { unfold match_coding_at. rewrite <- (Nat.add_0_r (List.length w)) at 1.
    rewrite Hskip. cbn [skipn]. rewrite startswith_app.
    replace (List.length w + 6) with (List.length w + 6 + 0) by lia.
    rewrite Nat.add_0_r.
    rewrite Hskip. cbn [skipn lit list_ascii_of_string app].
    assert (Hm : match_after_coding (sep :: rest) = Some v).
    { unfold match_after_coding.
      replace (Ascii.eqb sep ":" || Ascii.eqb sep "=") with true
        by (destruct Hsep as [->| ->]; reflexivity).
      apply try_spaces_at. unfold rest.
      rewrite run_app by exact Hsp.
      destruct v as [|x v']; [contradiction|].
      cbn in Hvv. apply andb_true_iff in Hvv as [Hx Hv'].
      cbn [app run]. rewrite (value_not_space x Hx), Nat.add_0_r.
      rewrite skipn_app, skipn_all, Nat.sub_diag. cbn [app skipn].
      unfold match_value. cbn [run]. rewrite Hx.
      rewrite run_app by exact Hv'.
      replace (run is_value_byte post) with 0 by (destruct post as [|y post]; cbn; [reflexivity|now rewrite Hpost]).
      cbn [Nat.eqb]. rewrite Nat.add_0_r. cbn [firstn]. f_equal. f_equal.
      rewrite firstn_app, firstn_all, Nat.sub_diag. cbn. now rewrite app_nil_r. }
    rewrite Hm. f_equal. f_equal. unfold s. rewrite app_assoc.
    rewrite firstn_app, firstn_all2 by (rewrite length_app; cbn; lia).
    rewrite length_app. cbn [List.length lit list_ascii_of_string].
    replace (List.length w + 6 - (List.length w + 6)) with 0 by lia. apply app_nil_r. }
  assert (U : forall t, _match_file_encoding t
    = match match_encoding_here t with
      | Some r => Some r
      | None => match t with [] => None | _ :: t' => _match_file_encoding t' end
      end) by (intros [|? ?]; reflexivity).
  rewrite U. unfold match_encoding_here. rewrite Hrun.
  rewrite try_word_down, (try_word_at s _ _ Hat); [reflexivity|].
  intros i Hi. unfold match_coding_at.
  replace i with (List.length w + (i - List.length w)) by lia. rewrite Hskip.
  replace (startswith (lit "coding") (skipn (i - List.length w) (lit "coding" ++ sep :: rest)))
    with false; [reflexivity|].
  assert (Hj : i - List.length w = 1 \/ i - List.length w = 2 \/ i - List.length w = 3 \/
               i - List.length w = 4 \/ i - List.length w = 5 \/ i - List.length w = 6) by lia.
  destruct Hj as [->|[->|[->|[->|[->| ->]]]]]; cbn; try reflexivity.
  destruct Hsep as [->| ->]; reflexivity.
Qed.

Lemma forallb_mono (p q : ascii -> bool) (l : str) :
  (forall x, p x = true -> q x = true) -> forallb p l = true -> forallb q l = true.
Proof.
  intros Hpq Hl. apply forallb_forall. intros x Hx.
  apply Hpq. exact (proj1 (forallb_forall p l) Hl x Hx).
Qed.

Lemma split_nl_line_rest (l rest : str) :
  forallb (fun x => negb (Ascii.eqb x newline)) l = true ->
  match rest with [] => True | x :: _ => x = newline end ->
  exists ls, split_nl (l ++ rest) = l :: ls.
Proof.
  intros Hl Hr. destruct rest as [|x r].
  - exists []. rewrite app_nil_r. now apply split_nl_line.
  - subst x. exists (split_nl r). now apply split_nl_app_line.
Qed.

(** detect_opened_file_encoding: reading the file 500 bytes at a time
    until it has seen three lines (two newlines) or the end of the file
    gives the same answer as looking at the whole file; the answer depends
    only on its first two lines. *)
Theorem detect_opened_file_encoding_first_two_lines (c d : str) :
  detect_opened_file_encoding c d = encoding_from_lines (firstn 2 (split_nl c)) d.
Proof.
  unfold detect_opened_file_encoding.
  destruct (read_lines_spec (S (List.length c)) c 0 [] []) as (P & HR & HP);
    [reflexivity|left; split; reflexivity|lia|].
  rewrite HR, <- encoding_from_lines_firstn by apply split_nl_nonnil. f_equal.
  destruct HP as [E|H3]; [now rewrite E|].
  rewrite <- (firstn_skipn P c) at 2. symmetry. now apply split_nl_first_two.
Qed.

(** detect_opened_file_encoding: a first line [...coding: NAME...] or
    [...coding=NAME...] (in the manner of PEP 263, where [NAME] is the
    longest run of letters, digits, [_], [-] and [.] after the separator
    and optional blanks, and nothing before the word ending in [coding]
    contains a letter, digit or [_]) gives [NAME], unless the word ending
    in [coding] is [c_string_encoding]. *)
Theorem detect_opened_file_encoding_declaration (pre w : str) (sep : ascii)
  (sp v post rest d : str) :
  forallb (fun c => negb (is_word_byte c)) pre = true -> forallb is_word_byte w = true ->
  (sep = ":"%char \/ sep = "="%char) -> forallb is_space_byte sp = true ->
  v <> [] -> forallb is_value_byte v = true ->
  match post with [] => True | x :: _ => is_value_byte x = false end ->
  forallb (fun x => negb (Ascii.eqb x newline)) (pre ++ sp ++ post) = true ->
  match rest with [] => True | x :: _ => x = newline end ->
  str_eqb (w ++ lit "coding") (lit "c_string_encoding") = false ->
  detect_opened_file_encoding (pre ++ w ++ lit "coding" ++ sep :: sp ++ v ++ post ++ rest) d = v.
Proof.
  intros Hpre Hw Hsep Hsp Hv Hvv Hpost Hnl Hrest Hc.
  rewrite detect_opened_file_encoding_first_two_lines.
  rewrite !forallb_app in Hnl.
  apply andb_true_iff in Hnl as [Npre Hnl]. apply andb_true_iff in Hnl as [Nsp Npost].
  assert (Hline : forallb (fun x => negb (Ascii.eqb x newline))
                    (pre ++ w ++ lit "coding" ++ sep :: sp ++ v ++ post) = true).
  { rewrite !forallb_app. cbn [forallb]. rewrite !forallb_app.
    rewrite Npre, Nsp, Npost.
    rewrite (forallb_mono is_word_byte _ w (fun x => not_newline_of is_word_byte x eq_refl) Hw).
    rewrite (forallb_mono is_value_byte _ v (fun x => not_newline_of is_value_byte x eq_refl) Hvv).
    destruct Hsep as [->| ->]; reflexivity. }
  replace (pre ++ w ++ lit "coding" ++ sep :: sp ++ v ++ post ++ rest)
    with ((pre ++ w ++ lit "coding" ++ sep :: sp ++ v ++ post) ++ rest)
    by (rewrite <- !app_assoc; cbn [app]; now rewrite <- !app_assoc).
  destruct (split_nl_line_rest _ rest Hline Hrest) as [ls ->].
  unfold encoding_from_lines. cbv zeta. cbn [firstn nth].
  rewrite match_file_encoding_decl by assumption. now rewrite Hc.
Qed.

(** detect_opened_file_encoding: the second line is used when the first
    one has no match or only one for [c_string_encoding]; then the first
    match of the second line gives the result, even when it is itself a
    [c_string_encoding] setting, and with no match the default is
    returned. *)
Theorem detect_opened_file_encoding_second_line (l0 l1 rest d : str) :
  forallb (fun x => negb (Ascii.eqb x newline)) (l0 ++ l1) = true ->
  match rest with [] => True | x :: _ => x = newline end ->
  match _match_file_encoding l0 with
  | Some (g, _) => g = lit "c_string_encoding"
  | None => True
  end ->
  detect_opened_file_encoding (l0 ++ newline :: l1 ++ rest) d
  = match _match_file_encoding l1 with Some (_, v) => v | None => d end.
Proof.
  intros Hnl Hrest H0. rewrite detect_opened_file_encoding_first_two_lines.
  rewrite forallb_app in Hnl. apply andb_true_iff in Hnl as [N0 N1].
  rewrite split_nl_app_line by exact N0.
  destruct (split_nl_line_rest l1 rest N1 Hrest) as [ls ->].
  unfold encoding_from_lines. cbv zeta. cbn [firstn nth List.length].
  change (1 <? 2) with true. cbv iota.
  destruct (_match_file_encoding l0) as [[g v0]|]; [|reflexivity].
  subst g. now rewrite str_eqb_refl.
Qed.

(** ** copy_file_to_dir_if_newer *)

Lemma fs_set_other (fs : fsys) (p q : str) (v : option node) :
  str_eqb q p = false -> fs_nodes (fs_set fs p v) q = fs_nodes fs q.
Proof. intros H. cbn [fs_set fs_nodes]. now rewrite H. Qed.

Lemma copy2_ok (fs fs' : fsys) (src dst : str) :
  copy2 fs src dst = (fs', true) -> os_path_isdir fs' dst = false ->
  str_eqb src dst = false /\
  exists c t, fs_nodes fs src = Some (NFile c t) /\ fs' = fs_set fs dst (Some (NFile c t)).
Proof.
  unfold copy2. intros Hc Hd.
  destruct (os_path_isdir fs dst) eqn:D.
  - exfalso. set (dst2 := os_path_join dst (os_path_basename src)) in Hc.
    destruct (str_eqb src dst2); [discriminate|].
    destruct (fs_nodes fs src) as [[c t|m]|]; try discriminate.
    destruct (read_denied fs src); [discriminate|].
    destruct (fs_nodes fs dst2) as [[c2 t2|m2]|] eqn:N2; try discriminate;
      (destruct (create_denied fs dst2); [discriminate|]);
      injection Hc as <-; unfold os_path_isdir in Hd, D; cbn [fs_set fs_nodes] in Hd;
      (destruct (str_eqb dst dst2) eqn:E;
       [apply str_eqb_eq in E; rewrite <- E, N2 in *; discriminate|rewrite D in Hd; discriminate]).
  - destruct (str_eqb src dst) eqn:E; [discriminate|]. split; [reflexivity|].
    destruct (fs_nodes fs src) as [[c t|m]|]; try discriminate.
    destruct (read_denied fs src); [discriminate|].
    exists c, t. split; [reflexivity|].
    destruct (fs_nodes fs dst) as [[c2 t2|m2]|]; try discriminate;
      (destruct (create_denied fs dst); [discriminate|]); now injection Hc as <-.
Qed.

(** The two ways [copy_file_to_dir_if_newer] returns normally. *)
Lemma copy_file_to_dir_if_newer_outcome (makedirs : fsys -> str -> fsys * bool)
  (fs fs1 : fsys) (src destdir : str) :
  copy_file_to_dir_if_newer makedirs fs src destdir = (fs1, true) ->
  os_path_isdir fs1 (os_path_join destdir (os_path_basename src)) = false ->
  (fs1 = fs /\ exists dt ft,
     modification_time fs (os_path_join destdir (os_path_basename src)) = Some dt /\
     modification_time fs src = Some ft /\ (ft <= dt)%Z) \/
  (str_eqb src (os_path_join destdir (os_path_basename src)) = false /\
   fs_nodes fs1 (os_path_join destdir (os_path_basename src)) = fs_nodes fs1 src /\
   exists c t, fs_nodes fs1 src = Some (NFile c t)).
Proof.
  set (destfile := os_path_join destdir (os_path_basename src)).
  intros Hc Hd. unfold copy_file_to_dir_if_newer in Hc. fold destfile in Hc.
  assert (Copied : forall fs0, copy2 fs0 src destfile = (fs1, true) ->
    str_eqb src destfile = false /\ fs_nodes fs1 destfile = fs_nodes fs1 src /\
    exists c t, fs_nodes fs1 src = Some (NFile c t)).
  { intros fs0 H. destruct (copy2_ok fs0 fs1 src destfile H Hd) as (E & c & t & Hs & ->).
    split; [exact E|]. rewrite (fs_set_other fs0 destfile src) by exact E.
    cbn [fs_set fs_nodes]. rewrite str_eqb_refl. split; [now rewrite Hs|now exists c, t]. }
  destruct (modification_time fs destfile) as [dt|] eqn:M.
  - unfold file_newer_than in Hc. destruct (modification_time fs src) as [ft|] eqn:Ms; [|discriminate].
    destruct (dt <? ft)%Z eqn:L.
    + right. now apply (Copied fs).
    + left. injection Hc as <-. split; [reflexivity|]. exists dt, ft.
      apply Z.ltb_ge in L. repeat split; assumption.
  - destruct (safe_makedirs makedirs fs destdir) as [fs0 []]; [|discriminate].
    right. now apply (Copied fs0).
Qed.

(** copy_file_to_dir_if_newer: when it returns normally and leaves a file
    (not a directory) at [destdir/basename(sourcefile)], either nothing
    was changed because that file already existed and was not older than
    the source, or that file now holds the source's contents and
    (access, modification) times. *)
Theorem copy_file_to_dir_if_newer_result (makedirs : fsys -> str -> fsys * bool)
  (fs fs1 : fsys) (src destdir : str) :
  copy_file_to_dir_if_newer makedirs fs src destdir = (fs1, true) ->
  os_path_isdir fs1 (os_path_join destdir (os_path_basename src)) = false ->
  (fs1 = fs /\ exists dt ft,
     modification_time fs (os_path_join destdir (os_path_basename src)) = Some dt /\
     modification_time fs src = Some ft /\ (ft <= dt)%Z) \/
  (fs_nodes fs1 (os_path_join destdir (os_path_basename src)) = fs_nodes fs1 src /\
   exists c t, fs_nodes fs1 src = Some (NFile c t)).
Proof.
  intros Hc Hd. destruct (copy_file_to_dir_if_newer_outcome makedirs fs fs1 src destdir Hc Hd)
    as [H|(_ & H)]; [now left|now right].
Qed.

(** copy_file_to_dir_if_newer: calling it again after it returned
    normally (leaving a file at the destination) changes nothing and
    returns normally: a copy carries the source's modification time, so the
    source is not newer the second time. *)
Theorem copy_file_to_dir_if_newer_idempotent (makedirs : fsys -> str -> fsys * bool)
  (fs fs1 : fsys) (src destdir : str) :
  copy_file_to_dir_if_newer makedirs fs src destdir = (fs1, true) ->
  os_path_isdir fs1 (os_path_join destdir (os_path_basename src)) = false ->
  copy_file_to_dir_if_newer makedirs fs1 src destdir = (fs1, true).
Proof.
  intros Hc Hd.
  destruct (copy_file_to_dir_if_newer_outcome makedirs fs fs1 src destdir Hc Hd)
    as [[-> _]|(_ & Hn & c & [a m] & Hs)]; [exact Hc|].
  unfold copy_file_to_dir_if_newer, file_newer_than, modification_time.
  rewrite Hn, Hs. now rewrite Z.ltb_irrefl.
Qed.

(** ** print_captured *)

(** print_captured: captured output that is empty or only ASCII
    whitespace writes nothing, not even the header; otherwise, when it
    returns, it has written nothing or the header (when given and not
    empty) followed by the non-empty decoded text, never the header
    alone. *)
Theorem print_captured_writes (enc : str) (streams : list (option str))
  (decode : str -> list Byte.byte -> result text codec_error)
  (captured : list Byte.byte) (output : list text) (header_line : option text) :
  (bytes_strip captured = [] -> print_captured enc streams decode captured output header_line = Ok output) /\
  (forall out, print_captured enc streams decode captured output header_line = Ok out ->
     out = output \/
     exists t, t <> [] /\
       out = output ++ match header_line with
                       | Some h => if is_nil h then [] else [h]
                       | None => []
                       end ++ [t]).
Proof.
  split.
  - intros H. unfold print_captured, prepare_captured. now rewrite H.
  - intros out. unfold print_captured.
    destruct (prepare_captured enc streams decode captured) as [[t|]|e]; intros H;
      [|injection H as <-; now left|discriminate].
    destruct t as [|x t]; cbn [is_nil] in H; injection H as <-; [now left|].
    right. exists (x :: t). split; [congruence|reflexivity].
Qed.

(** * Instances of the hypotheses of the further properties *)

Lemma cache_consistent_empty (f : nat -> result nat unit) :
  cache_consistent Nat.eq_dec f fc_empty.
Proof. intros x v H. discriminate. Qed.

(** The calls 4, 3, 4, 3 of [half_even] from an empty cache. *)
Lemma cached_function_transparent_witness :
  cache_consistent Nat.eq_dec half_even fc_empty /\
  snd (cached_calls Nat.eq_dec half_even fc_empty [4; 3; 4; 3]) = map half_even [4; 3; 4; 3] /\
  cache_consistent Nat.eq_dec half_even (fst (cached_calls Nat.eq_dec half_even fc_empty [4; 3; 4; 3])) /\
  cache_consistent Nat.eq_dec half_even
    (clear_cache (fst (cached_calls Nat.eq_dec half_even fc_empty [4; 3; 4; 3]))).
Proof.
  split; [apply cache_consistent_empty|].
  exact (cached_function_transparent nat nat unit Nat.eq_dec half_even fc_empty [4; 3; 4; 3]
           (cache_consistent_empty half_even)).
Defined.

(** Three calls of [half_even] with 3. *)
Lemma cached_function_exception_not_cached_witness :
  cache_consistent Nat.eq_dec half_even fc_empty /\ half_even 3 = Exc tt /\
  cached_calls Nat.eq_dec half_even fc_empty (repeat 3 3)
  = ({| fc_cache := fc_cache fc_empty; fc_calls := fc_calls fc_empty ++ repeat 3 3 |},
     repeat (Exc tt) 3).
Proof.
  assert (H : half_even 3 = Exc tt) by reflexivity.
  split; [apply cache_consistent_empty|]. split; [exact H|].
  exact (cached_function_exception_not_cached nat nat unit Nat.eq_dec half_even fc_empty 3 tt 3
           (cache_consistent_empty half_even) H).
Defined.

(** [pkg/mod.pyx] with the suffix [.c]. *)
Lemma replace_suffix_idempotent_witness :
  ~ In "."%char (lit "c") /\ ~ In "/"%char (lit "c") /\
  (exists c, In c (os_path_basename (fst (os_path_splitext (lit "pkg/mod.pyx")))) /\ c <> "."%char) /\
  replace_suffix (replace_suffix (lit "pkg/mod.pyx") ("."%char :: lit "c")) ("."%char :: lit "c")
  = replace_suffix (lit "pkg/mod.pyx") ("."%char :: lit "c").
Proof.
  assert (H1 : ~ In "."%char (lit "c")) by (cbn; intros [H|[]]; discriminate).
  assert (H2 : ~ In "/"%char (lit "c")) by (cbn; intros [H|[]]; discriminate).
  assert (H3 : exists c, In c (os_path_basename (fst (os_path_splitext (lit "pkg/mod.pyx"))))
                         /\ c <> "."%char)
    by (exists "m"%char; split; [vm_compute; auto|discriminate]).
  split; [exact H1|]. split; [exact H2|]. split; [exact H3|].
  exact (replace_suffix_idempotent (lit "pkg/mod.pyx") (lit "c") H1 H2 H3).
Defined.

(** [-0xfF] *)
Lemma str_to_number_prefixed_witness :
  In (16, "x"%char) [(16, "x"%char); (16, "X"%char); (8, "o"%char); (8, "O"%char);
                     (2, "b"%char); (2, "B"%char)] /\
  lit "fF" <> [] /\ Forall (fun d => _PyLong_DigitValue d < 16) (lit "fF") /\
  str_to_number 4300 ((if true then lit "-" else []) ++ "0"%char :: "x"%char :: lit "fF")
  = Ok (if true then Z.opp (digits_value 16 (map _PyLong_DigitValue (lit "fF")))
        else digits_value 16 (map _PyLong_DigitValue (lit "fF"))) /\
  digits_value 16 (map _PyLong_DigitValue (lit "fF")) = 255%Z.
Proof.
  assert (H1 : In (16, "x"%char) [(16, "x"%char); (16, "X"%char); (8, "o"%char); (8, "O"%char);
                                 (2, "b"%char); (2, "B"%char)]) by (left; reflexivity).
  assert (H2 : lit "fF" <> []) by discriminate.
  assert (H3 : Forall (fun d => _PyLong_DigitValue d < 16) (lit "fF"))
    by (repeat constructor; vm_compute; lia).
  split; [exact H1|]. split; [exact H2|]. split; [exact H3|].
  split; [exact (str_to_number_prefixed 4300 16 "x"%char true (lit "fF") H1 H2 H3)|].
  reflexivity.
Defined.

(** [017] *)
Lemma str_to_number_old_octal_witness :
  Forall (fun d => d < 8) [1; 7] /\
  str_to_number 4300 ((if false then lit "-" else []) ++ "0"%char :: map digit_char [1; 7])
  = Ok (if false then Z.opp (digits_value 8 [1; 7]) else digits_value 8 [1; 7]).
Proof.
  assert (H : Forall (fun d => d < 8) [1; 7]) by (repeat constructor; lia).
  split; [exact H|]. exact (str_to_number_old_octal 4300 false [1; 7] H).
Defined.

(** [-123] *)
Lemma str_to_number_decimal_witness :
  0 < 1 < 10 /\ Forall (fun d => d < 10) [2; 3] /\ (4300 = 0 \/ S (List.length [2; 3]) <= 4300) /\
  str_to_number 4300 ((if true then lit "-" else []) ++ map digit_char (1 :: [2; 3]))
  = Ok (if true then Z.opp (digits_value 10 (1 :: [2; 3])) else digits_value 10 (1 :: [2; 3])).
Proof.
  assert (H1 : 0 < 1 < 10) by lia.
  assert (H2 : Forall (fun d => d < 10) [2; 3]) by (repeat constructor; lia).
  assert (H3 : 4300 = 0 \/ S (List.length [2; 3]) <= 4300) by (right; cbn; lia).
  split; [exact H1|]. split; [exact H2|]. split; [exact H3|].
  exact (str_to_number_decimal 4300 true 1 [2; 3] H1 H2 H3).
Defined.

(** [0x_1F] *)
Lemma str_to_number_underscore_after_prefix_witness :
  is_x "x"%char || is_o "x"%char || is_b "x"%char = true /\
  str_to_number 4300 ((if false then lit "-" else []) ++ "0"%char :: "x"%char :: "_"%char :: lit "1F")
  = Exc ValueError.
Proof.
  assert (H : is_x "x"%char || is_o "x"%char || is_b "x"%char = true) by reflexivity.
  split; [exact H|]. exact (str_to_number_underscore_after_prefix 4300 false "x"%char (lit "1F") H).
Defined.

Lemma build_hex_version_spec_witness :
  build_hex_version 4300 (version_str [4] [3] None (Some (Alpha, [1])))
  = Ok (lit "0x" ++ format_08X
          (digits_value 10 [4%nat] * 2 ^ 24 + digits_value 10 [3%nat] * 2 ^ 16
           + 0 * 2 ^ 8 + (tag_status Alpha + digits_value 10 [1%nat]))%Z).
Proof.
  apply (build_hex_version_spec 4300 [4] [3] None (Some (Alpha, [1]))).
  intros ds [->|[->|[Hd|[t Hd]]]]; try discriminate;
    try (injection Hd as _ <-); (split; [discriminate|split; [repeat constructor; lia|right; cbn; lia]]).
Defined.

Lemma build_hex_version_bytes_witness :
  build_hex_version 4300 (version_str [4] [1; 2] None (Some (Alpha, [1])))
  = Ok (lit "0x" ++ hex_digits_fixed 2 (digits_value 10 [4])
        ++ hex_digits_fixed 2 (digits_value 10 [1; 2])
        ++ hex_digits_fixed 2 0
        ++ hex_digits_fixed 2 (tag_status Alpha + digits_value 10 [1])).
Proof.
  apply (build_hex_version_bytes 4300 [4] [1; 2] None (Some (Alpha, [1])));
    [|vm_compute; reflexivity ..].
  intros ds [->|[->|[Hd|[t Hd]]]]; try discriminate;
    try (injection Hd as _ <-); (split; [discriminate|split; [repeat constructor; lia|right; cbn; lia]]).
Defined.


Lemma castrate_file_marks_failed_witness :
  fs_nodes (castrate_file (demo_fsys true) (lit "a.c") (Some (10, 20)%Z)) (lit "a.c")
  = Some (NFile (failure_marker ++ [newline])
            match Some (10, 20)%Z with Some (a, m) => (a, m - 1)%Z
            | None => (fs_now (demo_fsys true), fs_now (demo_fsys true)) end) /\
  is_cython_generated_file (castrate_file (demo_fsys true) (lit "a.c") (Some (10, 20)%Z)) (lit "a.c") true false = true /\
  is_cython_generated_file (castrate_file (demo_fsys true) (lit "a.c") (Some (10, 20)%Z)) (lit "a.c") false false = false.
Proof.
  apply (castrate_file_marks_failed (demo_fsys true) (lit "a.c") (Some (10, 20)%Z) false);
    vm_compute; reflexivity.
Defined.


Lemma castrate_file_open_failure_witness :
  is_cython_generated_file (demo_fsys false) (lit "a.c") true false = true /\
  (unlink_denied (demo_fsys false) (lit "a.c") = true ->
     same_but_atime (fs_nodes (castrate_file (demo_fsys false) (lit "a.c") None) (lit "a.c"))
                    (fs_nodes (demo_fsys false) (lit "a.c"))) /\
  (unlink_denied (demo_fsys false) (lit "a.c") = false -> create_denied (demo_fsys false) (lit "a.c") = true ->
     fs_nodes (castrate_file (demo_fsys false) (lit "a.c") None) (lit "a.c") = None).
Proof.
  split; [vm_compute; reflexivity|].
  apply (castrate_file_open_failure (demo_fsys false) (lit "a.c") None). vm_compute. reflexivity.
Defined.

Lemma detect_opened_file_encoding_declaration_witness :
  detect_opened_file_encoding
    (lit "# -*- " ++ [] ++ lit "coding" ++ ":"%char :: lit " " ++ lit "latin-1" ++ lit " -*-"
       ++ newline :: lit "x = 1") (lit "UTF-8")
  = lit "latin-1".
Proof.
  apply (detect_opened_file_encoding_declaration (lit "# -*- ") [] ":"%char (lit " ")
           (lit "latin-1") (lit " -*-") (newline :: lit "x = 1") (lit "UTF-8"));
    first [ vm_compute; reflexivity | left; reflexivity | vm_compute; discriminate ].
Defined.

Lemma detect_opened_file_encoding_second_line_witness :
  detect_opened_file_encoding
    (lit "# cython: c_string_encoding=ascii" ++ newline :: lit "# cython: c_string_encoding=latin1" ++ [])
    (lit "UTF-8")
  = match _match_file_encoding (lit "# cython: c_string_encoding=latin1") with
    | Some (_, v) => v
    | None => lit "UTF-8"
    end.
Proof.
  apply (detect_opened_file_encoding_second_line (lit "# cython: c_string_encoding=ascii")
           (lit "# cython: c_string_encoding=latin1") [] (lit "UTF-8"));
    first [ vm_compute; reflexivity | exact I ].
Defined.

Lemma copy_file_to_dir_if_newer_result_witness :
  (fst (copy_file_to_dir_if_newer demo_makedirs (demo_fsys true) (lit "a.c") (lit "out")) = demo_fsys true /\
   exists dt ft,
     modification_time (demo_fsys true) (os_path_join (lit "out") (os_path_basename (lit "a.c"))) = Some dt /\
     modification_time (demo_fsys true) (lit "a.c") = Some ft /\ (ft <= dt)%Z) \/
  (fs_nodes (fst (copy_file_to_dir_if_newer demo_makedirs (demo_fsys true) (lit "a.c") (lit "out")))
     (os_path_join (lit "out") (os_path_basename (lit "a.c")))
   = fs_nodes (fst (copy_file_to_dir_if_newer demo_makedirs (demo_fsys true) (lit "a.c") (lit "out"))) (lit "a.c") /\
   exists c t, fs_nodes (fst (copy_file_to_dir_if_newer demo_makedirs (demo_fsys true) (lit "a.c") (lit "out")))
                 (lit "a.c") = Some (NFile c t)).
Proof.
  apply (copy_file_to_dir_if_newer_result demo_makedirs (demo_fsys true)
           (fst (copy_file_to_dir_if_newer demo_makedirs (demo_fsys true) (lit "a.c") (lit "out")))
           (lit "a.c") (lit "out")); vm_compute; reflexivity.
Defined.

Lemma copy_file_to_dir_if_newer_idempotent_witness :
  copy_file_to_dir_if_newer demo_makedirs
    (fst (copy_file_to_dir_if_newer demo_makedirs (demo_fsys true) (lit "a.c") (lit "out")))
    (lit "a.c") (lit "out")
  = (fst (copy_file_to_dir_if_newer demo_makedirs (demo_fsys true) (lit "a.c") (lit "out")), true).
Proof.
  apply (copy_file_to_dir_if_newer_idempotent demo_makedirs (demo_fsys true)
           (fst (copy_file_to_dir_if_newer demo_makedirs (demo_fsys true) (lit "a.c") (lit "out")))
           (lit "a.c") (lit "out")); vm_compute; reflexivity.
Defined.

Lemma print_captured_writes_witness :
  bytes_strip [Byte.x20; Byte.x0a] = [] /\
  print_captured (lit "utf-8") [] (fun _ b => Ok (latin1_decode b)) [Byte.x20; Byte.x0a] []
    (Some (map N.of_nat [72; 58])) = Ok [].
Proof.
  split; [reflexivity|].
  apply (proj1 (print_captured_writes (lit "utf-8") [] (fun _ b => Ok (latin1_decode b))
                  [Byte.x20; Byte.x0a] [] (Some (map N.of_nat [72; 58])))).
  reflexivity.
Defined.
